(** * bashDebug.ts: the correlation engine of the bash debug adapter

    A shallow embedding of [src/bashDebug.ts] (class [BashDebugSession]):
    the line buffer fed by the named pipe, the completion detector
    [promptReached], the busy gate of the request handlers, the timers of
    [scheduleExecution] and the breakpoint ledger.

    JavaScript strings are modelled as [string], arrays as [list], array
    indices and numbers as [Z] (with a separate [NaN]), the ledger object as a
    [gmap] keyed by the source path. *)

From Stdlib Require Import ZArith Ascii DecimalString DecimalPos DecimalZ Decimal.
From stdpp Require Import gmap strings list.

Local Open Scope Z_scope.

(** ** JavaScript string and array primitives used by the session *)

Module JS.

Definition nl : string := String "010"%char "".

(** [p] is found at the head of [s]: the test [indexOf] makes at each index. *)
Fixpoint startsWith (p s : string) : bool :=
  match p, s with
  | "", _ => true
  | String a p', String b s' => if decide (a = b) then startsWith p' s' else false
  | String _ _, "" => false
  end.

Fixpoint drop (n : nat) (s : string) : string :=
  match n, s with
  | O, _ => s
  | S n', String _ s' => drop n' s'
  | S _, "" => ""
  end.

Fixpoint take (n : nat) (s : string) : string :=
  match n, s with
  | O, _ => ""
  | S n', String c s' => String c (take n' s')
  | S _, "" => ""
  end.

(** [s.indexOf(pat)]: the least index at which [pat] occurs, [-1] if none. *)
Fixpoint indexOf_from (pat s : string) (i : Z) : Z :=
  if startsWith pat s then i
  else match s with
       | "" => -1
       | String _ s' => indexOf_from pat s' (i + 1)
       end.

Definition indexOf (s pat : string) : Z := indexOf_from pat s 0.

(** [s.lastIndexOf(pat)]: the greatest index at which [pat] occurs. *)
Fixpoint lastIndexOf_from (pat s : string) (i acc : Z) : Z :=
  let acc' := if startsWith pat s then i else acc in
  match s with
  | "" => acc'
  | String _ s' => lastIndexOf_from pat s' (i + 1) acc'
  end.

Definition lastIndexOf (s pat : string) : Z := lastIndexOf_from pat s 0 (-1).

(** [s.substr(start, len)]; [len = None] is the one-argument call. A
    negative [start] counts from the end of the string. *)
Definition substr (s : string) (start : Z) (len : option Z) : string :=
  let size := Z.of_nat (String.length s) in
  let from := if start <? 0 then Z.max (size + start) 0 else Z.min start size in
  let n := match len with
           | None => size - from
           | Some l => Z.min (Z.max l 0) (size - from)
           end in
  take (Z.to_nat n) (drop (Z.to_nat from) s).

(** [s.split(sep)] for a one-character separator: always at least one piece. *)
Fixpoint split (sep : ascii) (s : string) : list string :=
  match s with
  | "" => [""]
  | String c s' =>
      if decide (c = sep) then "" :: split sep s'
      else match split sep s' with
           | h :: t => String c h :: t
           | [] => [String c ""]
           end
  end.

(** [s.replace(pat, repl)] with a string pattern: the first occurrence only. *)
Definition replace (s pat repl : string) : string :=
  let i := indexOf s pat in
  if i <? 0 then s
  else take (Z.to_nat i) s +:+ repl +:+ drop (Z.to_nat i + String.length pat) s.

(** [arr[i]]: [None] is [undefined], also for a negative index. *)
Definition index {A} (arr : list A) (i : Z) : option A :=
  if i <? 0 then None else arr !! Z.to_nat i.

(** A JavaScript number that holds an integer, or [NaN]. *)
Inductive number := Num (z : Z) | NaN.

#[global] Instance number_eq_dec : EqDecision number.
Proof. solve_decision. Defined.

Definition digit (radix : Z) (c : ascii) : option Z :=
  let n := Z.of_nat (nat_of_ascii c) in
  let v := if (48 <=? n) && (n <=? 57) then n - 48
           else if (97 <=? n) && (n <=? 122) then n - 87
           else if (65 <=? n) && (n <=? 90) then n - 55
           else radix in
  if v <? radix then Some v else None.

Fixpoint digits (radix : Z) (s : string) (acc : option Z) : option Z :=
  match s with
  | "" => acc
  | String c s' =>
      match digit radix c with
      | Some d => digits radix s' (Some (radix * default 0 acc + d))
      | None => acc
      end
  end.

Fixpoint trimStart (s : string) : string :=
  match s with
  | String c s' => if Ascii.is_space c then trimStart s' else s
  | "" => ""
  end.

(** [parseInt(s)] without a radix: leading white space, a sign, a [0x]
    prefix for radix 16, then the longest run of digits; [NaN] when there
    is no digit. *)
Definition parseInt (s : string) : number :=
  let s1 := trimStart s in
  let '(sign, s2) := match s1 with
                     | String "-" r => (-1, r)
                     | String "+" r => (1, r)
                     | _ => (1, s1)
                     end in
  let '(radix, s3) := match s2 with
                      | String "0" (String "x" r) => (16, r)
                      | String "0" (String "X" r) => (16, r)
                      | _ => (10, s2)
                      end in
  match digits radix s3 None with
  | Some v => Num (sign * v)
  | None => NaN
  end.

(** [parseInt(undefined)] is [NaN]. *)
Definition parseIntOpt (s : option string) : number :=
  match s with Some s => parseInt s | None => NaN end.

(** Number to string, as a template literal or [join] prints it. *)
Definition toString (n : number) : string :=
  match n with
  | Num z => NilZero.string_of_int (Z.to_int z)
  | NaN => "NaN"
  end.

(** [arr.join(sep)] *)
Fixpoint join (sep : string) (l : list string) : string :=
  match l with
  | [] => ""
  | [x] => x
  | x :: rest => x +:+ sep +:+ join sep rest
  end.

End JS.

(** ** Protocol data of the debug adapter *)

Record Breakpoint := {
  bp_verified : bool;
  bp_line : JS.number;
  bp_id : JS.number
}.

(** [new StackFrame(i, nm, new Source(basename(path), path), ln)]; the
    display name [basename(path)] of the source is left out. *)
Record StackFrame := {
  sf_id : JS.number;
  sf_name : string;
  sf_path : string;
  sf_line : JS.number
}.

Record DebugVariable := {
  var_name : string;
  var_type : string;
  var_value : string;
  var_variablesReference : Z
}.

Inductive Body :=
| InitializeBody (supportsEvaluateForHovers : bool)
| BreakpointsBody (breakpoints : list Breakpoint)
| ThreadsBody (id : Z) (name : string)
| StackTraceBody (stackFrames : list StackFrame) (totalFrames : Z)
| ScopesBody (name : string) (variablesReference : Z) (expensive : bool)
| VariablesBody (variables : list DebugVariable)
| EvaluateBody (result : string) (variablesReference : Z).

(** The response object the dispatcher creates for a request. *)
Record Response := {
  request_seq : Z;
  body : option Body
}.

Definition with_body (r : Response) (b : Body) : Response :=
  {| request_seq := request_seq r; body := Some b |}.

Record LaunchRequestArguments := {
  scriptPath : string;
  commandLineArguments : string;
  bashDbPath : string;
  showDebugOutput : option bool
}.

(** [args.source.path] and the [line] of each of [args.breakpoints]. *)
Record SetBreakpointsArguments := {
  source_path : string;
  breakpoint_lines : list Z
}.

Record StackTraceArguments := {
  startFrame : option Z;
  levels : option Z
}.

Record VariablesArguments := {
  variablesReference : Z
}.

Record EvaluateArguments := {
  expression : string
}.

Inductive Event :=
| InitializedEvent
| StoppedEvent (reason : string) (threadId : Z)
| TerminatedEvent
| OutputEvent (text category : string).

(** What the session does to the outside world, in order. *)
Inductive Output :=
| Spawn (bashDb script arguments : string)
| StdinWrite (text : string)
| SendResponse (r : Response)
| SendEvent (e : Event)
| TreeKill (signal : string).

(** continue, next, step-in and step-out: four handlers of one shape. *)
Inductive StepKind := Continue | Next | StepIn | StepOut.

(** The closures handed to [scheduleExecution], with what they capture. *)
Inductive Callback :=
| CbLaunchRequestFinalize (response : Response) (args : LaunchRequestArguments)
| CbSetBreakPointsRequest (response : Response) (args : SetBreakpointsArguments)
| CbSetBreakPointsRequestFinalize (response : Response) (args : SetBreakpointsArguments)
    (currentOutputLength : Z)
| CbStackTraceRequest (response : Response) (args : StackTraceArguments)
| CbStackTraceRequestFinalize (response : Response) (args : StackTraceArguments)
    (currentOutputLength : Z)
| CbVariablesRequest (response : Response) (args : VariablesArguments)
| CbVariablesRequestFinalize (response : Response) (args : VariablesArguments)
    (currentOutputLength : Z)
| CbStepRequest (kind : StepKind) (response : Response)
| CbStepRequestFinalize (kind : StepKind) (response : Response) (currentOutputLength : Z)
| CbEvaluateRequest (response : Response) (args : EvaluateArguments)
| CbEvaluateRequestFinalize (response : Response) (args : EvaluateArguments)
    (currentOutputLength : Z)
| CbProcessDebugTerminalOutput (sendOutput : bool).

(** ** The session object *)

Record Session := {
  currentBreakpointIds : gmap string (list JS.number);
  fullDebugOutput : list string;
  fullDebugOutputIndex : Z;
  debuggerExecutableBusy : bool;
  debuggerExecutableClosing : bool;
  (** [_debuggerProcess] is set once the child is spawned *)
  debuggerProcess : bool;
  (** the child has exited *)
  exited : bool;
  (** the ["exit"] listeners [disconnectRequest] registered, by response *)
  exitListeners : list Response;
  (** pending [setTimeout] callbacks *)
  timeouts : list Callback;
  (** running [setInterval] relays of [launchRequestFinalize] *)
  intervals : nat;
  (** open read streams on the pipe, by their [sendOutput] flag *)
  readStreams : list bool;
  (** [tree-kill] calls whose callback has not run yet *)
  killCallbacks : nat;
  (** [existsSync(this._fifoPath)] *)
  fifoExists : bool;
  output : list Output
}.

Definition THREAD_ID : Z := 42.

Definition END_MARKER : string :=
  "############################################################".

(** The object as the constructor leaves it. *)
Definition initial : Session := {|
  currentBreakpointIds := ∅;
  fullDebugOutput := [""];
  fullDebugOutputIndex := 0;
  debuggerExecutableBusy := false;
  debuggerExecutableClosing := false;
  debuggerProcess := false;
  exited := false;
  exitListeners := [];
  timeouts := [];
  intervals := 0;
  readStreams := [];
  killCallbacks := 0;
  fifoExists := false;
  output := []
|}.

Definition upd_currentBreakpointIds (f : gmap string (list JS.number) → gmap string (list JS.number))
    (s : Session) : Session :=
  let '(Build_Session a b c d e p x l t i r k o u) := s in
  Build_Session (f a) b c d e p x l t i r k o u.
Definition upd_fullDebugOutput (f : list string → list string) (s : Session) : Session :=
  let '(Build_Session a b c d e p x l t i r k o u) := s in
  Build_Session a (f b) c d e p x l t i r k o u.
Definition upd_fullDebugOutputIndex (f : Z → Z) (s : Session) : Session :=
  let '(Build_Session a b c d e p x l t i r k o u) := s in
  Build_Session a b (f c) d e p x l t i r k o u.
Definition set_debuggerExecutableBusy (v : bool) (s : Session) : Session :=
  let '(Build_Session a b c d e p x l t i r k o u) := s in
  Build_Session a b c v e p x l t i r k o u.
Definition set_debuggerExecutableClosing (v : bool) (s : Session) : Session :=
  let '(Build_Session a b c d e p x l t i r k o u) := s in
  Build_Session a b c d v p x l t i r k o u.
Definition set_debuggerProcess (v : bool) (s : Session) : Session :=
  let '(Build_Session a b c d e p x l t i r k o u) := s in
  Build_Session a b c d e v x l t i r k o u.
Definition set_exited (v : bool) (s : Session) : Session :=
  let '(Build_Session a b c d e p x l t i r k o u) := s in
  Build_Session a b c d e p v l t i r k o u.
Definition upd_exitListeners (f : list Response → list Response) (s : Session) : Session :=
  let '(Build_Session a b c d e p x l t i r k o u) := s in
  Build_Session a b c d e p x (f l) t i r k o u.
Definition upd_timeouts (f : list Callback → list Callback) (s : Session) : Session :=
  let '(Build_Session a b c d e p x l t i r k o u) := s in
  Build_Session a b c d e p x l (f t) i r k o u.
Definition upd_intervals (f : nat → nat) (s : Session) : Session :=
  let '(Build_Session a b c d e p x l t i r k o u) := s in
  Build_Session a b c d e p x l t (f i) r k o u.
Definition upd_readStreams (f : list bool → list bool) (s : Session) : Session :=
  let '(Build_Session a b c d e p x l t i r k o u) := s in
  Build_Session a b c d e p x l t i (f r) k o u.
Definition upd_killCallbacks (f : nat → nat) (s : Session) : Session :=
  let '(Build_Session a b c d e p x l t i r k o u) := s in
  Build_Session a b c d e p x l t i r (f k) o u.
Definition set_fifoExists (v : bool) (s : Session) : Session :=
  let '(Build_Session a b c d e p x l t i r k o u) := s in
  Build_Session a b c d e p x l t i r k v u.
Definition upd_output (f : list Output → list Output) (s : Session) : Session :=
  let '(Build_Session a b c d e p x l t i r k o u) := s in
  Build_Session a b c d e p x l t i r k o (f u).

(** ** Methods run on the session: a state monad; [None] is an uncaught
    [TypeError] (a member read on [undefined]), after which the handler's
    effects are not followed. *)

Definition M (A : Type) : Type := Session → option (A * Session).

#[global] Instance M_ret : MRet M := λ A x s, Some (x, s).
#[global] Instance M_bind : MBind M := λ A B f m s,
  match m s with
  | Some (x, s') => f x s'
  | None => None
  end.

Definition gets {A} (f : Session → A) : M A := λ s, Some (f s, s).
Definition modify (f : Session → Session) : M unit := λ s, Some ((), f s).
Definition throw {A} : M A := λ _, None.
Definition orThrow {A} (o : option A) : M A :=
  match o with Some x => mret x | None => throw end.

Definition emit (o : Output) : M unit := modify (upd_output (λ l, l ++ [o])).
Definition sendResponse (response : Response) : M unit := emit (SendResponse response).
Definition sendEvent (e : Event) : M unit := emit (SendEvent e).

(** [this._debuggerProcess.stdin.write(text)] *)
Definition stdinWrite (text : string) : M unit :=
  spawned ← gets debuggerProcess;
  if spawned : bool then emit (StdinWrite text) else throw.

(** [scheduleExecution], lines 470-474 *)
Definition scheduleExecution (callback : Callback) : M unit :=
  closing ← gets debuggerExecutableClosing;
  if closing : bool then mret ()
  else modify (upd_timeouts (λ t, t ++ [callback])).

(** [removePrompt], lines 434-440 *)
Definition removePrompt (line : string) : string :=
  if bool_decide (JS.indexOf line "bashdb<" = 0)
  then JS.substr line (JS.indexOf line "> " + 2) None
  else line.

(** [promptReached], lines 442-444, on the array [this._fullDebugOutput] *)
Definition promptReached (fullDebugOutput : list string) (currentOutputLength : Z) : bool :=
  bool_decide (Z.of_nat (length fullDebugOutput) > currentOutputLength)
  && bool_decide (JS.index fullDebugOutput (Z.of_nat (length fullDebugOutput) - 2)
                  = Some END_MARKER).

(** The ['data'] listener of the read stream, lines 459-462, on the array:
    [pop], stitch with [list.shift()], push the stripped pieces. *)
Definition pushData (fullDebugOutput : list string) (data : string) : list string :=
  let list := JS.split "010" data in
  let popped := default "undefined" (last fullDebugOutput) in
  let fullLine := popped +:+ default "undefined" (head list) in
  removelast fullDebugOutput ++ removePrompt fullLine :: (removePrompt <$> tail list).

Definition printMarker : string := "print '" +:+ END_MARKER +:+ "'" +:+ JS.nl.

(** [convertDebuggerLineToClient] of the adapter library: the constructor
    makes debugger lines start at 1, which is also the client's numbering
    here, so the line number passes through. *)
Definition convertDebuggerLineToClient (line : JS.number) : JS.number := line.

Definition initializeRequest (response : Response) : M unit :=
  sendResponse (with_body response (InitializeBody true)).

(** [disconnectRequest], lines 57-67 *)
Definition disconnectRequest (response : Response) : M unit :=
  modify (set_debuggerExecutableBusy false) ;;
  spawned ← gets debuggerProcess;
  if spawned : bool then
    modify (upd_exitListeners (λ l, l ++ [response])) ;;
    emit (TreeKill "SIGTERM") ;;
    modify (upd_killCallbacks S)
  else throw.

(** The ["exit"] listener registered at line 61 *)
Definition onExit (response : Response) : M unit :=
  modify (set_debuggerExecutableClosing true) ;;
  sendResponse response.

(** The callback handed to [kill] at line 66 *)
Definition onKilled : M unit := stdinWrite ("quit" +:+ JS.nl).

(** [processDebugTerminalOutput], lines 446-468, up to the listeners *)
Definition processDebugTerminalOutput (sendOutput : bool) : M unit :=
  present ← gets fifoExists;
  if present : bool then modify (upd_readStreams (λ r, r ++ [sendOutput]))
  else scheduleExecution (CbProcessDebugTerminalOutput sendOutput).

(** The ['data'] listener, lines 454-463 *)
Definition onData (sendOutput : bool) (data : string) : M unit :=
  (if sendOutput then sendEvent (OutputEvent data "console") else mret ()) ;;
  modify (upd_fullDebugOutput (λ out, pushData out data)).

(** The ['end'] listener, lines 465-467 *)
Definition onEnd (sendOutput : bool) : M unit :=
  scheduleExecution (CbProcessDebugTerminalOutput sendOutput).

(** [launchRequest], lines 69-98 *)
Definition launchRequest (response : Response) (args : LaunchRequestArguments) : M unit :=
  let bashDb := if bool_decide (bashDbPath args = "") then "bashdb" else bashDbPath args in
  emit (Spawn bashDb (scriptPath args) (commandLineArguments args)) ;;
  modify (set_debuggerProcess true) ;;
  processDebugTerminalOutput (bool_decide (showDebugOutput args = Some true)) ;;
  stdinWrite printMarker ;;
  scheduleExecution (CbLaunchRequestFinalize response args).

(** [launchRequestFinalize], lines 100-130; the relay it starts is [onInterval] *)
Definition launchRequestFinalize (response : Response) (args : LaunchRequestArguments)
    : M unit :=
  out ← gets fullDebugOutput;
  if bool_decide (END_MARKER ∈ out) then
    sendResponse response ;;
    sendEvent InitializedEvent ;;
    modify (upd_intervals S)
  else scheduleExecution (CbLaunchRequestFinalize response args).

(** The loop of the [setInterval] callback, lines 109-122; the result tells
    whether [clearInterval] was called. *)
Fixpoint relayLoop (n : nat) (cleared : bool) : M bool :=
  match n with
  | O => mret cleared
  | S n' =>
      i ← gets fullDebugOutputIndex;
      out ← gets fullDebugOutput;
      line ← orThrow (JS.index out i);
      cleared' ← (if bool_decide (JS.indexOf line "(/" = 0)
                     && bool_decide (JS.indexOf line "):" = Z.of_nat (String.length line) - 2)
                  then sendEvent (StoppedEvent "break" THREAD_ID) ;; mret cleared
                  else if bool_decide (JS.indexOf line "terminated" > 0)
                  then sendEvent TerminatedEvent ;; mret true
                  else mret cleared);
      modify (upd_fullDebugOutputIndex (λ i, i + 1)) ;;
      relayLoop n' cleared'
  end.

Definition onInterval : M unit :=
  n ← gets (λ s, Z.to_nat (Z.of_nat (length (fullDebugOutput s)) - 1 - fullDebugOutputIndex s));
  cleared ← relayLoop n false;
  if cleared : bool then modify (upd_intervals pred) else mret ().

(** The text of line 145 and of the [forEach] of line 146 *)
Definition setBreakpointsCommand (ids : list JS.number) (args : SetBreakpointsArguments)
    : string :=
  let joined := JS.join " " (JS.toString <$> ids) in
  let path := source_path args in
  foldl (λ cmd line,
           cmd +:+ "print ' <" +:+ path +:+ ":" +:+ JS.toString (JS.Num line) +:+ "> '" +:+ JS.nl
               +:+ "break " +:+ path +:+ ":" +:+ JS.toString (JS.Num line) +:+ JS.nl)
        ("print 'delete <" +:+ joined +:+ ">'" +:+ JS.nl
           +:+ "delete " +:+ joined +:+ JS.nl
           +:+ "load " +:+ path +:+ JS.nl)
        (breakpoint_lines args).

Definition currentLength : M Z := gets (λ s, Z.of_nat (length (fullDebugOutput s))).

(** [setBreakPointsRequest], lines 133-152 *)
Definition setBreakPointsRequest (response : Response) (args : SetBreakpointsArguments)
    : M unit :=
  busy ← gets debuggerExecutableBusy;
  if busy : bool then scheduleExecution (CbSetBreakPointsRequest response args)
  else
    let path := source_path args in
    modify (upd_currentBreakpointIds (λ m,
      match m !! path with Some _ => m | None => <[path := []]> m end)) ;;
    ids ← gets (λ s, default [] (currentBreakpointIds s !! path));
    modify (set_debuggerExecutableBusy true) ;;
    currentLine ← currentLength;
    stdinWrite (setBreakpointsCommand ids args +:+ printMarker) ;;
    scheduleExecution (CbSetBreakPointsRequestFinalize response args currentLine).

(** The marker test of lines 164 and 271 on the line before *)
Definition isMarkerLine (prev : string) : bool :=
  bool_decide (JS.indexOf prev " <" = 0) && bool_decide (JS.indexOf prev "> " > 0).

(** Lines 166-168: the breakpoint read off a confirmation line *)
Definition parseBreakpoint (line : string) : option Breakpoint :=
  let lineNodes := JS.split " " line in
  lastNode ← last lineNodes;
  Some {| bp_verified := true;
          bp_line := convertDebuggerLineToClient (JS.parseInt (JS.replace lastNode "." ""));
          bp_id := JS.parseIntOpt (JS.index lineNodes 1) |}.

(** The loop of lines 162-172, from [i] for [n] rounds *)
Fixpoint breakpointsLoop (path : string) (out : list string) (i : Z) (n : nat)
    (breakpoints : list Breakpoint) : M (list Breakpoint) :=
  match n with
  | O => mret breakpoints
  | S n' =>
      prev ← orThrow (JS.index out (i - 1));
      if isMarkerLine prev then
        line ← orThrow (JS.index out i);
        bp ← orThrow (parseBreakpoint line);
        ids ← gets (λ s, currentBreakpointIds s !! path);
        ids ← orThrow ids;
        modify (upd_currentBreakpointIds (λ m, <[path := ids ++ [bp_id bp]]> m)) ;;
        breakpointsLoop path out (i + 1) n' (breakpoints ++ [bp])
      else breakpointsLoop path out (i + 1) n' breakpoints
  end.

(** Rounds of [for (i = from; i < length - 2; i++)] *)
Definition rounds (out : list string) (from : Z) : nat :=
  Z.to_nat (Z.of_nat (length out) - 2 - from).

(** [setBreakPointsRequestFinalize], lines 154-181 *)
Definition setBreakPointsRequestFinalize (response : Response)
    (args : SetBreakpointsArguments) (currentOutputLength : Z) : M unit :=
  sendResponse response ;;
  out ← gets fullDebugOutput;
  if promptReached out currentOutputLength then
    let path := source_path args in
    modify (upd_currentBreakpointIds (λ m, <[path := []]> m)) ;;
    breakpoints ← breakpointsLoop path out currentOutputLength
                    (rounds out currentOutputLength) [];
    modify (set_debuggerExecutableBusy false) ;;
    sendResponse (with_body response (BreakpointsBody breakpoints))
  else scheduleExecution (CbSetBreakPointsRequestFinalize response args currentOutputLength).

Definition threadsRequest (response : Response) : M unit :=
  sendResponse (with_body response (ThreadsBody THREAD_ID "Bash thread")).

(** [stackTraceRequest], lines 189-201 *)
Definition stackTraceRequest (response : Response) (args : StackTraceArguments) : M unit :=
  busy ← gets debuggerExecutableBusy;
  if busy : bool then scheduleExecution (CbStackTraceRequest response args)
  else
    modify (set_debuggerExecutableBusy true) ;;
    currentLine ← currentLength;
    stdinWrite ("print backtrace" +:+ JS.nl +:+ "backtrace" +:+ JS.nl +:+ printMarker) ;;
    scheduleExecution (CbStackTraceRequestFinalize response args currentLine).

(** Lines 214-225: the frame read off one line of the backtrace *)
Definition parseFrame (lineContent : string) : StackFrame :=
  let tick := JS.lastIndexOf lineContent "`" in
  let quote := JS.lastIndexOf lineContent "'" in
  {| sf_id := JS.parseInt (JS.substr lineContent 2 (Some 2));
     sf_name := lineContent;
     sf_path := JS.substr lineContent (tick + 1) (Some (quote - tick - 1));
     sf_line := convertDebuggerLineToClient
                  (JS.parseInt (JS.substr lineContent (JS.lastIndexOf lineContent " ") None)) |}.

(** The loop of lines 213-226 *)
Fixpoint framesLoop (out : list string) (i : Z) (n : nat) (frames : list StackFrame)
    : M (list StackFrame) :=
  match n with
  | O => mret frames
  | S n' =>
      lineContent ← orThrow (JS.index out i);
      framesLoop out (i + 1) n' (frames ++ [parseFrame lineContent])
  end.

(** [stackTraceRequestFinalize], lines 203-237 *)
Definition stackTraceRequestFinalize (response : Response) (args : StackTraceArguments)
    (currentOutputLength : Z) : M unit :=
  out ← gets fullDebugOutput;
  if promptReached out currentOutputLength then
    frames ← framesLoop out currentOutputLength (rounds out currentOutputLength) [];
    let totalFrames := Z.of_nat (length out) - currentOutputLength - 1 in
    modify (set_debuggerExecutableBusy false) ;;
    sendResponse (with_body response (StackTraceBody frames totalFrames))
  else scheduleExecution (CbStackTraceRequestFinalize response args currentOutputLength).

Definition scopesRequest (response : Response) : M unit :=
  index ← gets fullDebugOutputIndex;
  sendResponse (with_body response (ScopesBody "Local" index false)).

(** The names listed at line 255 *)
Definition variableNames : list string :=
  ["PWD"; "?"; "0"; "1"; "2"; "3"; "4"; "5"; "6"; "7"; "8"; "9"].

(** The text of lines 254-255 *)
Definition getVariablesCommand : string :=
  foldl (λ cmd v,
           cmd +:+ "print ' <$" +:+ v +:+ "> '" +:+ JS.nl +:+ "examine $" +:+ v +:+ JS.nl)
        ("info program" +:+ JS.nl) variableNames.

(** [variablesRequest], lines 246-261 *)
Definition variablesRequest (response : Response) (args : VariablesArguments) : M unit :=
  busy ← gets debuggerExecutableBusy;
  if busy : bool then scheduleExecution (CbVariablesRequest response args)
  else
    modify (set_debuggerExecutableBusy true) ;;
    currentLine ← currentLength;
    stdinWrite (getVariablesCommand +:+ printMarker) ;;
    scheduleExecution (CbVariablesRequestFinalize response args currentLine).

(** The loop of lines 269-281 *)
Fixpoint variablesLoop (out : list string) (i : Z) (n : nat) (variables : list DebugVariable)
    : M (list DebugVariable) :=
  match n with
  | O => mret variables
  | S n' =>
      prev ← orThrow (JS.index out (i - 1));
      if isMarkerLine prev then
        line ← orThrow (JS.index out i);
        variablesLoop out (i + 1) n'
          (variables ++ [{| var_name := JS.replace (JS.replace prev " <" "") "> " "";
                            var_type := "string";
                            var_value := line;
                            var_variablesReference := 0 |}])
      else variablesLoop out (i + 1) n' variables
  end.

(** [variablesRequestFinalize], lines 263-290 *)
Definition variablesRequestFinalize (response : Response) (args : VariablesArguments)
    (currentOutputLength : Z) : M unit :=
  out ← gets fullDebugOutput;
  if promptReached out currentOutputLength then
    variables ← variablesLoop out currentOutputLength (rounds out currentOutputLength) [];
    modify (set_debuggerExecutableBusy false) ;;
    sendResponse (with_body response (VariablesBody variables))
  else scheduleExecution (CbVariablesRequestFinalize response args currentOutputLength).

(** The debugger command of each step-like request *)
Definition stepCommand (kind : StepKind) : string :=
  match kind with
  | Continue => "continue"
  | Next => "next"
  | StepIn => "step"
  | StepOut => "finish"
  end.

(** [continueRequest], [nextRequest], [stepInRequest] and [stepOutRequest],
    lines 292-308, 321-337, 350-366 and 378-394: the same text up to the
    command word. *)
Definition stepRequest (kind : StepKind) (response : Response) : M unit :=
  busy ← gets debuggerExecutableBusy;
  if busy : bool then scheduleExecution (CbStepRequest kind response)
  else
    modify (set_debuggerExecutableBusy true) ;;
    currentLine ← currentLength;
    stdinWrite ("print " +:+ stepCommand kind +:+ JS.nl
                  +:+ stepCommand kind +:+ JS.nl +:+ printMarker) ;;
    scheduleExecution (CbStepRequestFinalize kind response currentLine) ;;
    sendResponse response.

Definition continueRequest : Response → M unit := stepRequest Continue.
Definition nextRequest : Response → M unit := stepRequest Next.
Definition stepInRequest : Response → M unit := stepRequest StepIn.
Definition stepOutRequest : Response → M unit := stepRequest StepOut.

(** [continueRequestFinalize] and its three siblings, lines 310-319,
    339-348, 368-376 and 396-404 *)
Definition stepRequestFinalize (kind : StepKind) (response : Response)
    (currentOutputLength : Z) : M unit :=
  out ← gets fullDebugOutput;
  if promptReached out currentOutputLength then
    modify (set_debuggerExecutableBusy false)
  else scheduleExecution (CbStepRequestFinalize kind response currentOutputLength).

Definition continueRequestFinalize : Response → Z → M unit := stepRequestFinalize Continue.
Definition nextRequestFinalize : Response → Z → M unit := stepRequestFinalize Next.
Definition stepInRequestFinalize : Response → Z → M unit := stepRequestFinalize StepIn.
Definition stepOutRequestFinalize : Response → Z → M unit := stepRequestFinalize StepOut.

(** [evaluateRequest], lines 406-418 *)
Definition evaluateRequest (response : Response) (args : EvaluateArguments) : M unit :=
  busy ← gets debuggerExecutableBusy;
  if busy : bool then scheduleExecution (CbEvaluateRequest response args)
  else
    modify (set_debuggerExecutableBusy true) ;;
    currentLine ← currentLength;
    stdinWrite ("print 'examine <" +:+ expression args +:+ ">'" +:+ JS.nl
                  +:+ "examine " +:+ JS.replace (expression args) (String "034" "") ""
                  +:+ JS.nl +:+ printMarker) ;;
    scheduleExecution (CbEvaluateRequestFinalize response args currentLine).

(** [evaluateRequestFinalize], lines 420-432 *)
Definition evaluateRequestFinalize (response : Response) (args : EvaluateArguments)
    (currentOutputLength : Z) : M unit :=
  out ← gets fullDebugOutput;
  if promptReached out currentOutputLength then
    let value := default "undefined" (JS.index out currentOutputLength) in
    modify (set_debuggerExecutableBusy false) ;;
    sendResponse (with_body response
                    (EvaluateBody (expression args +:+ " = '" +:+ value +:+ "'") 0))
  else scheduleExecution (CbEvaluateRequestFinalize response args currentOutputLength).

(** ** The event loop *)

(** A scheduled closure, run. *)
Definition runCallback (cb : Callback) : M unit :=
  match cb with
  | CbLaunchRequestFinalize r a => launchRequestFinalize r a
  | CbSetBreakPointsRequest r a => setBreakPointsRequest r a
  | CbSetBreakPointsRequestFinalize r a n => setBreakPointsRequestFinalize r a n
  | CbStackTraceRequest r a => stackTraceRequest r a
  | CbStackTraceRequestFinalize r a n => stackTraceRequestFinalize r a n
  | CbVariablesRequest r a => variablesRequest r a
  | CbVariablesRequestFinalize r a n => variablesRequestFinalize r a n
  | CbStepRequest k r => stepRequest k r
  | CbStepRequestFinalize k r n => stepRequestFinalize k r n
  | CbEvaluateRequest r a => evaluateRequest r a
  | CbEvaluateRequestFinalize r a n => evaluateRequestFinalize r a n
  | CbProcessDebugTerminalOutput b => processDebugTerminalOutput b
  end.

Inductive Request :=
| RqInitialize
| RqDisconnect
| RqLaunch (args : LaunchRequestArguments)
| RqSetBreakPoints (args : SetBreakpointsArguments)
| RqThreads
| RqStackTrace (args : StackTraceArguments)
| RqScopes
| RqVariables (args : VariablesArguments)
| RqStep (kind : StepKind)
| RqEvaluate (args : EvaluateArguments).

(** The dispatcher: a fresh response object for the request, then the handler. *)
Definition dispatchRequest (seq : Z) (rq : Request) : M unit :=
  let response := {| request_seq := seq; body := None |} in
  match rq with
  | RqInitialize => initializeRequest response
  | RqDisconnect => disconnectRequest response
  | RqLaunch a => launchRequest response a
  | RqSetBreakPoints a => setBreakPointsRequest response a
  | RqThreads => threadsRequest response
  | RqStackTrace a => stackTraceRequest response a
  | RqScopes => scopesRequest response
  | RqVariables a => variablesRequest response a
  | RqStep k => stepRequest k response
  | RqEvaluate a => evaluateRequest response a
  end.

(** What the event loop can run next. *)
Inductive Label :=
| Incoming (seq : Z) (rq : Request)     (* a protocol request arrives *)
| TimerFire (i : nat)                   (* the i-th pending timeout fires *)
| IntervalTick                          (* a relay interval fires *)
| StreamData (i : nat) (data : string)  (* a chunk on the i-th read stream *)
| StreamEnd (i : nat)                   (* the i-th read stream ends *)
| FifoChange (present : bool)           (* the pipe appears or goes *)
| StdoutData (data : string)
| StderrData (data : string)
| ProcessExit                           (* the child's exit event *)
| KillDone.                             (* tree-kill calls back *)

Fixpoint forEach {A} (f : A → M unit) (l : list A) : M unit :=
  match l with
  | [] => mret ()
  | x :: l' => f x ;; forEach f l'
  end.

(** One turn of the event loop. [None]: the label cannot happen in this
    state (no such timer or stream, a second spawn or exit), or the code it
    runs throws. *)
Definition step (l : Label) : M unit :=
  match l with
  | Incoming seq rq =>
      spawned ← gets debuggerProcess;
      match rq with
      | RqLaunch _ => if spawned : bool then throw else dispatchRequest seq rq
      | _ => dispatchRequest seq rq
      end
  | TimerFire i =>
      pending ← gets timeouts;
      cb ← orThrow (pending !! i);
      modify (upd_timeouts (delete i)) ;;
      runCallback cb
  | IntervalTick =>
      n ← gets intervals;
      if bool_decide (n = 0%nat) then throw else onInterval
  | StreamData i data =>
      streams ← gets readStreams;
      sendOutput ← orThrow (streams !! i);
      onData sendOutput data
  | StreamEnd i =>
      streams ← gets readStreams;
      sendOutput ← orThrow (streams !! i);
      modify (upd_readStreams (delete i)) ;;
      onEnd sendOutput
  | FifoChange present => modify (set_fifoExists present)
  | StdoutData data =>
      spawned ← gets debuggerProcess;
      if spawned : bool then sendEvent (OutputEvent data "console") else throw
  | StderrData data =>
      spawned ← gets debuggerProcess;
      if spawned : bool then sendEvent (OutputEvent data "stderr") else throw
  | ProcessExit =>
      spawned ← gets debuggerProcess;
      gone ← gets exited;
      if spawned && negb gone then
        modify (set_exited true) ;;
        listeners ← gets exitListeners;
        forEach onExit listeners
      else throw
  | KillDone =>
      n ← gets killCallbacks;
      if bool_decide (n = 0%nat) then throw
      else modify (upd_killCallbacks pred) ;; onKilled
  end.

Fixpoint run (ls : list Label) : M unit :=
  match ls with
  | [] => mret ()
  | l :: ls' => step l ;; run ls'
  end.

(** ** Declarative vocabulary of the statements *)

(** [pat] occurs in [s] at index [i]. *)
Definition occursAt (pat s : string) (i : nat) : Prop :=
  ∃ a b, s = a +:+ pat +:+ b ∧ String.length a = i.

(** [pat] does not occur in [s]. *)
Definition absent (pat s : string) : Prop := ∀ i, ¬ occursAt pat s i.

(** [s] begins with [p]. *)
Definition beginsWith (p s : string) : Prop := ∃ t, s = p +:+ t.

(** The stream as one string: the chunks in order. *)
Definition concatChunks (chunks : list string) : string :=
  foldr String.append "" chunks.

(** The breakpoint confirmed at index [i] of the buffer: the line there,
    when the line before it is a marker line. *)
Definition confirmationAt (out : list string) (i : Z) : option Breakpoint :=
  prev ← JS.index out (i - 1);
  if isMarkerLine prev then JS.index out i ≫= parseBreakpoint else None.

(** The confirmations of a request with high-water mark [h]: those at the
    indices from [h] up to, not including, the sentinel line. *)
Definition confirmedBreakpoints (out : list string) (h : Z) : list Breakpoint :=
  omap (confirmationAt out) (seqZ h (Z.of_nat (length out) - 2 - h)).

Definition confirmedIds (out : list string) (h : Z) : list JS.number :=
  bp_id <$> confirmedBreakpoints out h.

(** A closure that offers a request to the gate again. *)
Definition isRetry (cb : Callback) : bool :=
  match cb with
  | CbSetBreakPointsRequest _ _ | CbStackTraceRequest _ _ | CbVariablesRequest _ _
  | CbStepRequest _ _ | CbEvaluateRequest _ _ => true
  | _ => false
  end.

(** The high-water mark a completion poller carries. *)
Definition pollerMark (cb : Callback) : option Z :=
  match cb with
  | CbSetBreakPointsRequestFinalize _ _ h | CbStackTraceRequestFinalize _ _ h
  | CbVariablesRequestFinalize _ _ h | CbStepRequestFinalize _ _ h
  | CbEvaluateRequestFinalize _ _ h => Some h
  | _ => None
  end.

Definition isPoller (cb : Callback) : bool := bool_decide (is_Some (pollerMark cb)).

(** The poller a request schedules when the gate admits it at mark [h]. *)
Definition pollerOf (cb : Callback) (h : Z) : option Callback :=
  match cb with
  | CbSetBreakPointsRequest r a => Some (CbSetBreakPointsRequestFinalize r a h)
  | CbStackTraceRequest r a => Some (CbStackTraceRequestFinalize r a h)
  | CbVariablesRequest r a => Some (CbVariablesRequestFinalize r a h)
  | CbStepRequest k r => Some (CbStepRequestFinalize k r h)
  | CbEvaluateRequest r a => Some (CbEvaluateRequestFinalize r a h)
  | _ => None
  end.

(** The requests that go through the busy gate. *)
Definition isGated (rq : Request) : bool :=
  match rq with
  | RqSetBreakPoints _ | RqStackTrace _ | RqVariables _ | RqStep _ | RqEvaluate _ => true
  | _ => false
  end.

(** The turn offers a command to the gate: a gated request arrives, or the
    timer of its retry fires. *)
Definition offersCommand (l : Label) (s : Session) : bool :=
  match l with
  | Incoming _ rq => isGated rq
  | TimerFire i => from_option isRetry false (timeouts s !! i)
  | _ => false
  end.

(** The turn is the poller of mark [h] finding its command complete. *)
Definition detectsCompletion (l : Label) (s : Session) (h : Z) : Prop :=
  ∃ i cb, l = TimerFire i ∧ timeouts s !! i = Some cb ∧ pollerMark cb = Some h
          ∧ promptReached (fullDebugOutput s) h = true.

Definition isDisconnect (l : Label) : bool :=
  match l with Incoming _ RqDisconnect => true | _ => false end.

Definition isTimerFire (l : Label) : bool :=
  match l with TimerFire _ => true | _ => false end.

Definition isWrite (o : Output) : bool :=
  match o with StdinWrite _ => true | _ => false end.

(** What a turn from [s] to [s'] added to the output. *)
Definition newOutput (s s' : Session) : list Output :=
  drop (length (output s)) (output s').

(** The turn wrote to the child's input. *)
Definition wrote (s s' : Session) : Prop := ∃ text, StdinWrite text ∈ newOutput s s'.

(** The commands in flight: the completion pollers among the pending timers. *)
Definition pendingCommands (s : Session) : list Callback :=
  filter (λ cb, isPoller cb = true) (timeouts s).

(** The timers after [scheduleExecution] of each of [cbs]. *)
Definition scheduled (s : Session) (cbs : list Callback) : list Callback :=
  if debuggerExecutableClosing s then timeouts s else timeouts s ++ cbs.

Definition isResponseTo (seq : Z) (o : Output) : bool :=
  match o with SendResponse r => bool_decide (request_seq r = seq) | _ => false end.

(** How often a response to request [seq] was sent. *)
Definition responsesTo (seq : Z) (tr : list Output) : nat :=
  length (filter (λ o, isResponseTo seq o = true) tr).

(** Names under which bash holds a process id. *)
Definition pidNames : list string := ["$"; "BASHPID"; "PPID"; "!"].

(** [turn s s' busy' added emitted]: from [s] to [s'] the busy flag became
    [busy'], [added] went through [scheduleExecution], [emitted] was
    appended to the output; the closing flag and the exit listeners are as
    before. *)
Definition turn (s s' : Session) (busy' : bool) (added : list Callback)
    (emitted : list Output) : Prop :=
  debuggerExecutableBusy s' = busy'
  ∧ timeouts s' = scheduled s added
  ∧ output s' = output s ++ emitted
  ∧ debuggerExecutableClosing s' = debuggerExecutableClosing s
  ∧ exitListeners s' = exitListeners s.

(** The turns that neither run a timer nor offer a command nor disconnect
    nor end the child. *)
Definition isPlain (l : Label) : bool :=
  match l with
  | TimerFire _ | ProcessExit => false
  | Incoming _ rq => negb (isGated rq) && negb (isDisconnect l)
  | _ => true
  end.

(** The closure with which a gated request would be offered again. *)
Definition retryOf (seq : Z) (rq : Request) : option Callback :=
  let response := {| request_seq := seq; body := None |} in
  match rq with
  | RqSetBreakPoints a => Some (CbSetBreakPointsRequest response a)
  | RqStackTrace a => Some (CbStackTraceRequest response a)
  | RqVariables a => Some (CbVariablesRequest response a)
  | RqStep k => Some (CbStepRequest k response)
  | RqEvaluate a => Some (CbEvaluateRequest response a)
  | _ => None
  end.

(** The invariant of the gate while no disconnect was requested: the
    session is not closing, no exit listener is registered, and the busy
    flag is set exactly when one poller is pending; never two. *)
Definition gate_inv (s : Session) : Prop :=
  debuggerExecutableClosing s = false
  ∧ exitListeners s = []
  ∧ match pendingCommands s with
    | [] => debuggerExecutableBusy s = false
    | [_] => debuggerExecutableBusy s = true
    | _ => False
    end.

(** The state a run ends in (the start state if it does not go through). *)
Definition exec (ls : list Label) (s : Session) : Session :=
  match run ls s with
  | Some (_, s') => s'
  | None => s
  end.

(** ** Sample sessions *)

Definition sampleLaunch : LaunchRequestArguments :=
  {| scriptPath := "/s.sh"; commandLineArguments := ""; bashDbPath := "";
     showDebugOutput := None |}.


(** Launch, then [continue] is admitted. *)
Definition sampleSubmitted : list Label :=
  [Incoming 1 (RqLaunch sampleLaunch); Incoming 2 (RqStep Continue)].


(** Launch, [continue], [next] held back, then disconnect and the child's exit. *)
Definition sampleExited : list Label :=
  [Incoming 1 (RqLaunch sampleLaunch); Incoming 2 (RqStep Continue);
   Incoming 3 (RqStep Next); Incoming 4 RqDisconnect; ProcessExit].

(** The debugger's answer to the launch sentinel. *)
Definition sampleReady : string := "bashdb<0> " +:+ END_MARKER +:+ JS.nl +:+ "bashdb<1> ".

Definition sampleBreakpoints : SetBreakpointsArguments :=
  {| source_path := "/s.sh"; breakpoint_lines := [5; 10] |}.

(** The debugger's answer to the set-breakpoints command of [sampleBreakpoints]. *)
Definition sampleConfirmations : string :=
  "delete <>" +:+ JS.nl
    +:+ "bashdb<2> bashdb<3> File /s.sh loaded." +:+ JS.nl
    +:+ "bashdb<4>  </s.sh:5> " +:+ JS.nl
    +:+ "bashdb<5> Breakpoint 1 set in file /s.sh, line 5." +:+ JS.nl
    +:+ "bashdb<6>  </s.sh:10> " +:+ JS.nl
    +:+ "bashdb<7> Breakpoint 2 set in file /s.sh, line 10." +:+ JS.nl
    +:+ "bashdb<8> " +:+ END_MARKER +:+ JS.nl +:+ "bashdb<9> ".

(** Launch until initialized, then set-breakpoints is admitted. *)
Definition sampleBreakpointsSubmitted : list Label :=
  [Incoming 1 (RqLaunch sampleLaunch); FifoChange true; TimerFire 0;
   StreamData 0 sampleReady; TimerFire 0; Incoming 2 (RqSetBreakPoints sampleBreakpoints)].

(** The marker/value pair that queries the variable [v]. *)
Definition variableQuery (v : string) : string :=
  "print ' <$" +:+ v +:+ "> '" +:+ JS.nl +:+ "examine $" +:+ v +:+ JS.nl.

(** The launch sentinel arrives without its newline, the launch completes on
    it, and [continue] is admitted with the sentinel as the last line; then
    the newline and the echo of the command arrive. *)
Definition sampleStale : list Label :=
  [Incoming 1 (RqLaunch sampleLaunch); FifoChange true; TimerFire 0;
   StreamData 0 ("bashdb<0> " +:+ END_MARKER); TimerFire 0;
   Incoming 2 (RqStep Continue);
   StreamData 0 (JS.nl +:+ "bashdb<1> continue")].

(** The marks of the pending pollers are lengths the buffer once had: at
    least 1, at most its length now. *)
Definition marks_inv (s : Session) : Prop :=
  fullDebugOutput s ≠ []
  ∧ Forall (λ cb, ∀ h, pollerMark cb = Some h →
                       1 ≤ h ≤ Z.of_nat (length (fullDebugOutput s)))
      (timeouts s).

(** First set-breakpoints round complete, then a second request for the
    same file, answered with fresh ids. *)
Definition sampleSecondRound : list Label :=
  sampleBreakpointsSubmitted
    ++ [StreamData 0 sampleConfirmations; TimerFire 0;
        Incoming 3 (RqSetBreakPoints {| source_path := "/s.sh"; breakpoint_lines := [10; 12] |});
        StreamData 0
          ("delete <1 2>" +:+ JS.nl
             +:+ "bashdb<10> bashdb<11> File /s.sh loaded." +:+ JS.nl
             +:+ "bashdb<12>  </s.sh:10> " +:+ JS.nl
             +:+ "bashdb<13> Breakpoint 3 set in file /s.sh, line 10." +:+ JS.nl
             +:+ "bashdb<14>  </s.sh:12> " +:+ JS.nl
             +:+ "bashdb<15> Breakpoint 4 set in file /s.sh, line 12." +:+ JS.nl
             +:+ "bashdb<16> " +:+ END_MARKER +:+ JS.nl +:+ "bashdb<17> ")].

(** ** Vocabulary of the further properties *)

(** The event the relay sends for one line, lines 113-121. *)
Definition relayEvent (line : string) : option Event :=
  if bool_decide (JS.indexOf line "(/" = 0)
     && bool_decide (JS.indexOf line "):" = Z.of_nat (String.length line) - 2)
  then Some (StoppedEvent "break" THREAD_ID)
  else if bool_decide (JS.indexOf line "terminated" > 0) then Some TerminatedEvent
  else None.

(** The event on which the relay clears its interval. *)
Definition isTerminated (e : Event) : bool :=
  match e with TerminatedEvent => true | _ => false end.

(** The complete lines the relay has not read yet. *)
Definition unread (s : Session) : list string :=
  take (Z.to_nat (Z.of_nat (length (fullDebugOutput s)) - 1 - fullDebugOutputIndex s))
       (drop (Z.to_nat (fullDebugOutputIndex s)) (fullDebugOutput s)).

(** The relay cursor is an index of the buffer. *)
Definition cursor_inv (s : Session) : Prop :=
  0 ≤ fullDebugOutputIndex s ≤ Z.of_nat (length (fullDebugOutput s)) - 1.

(** How many elements of [l] satisfy [f]. *)
Definition countb {A} (f : A → bool) (l : list A) : nat := length (List.filter f l).

(** A pending attempt to open the pipe. *)
Definition isReaderCallback (cb : Callback) : bool :=
  match cb with CbProcessDebugTerminalOutput _ => true | _ => false end.

(** A launch still polling for the first sentinel. *)
Definition isLaunchFinalizer (cb : Callback) : bool :=
  match cb with CbLaunchRequestFinalize _ _ => true | _ => false end.

(** The event that answers a launch. *)
Definition isInitialized (o : Output) : bool :=
  match o with SendEvent InitializedEvent => true | _ => false end.

(** A launch request arrives. *)
Definition isLaunch (l : Label) : bool :=
  match l with Incoming _ (RqLaunch _) => true | _ => false end.

(** Open read streams and pending attempts to open one. *)
Definition readers (s : Session) : nat :=
  (length (readStreams s) + countb isReaderCallback (timeouts s))%nat.

(** Pending launch finalizers and launches already answered. *)
Definition launchesAccounted (s : Session) : nat :=
  (countb isLaunchFinalizer (timeouts s) + countb isInitialized (output s))%nat.

(** What the relay can send. *)
Definition isRelayed (o : Output) : Prop :=
  o = SendEvent (StoppedEvent "break" THREAD_ID) ∨ o = SendEvent TerminatedEvent.

(** The response object a closure captured. *)
Definition cbResponse (cb : Callback) : option Response :=
  match cb with
  | CbLaunchRequestFinalize r _ | CbSetBreakPointsRequest r _
  | CbSetBreakPointsRequestFinalize r _ _ | CbStackTraceRequest r _
  | CbStackTraceRequestFinalize r _ _ | CbVariablesRequest r _
  | CbVariablesRequestFinalize r _ _ | CbStepRequest _ r | CbStepRequestFinalize _ r _
  | CbEvaluateRequest r _ | CbEvaluateRequestFinalize r _ _ => Some r
  | CbProcessDebugTerminalOutput _ => None
  end.

(** The response has its body set. *)
Definition hasBody (r : Response) : bool :=
  match body r with Some _ => true | None => false end.

(** The requests whose response carries a body. *)
Definition expectsBody (rq : Request) : bool :=
  match rq with
  | RqInitialize | RqSetBreakPoints _ | RqThreads | RqStackTrace _ | RqScopes
  | RqVariables _ | RqEvaluate _ => true
  | _ => false
  end.

(** A closure that still owes the body of request [seq]. *)
Definition owesBody (seq : Z) (cb : Callback) : bool :=
  match cb with
  | CbSetBreakPointsRequest r _ | CbSetBreakPointsRequestFinalize r _ _
  | CbStackTraceRequest r _ | CbStackTraceRequestFinalize r _ _
  | CbVariablesRequest r _ | CbVariablesRequestFinalize r _ _
  | CbEvaluateRequest r _ | CbEvaluateRequestFinalize r _ _ =>
      bool_decide (request_seq r = seq)
  | _ => false
  end.

(** Request [seq] arrives and expects a body. *)
Definition asksBody (seq : Z) (l : Label) : bool :=
  match l with
  | Incoming q rq => bool_decide (q = seq) && expectsBody rq
  | _ => false
  end.

(** A response to request [seq] that carries a body. *)
Definition isBodyFor (seq : Z) (o : Output) : bool :=
  match o with
  | SendResponse r => bool_decide (request_seq r = seq) && hasBody r
  | _ => false
  end.

(** A closure whose captured response already has a body. *)
Definition holdsBody (cb : Callback) : bool :=
  from_option hasBody false (cbResponse cb).

(** The responses of the disconnect requests of a run, in order. *)
Definition requestedDisconnects (ls : list Label) : list Response :=
  omap (λ l, match l with
             | Incoming seq RqDisconnect => Some {| request_seq := seq; body := None |}
             | _ => None
             end) ls.

(** The child exits. *)
Definition isExit (l : Label) : bool :=
  match l with ProcessExit => true | _ => false end.

(** A closure that captured the response of request [seq]. *)
Definition carries (seq : Z) (cb : Callback) : bool :=
  from_option (λ r, bool_decide (request_seq r = seq)) false (cbResponse cb).

(** Request [seq] arrives and is not a disconnect. *)
Definition usesResponse (seq : Z) (l : Label) : bool :=
  match l with
  | Incoming q rq => bool_decide (q = seq) && negb (isDisconnect l)
  | _ => false
  end.

(** The lines of the answer to the command submitted at mark [h]: from
    index [h] up to, not including, the sentinel line. *)
Definition answerLines (out : list string) (h : Z) : list string :=
  take (rounds out h) (drop (Z.to_nat h) out).

(** The variable of lines 274-279 for the marker line [prev] and the line
    after it. *)
Definition variableOf (prev line : string) : DebugVariable :=
  {| var_name := JS.replace (JS.replace prev " <" "") "> " "";
     var_type := "string";
     var_value := line;
     var_variablesReference := 0 |}.

(** The variables read off consecutive lines: each line that follows a
    marker line is the value of the marker's variable. *)
Fixpoint scanVariables (prev : string) (lines : list string) : list DebugVariable :=
  match lines with
  | [] => []
  | line :: rest =>
      (if isMarkerLine prev then [variableOf prev line] else [])
        ++ scanVariables line rest
  end.

(** The line the debugger echoes for the marker of variable [v]. *)
Definition variableMarker (v : string) : string := " <$" +:+ v +:+ "> ".

(** The variable expected for the name and the value of [p]. *)
Definition queried (p : string * string) : DebugVariable :=
  {| var_name := "$" +:+ p.1; var_type := "string"; var_value := p.2;
     var_variablesReference := 0 |}.

(** The marker and the [break] command for one requested line, line 146. *)
Definition breakCommand (path : string) (line : Z) : string :=
  "print ' <" +:+ path +:+ ":" +:+ JS.toString (JS.Num line) +:+ "> '" +:+ JS.nl
    +:+ "break " +:+ path +:+ ":" +:+ JS.toString (JS.Num line) +:+ JS.nl.


(** ** Further sample sessions *)

(** Launch until initialized, request [rq] admitted, then [answer] arrives. *)
Definition sampleRound (rq : Request) (answer : string) : list Label :=
  [Incoming 1 (RqLaunch sampleLaunch); FifoChange true; TimerFire 0;
   StreamData 0 sampleReady; TimerFire 0; Incoming 2 rq; StreamData 0 answer].

(** The debugger's answer to the stack-trace command: two frames. *)
Definition sampleBacktrace : string :=
  "backtrace" +:+ JS.nl
    +:+ "bashdb<2> ->0 in file `/s.sh' at line 5" +:+ JS.nl
    +:+ "##1 main() called from file `/s.sh' at line 0" +:+ JS.nl
    +:+ "bashdb<3> " +:+ END_MARKER +:+ JS.nl +:+ "bashdb<4> ".

Definition sampleStackRun : list Label :=
  sampleRound (RqStackTrace {| startFrame := None; levels := None |}) sampleBacktrace.

(** The debugger's answer to a variables command that queried two names. *)
Definition sampleValues : string :=
  "Program stopped." +:+ JS.nl
    +:+ "bashdb<2>  <$PWD> " +:+ JS.nl
    +:+ "bashdb<3> /home" +:+ JS.nl
    +:+ "bashdb<4>  <$?> " +:+ JS.nl
    +:+ "bashdb<5> 0" +:+ JS.nl
    +:+ "bashdb<6> " +:+ END_MARKER +:+ JS.nl +:+ "bashdb<7> ".

Definition sampleVariablesRun : list Label :=
  sampleRound (RqVariables {| variablesReference := 1 |}) sampleValues.

(** The debugger's answer to the evaluation of [$x]. *)
Definition sampleEvaluation : string :=
  "examine <$x>" +:+ JS.nl
    +:+ "bashdb<2> 7" +:+ JS.nl
    +:+ "bashdb<3> " +:+ END_MARKER +:+ JS.nl +:+ "bashdb<4> ".

Definition sampleEvaluateRun : list Label :=
  sampleRound (RqEvaluate {| expression := "$x" |}) sampleEvaluation.

(** Launch, [continue] admitted, [next] held back, then a disconnect. *)
Definition sampleDisconnected : list Label :=
  [Incoming 1 (RqLaunch sampleLaunch); Incoming 2 (RqStep Continue);
   Incoming 3 (RqStep Next); Incoming 4 RqDisconnect].


(** ** Vocabulary of the amended claims *)










(** [stored] is what the buffer may hold for the stream line [line]: the
    line less some characters at its head, and the line itself when it
    does not begin with the prompt prefix. *)
Definition storedFor (stored line : string) : Prop :=
  (∃ k, stored = JS.drop k line)
  ∧ (¬ beginsWith "bashdb<" line → stored = line).









(** * Facts about the string primitives *)

Section StringFacts.

Lemma str_app_nil_l (t : string) : "" +:+ t = t.
Proof. reflexivity. Qed.

Lemma str_app_cons (c : ascii) (s t : string) :
  String c s +:+ t = String c (s +:+ t).
Proof. reflexivity. Qed.

Lemma str_app_nil_r (s : string) : s +:+ "" = s.
Proof. induction s as [|c s IH]; [done|]. by rewrite str_app_cons, IH. Qed.

Lemma str_app_assoc (s t u : string) : (s +:+ t) +:+ u = s +:+ t +:+ u.
Proof. induction s as [|c s IH]; [done|]. by rewrite !str_app_cons, IH. Qed.

Lemma str_length_app (s t : string) :
  String.length (s +:+ t) = (String.length s + String.length t)%nat.
Proof.
  induction s as [|c s IH]; [done|]. rewrite str_app_cons. simpl. by rewrite IH.
Qed.

Lemma startsWith_app (p t : string) : JS.startsWith p (p +:+ t) = true.
Proof.
  induction p as [|c p IH]; [done|].
  rewrite str_app_cons. simpl. by rewrite decide_True.
Qed.

Lemma startsWith_beginsWith (p s : string) :
  JS.startsWith p s = true ↔ beginsWith p s.
Proof.
  split.
  - revert s. induction p as [|c p IH]; intros s H.
    + by exists s.
    + destruct s as [|d s]; [done|]. simpl in H.
      destruct (decide (c = d)) as [->|]; [|done].
      destruct (IH _ H) as [t ->]. by exists t.
  - intros [t ->]. apply startsWith_app.
Qed.

Lemma occursAt_0 (pat s : string) : occursAt pat s 0 ↔ JS.startsWith pat s = true.
Proof.
  rewrite startsWith_beginsWith. split.
  - intros (a & b & -> & Ha). destruct a; [|done]. by exists b.
  - intros [t ->]. by exists "", t.
Qed.

Lemma occursAt_S (pat : string) (c : ascii) (s : string) (i : nat) :
  occursAt pat (String c s) (S i) ↔ occursAt pat s i.
Proof.
  split.
  - intros (a & b & E & Ha). destruct a as [|d a]; [done|].
    rewrite str_app_cons in E. injection E as -> ->. injection Ha as Ha.
    by exists a, b.
  - intros (a & b & -> & Ha). exists (String c a), b.
    rewrite str_app_cons. simpl. by rewrite Ha.
Qed.

Lemma occursAt_nil_S (pat : string) (i : nat) : ¬ occursAt pat "" (S i).
Proof. intros (a & b & E & Ha). by destruct a. Qed.

Lemma indexOf_from_shift (pat s : string) (i : Z) :
  JS.indexOf_from pat s i
  = if JS.indexOf_from pat s 0 <? 0 then -1 else JS.indexOf_from pat s 0 + i.
Proof.
  revert i. induction s as [|c s IH]; intros i; simpl.
  - destruct (JS.startsWith pat ""); simpl; [lia|done].
  - destruct (JS.startsWith pat (String c s)); simpl; [lia|].
    rewrite (IH (i + 1)), (IH (0 + 1)).
    destruct (JS.indexOf_from pat s 0 <? 0) eqn:E; [done|].
    apply Z.ltb_ge in E.
    destruct (JS.indexOf_from pat s 0 + (0 + 1) <? 0) eqn:E'; [lia|]. lia.
Qed.

Lemma indexOf_from_lower (pat s : string) :
  -1 ≤ JS.indexOf_from pat s 0.
Proof.
  induction s as [|c s IH]; simpl.
  - destruct (JS.startsWith pat ""); lia.
  - destruct (JS.startsWith pat (String c s)); [lia|].
    rewrite indexOf_from_shift. destruct (_ <? 0) eqn:E; [lia|].
    apply Z.ltb_ge in E. lia.
Qed.

(** [indexOf] finds the first occurrence ... *)
Lemma indexOf_first (pat s : string) (k : nat) :
  occursAt pat s k → (∀ j, (j < k)%nat → ¬ occursAt pat s j) →
  JS.indexOf s pat = Z.of_nat k.
Proof.
  unfold JS.indexOf. revert s. induction k as [|k IH]; intros s Hk Hmin.
  - apply occursAt_0 in Hk. destruct s; simpl; by rewrite Hk.
  - destruct s as [|c s]; [by apply occursAt_nil_S in Hk|].
    apply occursAt_S in Hk. simpl.
    destruct (JS.startsWith pat (String c s)) eqn:E.
    { apply occursAt_0 in E. destruct (Hmin 0%nat); [lia|done]. }
    rewrite indexOf_from_shift, IH; [|done|].
    + destruct (Z.of_nat k <? 0) eqn:E'; lia.
    + intros j Hj Hocc. apply (Hmin (S j)); [lia|]. by apply occursAt_S.
Qed.

(** ... and answers [-1] exactly when there is none. *)
Lemma indexOf_absent (pat s : string) : absent pat s → JS.indexOf s pat = -1.
Proof.
  unfold JS.indexOf, absent. induction s as [|c s IH]; intros Habs; simpl.
  - destruct (JS.startsWith pat "") eqn:E; [|done].
    apply occursAt_0 in E. by destruct (Habs 0%nat).
  - destruct (JS.startsWith pat (String c s)) eqn:E.
    { apply occursAt_0 in E. by destruct (Habs 0%nat). }
    rewrite indexOf_from_shift, IH; [done|].
    intros i Hi. apply (Habs (S i)). by apply occursAt_S.
Qed.

Lemma indexOf_0 (pat s : string) : JS.indexOf s pat = 0 ↔ beginsWith pat s.
Proof.
  rewrite <- startsWith_beginsWith. unfold JS.indexOf.
  destruct s as [|c s]; simpl.
  - destruct (JS.startsWith pat ""); [done|]. split; [lia|done].
  - destruct (JS.startsWith pat (String c s)); [done|].
    split; [|done]. rewrite indexOf_from_shift.
    pose proof (indexOf_from_lower pat s).
    destruct (_ <? 0) eqn:E; [lia|]. apply Z.ltb_ge in E. lia.
Qed.

Lemma str_drop_app (a b : string) : JS.drop (String.length a) (a +:+ b) = b.
Proof. induction a as [|c a IH]; [by destruct b|]. by rewrite str_app_cons. Qed.

Lemma str_length_drop (n : nat) (s : string) :
  String.length (JS.drop n s) = (String.length s - n)%nat.
Proof.
  revert s. induction n as [|n IH]; intros [|c s]; simpl; done.
Qed.

Lemma str_take_all (n : nat) (s : string) :
  (String.length s ≤ n)%nat → JS.take n s = s.
Proof.
  revert s. induction n as [|n IH]; intros [|c s] H; simpl in *; try done; try lia.
  rewrite IH; [done|lia].
Qed.

(** The one-argument [substr] from a non-negative index drops a prefix. *)
Lemma substr_from (s : string) (start : Z) :
  0 ≤ start → JS.substr s start None = JS.drop (Z.to_nat start) s.
Proof.
  intros H. unfold JS.substr.
  destruct (start <? 0) eqn:E; [apply Z.ltb_lt in E; lia|].
  destruct (decide (start ≤ Z.of_nat (String.length s))) as [Hle|Hgt].
  - rewrite Z.min_l by done. apply str_take_all. rewrite str_length_drop. lia.
  - rewrite Z.min_r by lia. rewrite Nat2Z.id.
    rewrite str_take_all by (rewrite str_length_drop; lia).
    assert (Hd : ∀ n m t, (String.length t ≤ n)%nat → (String.length t ≤ m)%nat →
                          JS.drop n t = JS.drop m t).
    { induction n as [|n IHn]; intros [|m] [|c t] ? ?; simpl in *; try done; try lia.
      apply IHn; lia. }
    apply Hd; lia.
Qed.

Lemma split_nonempty (sep : ascii) (s : string) : JS.split sep s ≠ [].
Proof.
  induction s as [|c s IH]; simpl; [done|].
  destruct (decide (c = sep)); [done|]. by destruct (JS.split sep s).
Qed.

End StringFacts.


(** * The line buffer: prompt stripping, completion detection, reassembly *)

Section LineBuffer.

Lemma occursAt_drop (pat s : string) (i : nat) :
  occursAt pat s i ↔ JS.startsWith pat (JS.drop i s) = true ∧ (i ≤ String.length s)%nat.
Proof.
  revert s. induction i as [|i IH]; intros s.
  - rewrite occursAt_0. simpl. split; [intros ?; split; [done|lia]|by intros [? _]].
  - destruct s as [|c s].
    + split; [intros H; by apply occursAt_nil_S in H|]. simpl. lia.
    + rewrite occursAt_S, IH. simpl. split; intros [? ?]; split; try done; lia.
Qed.

Lemma indexOf_absent_iff (pat s : string) : JS.indexOf s pat = -1 ↔ absent pat s.
Proof.
  split; [|apply indexOf_absent].
  unfold JS.indexOf, absent. induction s as [|c s IH]; simpl.
  - destruct (JS.startsWith pat "") eqn:E; [done|]. intros _ [|i] H.
    + apply occursAt_0 in H. congruence.
    + by apply occursAt_nil_S in H.
  - destruct (JS.startsWith pat (String c s)) eqn:E; [done|].
    rewrite indexOf_from_shift. pose proof (indexOf_from_lower pat s) as Hl.
    destruct (_ <? 0) eqn:E'; [|lia]. apply Z.ltb_lt in E'.
    intros _ [|i] H.
    + apply occursAt_0 in H. congruence.
    + apply occursAt_S in H. revert H. apply IH. lia.
Qed.

Lemma removePrompt_prompt (line : string) :
  beginsWith "bashdb<" line →
  removePrompt line = JS.substr line (JS.indexOf line "> " + 2) None.
Proof.
  intros H. unfold removePrompt. apply indexOf_0 in H. by rewrite bool_decide_eq_true_2.
Qed.

Lemma removePrompt_other (line : string) :
  ¬ beginsWith "bashdb<" line → removePrompt line = line.
Proof.
  intros H. unfold removePrompt. rewrite bool_decide_eq_false_2; [done|].
  by rewrite indexOf_0.
Qed.

(** What the ['data'] listener stores: the buffer without its last line,
    then the stripped stitched line, then the stripped further pieces. *)
Lemma pushData_stored (out : list string) (data : string) :
  ∃ first rest,
    JS.split "010" data = first :: rest ∧
    pushData out data
    = removelast out
      ++ (removePrompt <$> (default "undefined" (last out) +:+ first) :: rest).
Proof.
  unfold pushData. pose proof (split_nonempty "010" data) as Hne.
  destruct (JS.split "010" data) as [|first rest]; [done|].
  by exists first, rest.
Qed.

(** C7. Prompt stripping: a line handed to the buffer that begins with
    ["bashdb<"] and contains ["> "] is stored as what follows the first
    ["> "]; a line that does not begin with ["bashdb<"] is stored as it is;
    and every line the ['data'] listener pushes is stored through
    [removePrompt]. *)
Theorem removePrompt_strips (line : string) :
  (beginsWith "bashdb<" line →
   ∀ a b, line = a +:+ "> " +:+ b →
          (∀ j, (j < String.length a)%nat → ¬ occursAt "> " line j) →
          removePrompt line = b)
  ∧ (¬ beginsWith "bashdb<" line → removePrompt line = line)
  ∧ (∀ out data, ∃ first rest,
       JS.split "010" data = first :: rest ∧
       pushData out data
       = removelast out
         ++ (removePrompt <$> (default "undefined" (last out) +:+ first) :: rest)).
Proof.
  split; [|split; [apply removePrompt_other|apply pushData_stored]].
  intros Hb a b -> Hfirst. rewrite removePrompt_prompt by done.
  rewrite (indexOf_first "> " _ (String.length a)); [|by exists a, b|done].
  rewrite substr_from by lia.
  replace (Z.to_nat (Z.of_nat (String.length a) + 2))
    with (String.length (a +:+ "> ")) by (rewrite str_length_app; simpl; lia).
  rewrite <- (str_app_assoc a "> " b). apply str_drop_app.
Qed.

Lemma removePrompt_strips_witness :
  removePrompt "bashdb<1> break 5" = "break 5"
  ∧ removePrompt "Breakpoint 1 set" = "Breakpoint 1 set".
Proof.
  split.
  - apply (proj1 (removePrompt_strips "bashdb<1> break 5")) with (a := "bashdb<1").
    + by exists "1> break 5".
    + reflexivity.
    + intros j Hj. rewrite occursAt_drop. intros [H _]. simpl in Hj.
      do 8 (destruct j as [|j]; [vm_compute in H; discriminate|]). lia.
  - apply (proj1 (proj2 (removePrompt_strips "Breakpoint 1 set"))).
    intros [t Ht]. vm_compute in Ht. discriminate.
Defined.

(** C9. A line that begins with ["bashdb<"] and holds no ["> "] loses
    exactly its first character: [indexOf] answers [-1] and the result is
    [substr(1)], neither the line itself nor the line without its prefix. *)
Theorem removePrompt_without_separator (line rest : string) :
  line = "bashdb<" +:+ rest →
  absent "> " line →
  removePrompt line = "ashdb<" +:+ rest
  ∧ line = String "b" (removePrompt line)
  ∧ removePrompt line ≠ line
  ∧ removePrompt line ≠ rest.
Proof.
  intros -> Habs.
  assert (E : removePrompt ("bashdb<" +:+ rest) = "ashdb<" +:+ rest).
  { rewrite removePrompt_prompt by (by exists rest).
    rewrite indexOf_absent by done. rewrite substr_from by lia. reflexivity. }
  rewrite E. repeat split.
  - intros H. apply (f_equal String.length) in H. rewrite !str_length_app in H.
    simpl in H. lia.
  - intros H. apply (f_equal String.length) in H. rewrite !str_length_app in H.
    simpl in H. lia.
Qed.

Lemma removePrompt_without_separator_witness :
  removePrompt "bashdb<3>" = "ashdb<3>".
Proof.
  apply (removePrompt_without_separator "bashdb<3>" "3>"); [reflexivity|].
  apply indexOf_absent_iff. reflexivity.
Defined.

Lemma promptReached_iff (out : list string) (h : Z) :
  promptReached out h = true
  ↔ h < Z.of_nat (length out)
    ∧ ∃ n, length out = S (S n) ∧ out !! n = Some END_MARKER.
Proof.
  unfold promptReached, JS.index.
  rewrite andb_true_iff, !bool_decide_eq_true. split.
  - intros [Hh Hm]. split; [lia|].
    destruct (_ <? 0) eqn:E; [done|]. apply Z.ltb_ge in E.
    exists (length out - 2)%nat. split; [lia|].
    by replace (length out - 2)%nat with (Z.to_nat (Z.of_nat (length out) - 2)) by lia.
  - intros [Hh (n & Hn & Hm)]. split; [lia|].
    rewrite Hn. destruct (_ <? 0) eqn:E; [apply Z.ltb_lt in E; lia|].
    by replace (Z.to_nat (Z.of_nat (S (S n)) - 2)) with n by lia.
Qed.

(** C1 (as the code has it). A command with high-water mark [h] is judged
    complete exactly when the buffer is longer than [h] and its
    second-to-last line is the sentinel. When a sentinel line and then a
    prompt line are appended after the mark, the detector fires after the
    second append; it does not fire on the buffer as submitted; and it does
    not fire after the first append provided the line that was last at
    submission is not itself the sentinel. *)
Theorem promptReached_exact :
  (∀ out h, promptReached out h = true
            ↔ h < Z.of_nat (length out)
              ∧ ∃ n, length out = S (S n) ∧ out !! n = Some END_MARKER)
  ∧ (∀ out prompt,
       promptReached (out ++ [END_MARKER; prompt]) (Z.of_nat (length out)) = true)
  ∧ (∀ out, promptReached out (Z.of_nat (length out)) = false)
  ∧ (∀ out, last out ≠ Some END_MARKER →
            promptReached (out ++ [END_MARKER]) (Z.of_nat (length out)) = false).
Proof.
  split; [apply promptReached_iff|]. split; [|split].
  - intros out prompt. apply promptReached_iff. split.
    + rewrite length_app. simpl. lia.
    + exists (length out). split; [rewrite length_app; simpl; lia|].
      by rewrite lookup_app_r, Nat.sub_diag by lia.
  - intros out. apply not_true_is_false. rewrite promptReached_iff. lia.
  - intros out Hlast. apply not_true_is_false. rewrite promptReached_iff.
    intros [_ (n & Hn & Hm)]. apply Hlast.
    rewrite length_app in Hn. simpl in Hn.
    rewrite lookup_app_l in Hm by lia.
    rewrite last_lookup. by replace (pred (length out)) with n by lia.
Qed.

Lemma promptReached_exact_witness :
  promptReached (["continue"; ""] ++ [END_MARKER]) 2 = false
  ∧ promptReached (["continue"; ""] ++ [END_MARKER; ""]) 2 = true.
Proof.
  split.
  - apply (proj2 (proj2 (proj2 promptReached_exact)) ["continue"; ""]).
    vm_compute. discriminate.
  - apply (proj1 (proj2 promptReached_exact) ["continue"; ""] "").
Defined.

(** C1, the claim as stated fails: with the sentinel as the last line at
    submission, the detector fires after the first appended line already. *)
Lemma promptReached_fires_after_first_append :
  ¬ (∀ out : list string,
       promptReached (out ++ [END_MARKER]) (Z.of_nat (length out)) = false).
Proof. intros H. specialize (H [END_MARKER]). vm_compute in H. discriminate. Qed.

Lemma length_split_cons (sep c : ascii) (s : string) :
  c ≠ sep → length (JS.split sep (String c s)) = length (JS.split sep s).
Proof.
  intros H. simpl. rewrite decide_False by done.
  pose proof (split_nonempty sep s). by destruct (JS.split sep s).
Qed.

Lemma length_split_pos (sep : ascii) (s : string) : (1 ≤ length (JS.split sep s))%nat.
Proof.
  pose proof (split_nonempty sep s). destruct (JS.split sep s); [done|simpl; lia].
Qed.

Lemma length_split_app (sep : ascii) (a b : string) :
  length (JS.split sep (a +:+ b))
  = (length (JS.split sep a) + length (JS.split sep b) - 1)%nat.
Proof.
  induction a as [|c a IH].
  - rewrite str_app_nil_l. simpl. lia.
  - rewrite str_app_cons. destruct (decide (c = sep)) as [->|Hne].
    + simpl. rewrite !decide_True by done. simpl. rewrite IH.
      pose proof (length_split_pos sep a). lia.
    + by rewrite !length_split_cons.
Qed.

Lemma length_removelast {A} (l : list A) : length (removelast l) = pred (length l).
Proof.
  induction l as [|x l IH]; [done|]. destruct l as [|y l]; [done|].
  change (removelast (x :: y :: l)) with (x :: removelast (y :: l)).
  change (length (x :: removelast (y :: l))) with (S (length (removelast (y :: l)))).
  by rewrite IH.
Qed.

Lemma pushData_nonempty (out : list string) (data : string) : pushData out data ≠ [].
Proof. unfold pushData. by destruct (removelast out). Qed.

Lemma length_pushData (out : list string) (data : string) :
  out ≠ [] →
  length (pushData out data) = (length out + length (JS.split "010" data) - 1)%nat.
Proof.
  intros Hne. unfold pushData.
  rewrite length_app, length_removelast. simpl.
  rewrite length_fmap.
  pose proof (length_split_pos "010" data).
  destruct (JS.split "010" data); simpl in *; [lia|].
  destruct out; [done|]. simpl. lia.
Qed.

Lemma length_foldl_pushData (chunks : list string) (out : list string) :
  out ≠ [] →
  length (foldl pushData out chunks)
  = (length out + length (JS.split "010" (concatChunks chunks)) - 1)%nat.
Proof.
  revert out. induction chunks as [|c cs IH]; intros out Hne; simpl.
  - lia.
  - rewrite IH by apply pushData_nonempty.
    rewrite length_pushData by done.
    change (String.append c (concatChunks cs)) with (c +:+ concatChunks cs).
    rewrite length_split_app.
    pose proof (length_split_pos "010" c).
    pose proof (length_split_pos "010" (concatChunks cs)). lia.
Qed.

(** The chunks of a stream, delivered one ['data'] event each. *)
Lemma run_stream_data (i : nat) (sendOutput : bool) (chunks : list string) (s : Session) :
  readStreams s !! i = Some sendOutput →
  ∃ s', run (StreamData i <$> chunks) s = Some ((), s')
        ∧ fullDebugOutput s' = foldl pushData (fullDebugOutput s) chunks.
Proof.
  revert s. induction chunks as [|c cs IH]; intros s Hi; simpl.
  - by exists s.
  - destruct s as [a b c0 d e p x l t iv r k o u]. simpl in Hi.
    destruct (IH (Build_Session a (pushData b c) c0 d e p x l t iv r k o
                    (if sendOutput then u ++ [SendEvent (OutputEvent c "console")] else u)) Hi)
      as (s' & Hrun & Hout).
    exists s'. split; [|done].
    unfold mbind, M_bind at 1. unfold step, onData, mbind, M_bind, gets, orThrow. simpl.
    rewrite Hi. simpl. destruct sendOutput; simpl; exact Hrun.
Qed.

End LineBuffer.


(** * The breakpoint ledger *)

Ltac mred :=
  repeat (unfold mbind, M_bind, mret, M_ret, gets, modify, orThrow, throw;
          cbv beta iota).

Ltac destruct_sessions :=
  repeat match goal with s : Session |- _ => destruct s end.

Ltac mred_in H :=
  repeat (unfold mbind, M_bind, mret, M_ret, gets, modify, orThrow, throw in H;
          cbv beta iota in H).

Section Ledger.

Lemma index_is_Some {A} (l : list A) (i : Z) :
  0 ≤ i < Z.of_nat (length l) → ∃ x, JS.index l i = Some x.
Proof.
  intros [H0 Hl]. unfold JS.index.
  destruct (i <? 0) eqn:E; [apply Z.ltb_lt in E; lia|].
  destruct (lookup_lt_is_Some_2 l (Z.to_nat i)) as [x Hx]; [lia|]. by exists x.
Qed.

Lemma parseBreakpoint_is_Some (line : string) : ∃ bp, parseBreakpoint line = Some bp.
Proof.
  unfold parseBreakpoint. pose proof (split_nonempty " " line) as Hne.
  destruct (last (JS.split " " line)) as [x|] eqn:E.
  - simpl. eauto.
  - apply last_None in E. done.
Qed.

Lemma upd_ledger_insert_id (path : string) (ids : list JS.number) (s : Session) :
  currentBreakpointIds s !! path = Some ids →
  upd_currentBreakpointIds (λ m, <[path := ids]> m) s = s.
Proof. destruct s. simpl. intros H. by rewrite insert_id. Qed.

Lemma upd_ledger_insert_insert (path : string) (a b : list JS.number) (s : Session) :
  upd_currentBreakpointIds (λ m, <[path := a]> m)
    (upd_currentBreakpointIds (λ m, <[path := b]> m) s)
  = upd_currentBreakpointIds (λ m, <[path := a]> m) s.
Proof. destruct s. simpl. by rewrite insert_insert_eq. Qed.

Lemma ledger_upd_insert (path : string) (a : list JS.number) (s : Session) :
  currentBreakpointIds (upd_currentBreakpointIds (λ m, <[path := a]> m) s)
  = <[path := a]> (currentBreakpointIds s).
Proof. by destruct s. Qed.

(** The loop of the finalizer pushes, in order, the ids of the confirmations
    it meets onto the ledger entry, and collects their breakpoints. *)
Lemma breakpointsLoop_spec (path : string) (out : list string) (n : nat) :
  ∀ (i : Z) (bps : list Breakpoint) (s : Session) (ids : list JS.number),
    1 ≤ i → i + Z.of_nat n ≤ Z.of_nat (length out) →
    currentBreakpointIds s !! path = Some ids →
    breakpointsLoop path out i n bps s
    = Some (bps ++ omap (confirmationAt out) (seqZ i (Z.of_nat n)),
            upd_currentBreakpointIds
              (λ m, <[path := ids ++ (bp_id <$> omap (confirmationAt out)
                                                  (seqZ i (Z.of_nat n)))]> m) s).
Proof.
  induction n as [|n IH]; intros i bps s ids Hi Hn Hids.
  - simpl. rewrite !app_nil_r. by rewrite upd_ledger_insert_id.
  - rewrite seqZ_cons by lia.
    replace (Z.pred (Z.of_nat (S n))) with (Z.of_nat n) by lia.
    replace (Z.succ i) with (i + 1) by lia.
    destruct (index_is_Some out (i - 1)) as [prev Hprev]; [lia|].
    destruct (index_is_Some out i) as [line Hline]; [lia|].
    destruct (parseBreakpoint_is_Some line) as [bp Hbp].
    assert (Hc : confirmationAt out i = if isMarkerLine prev then Some bp else None).
    { unfold confirmationAt. rewrite Hprev. simpl.
      destruct (isMarkerLine prev); [|done]. rewrite Hline. simpl. done. }
    simpl omap. rewrite Hc. simpl breakpointsLoop.
    mred. rewrite Hprev. mred. destruct (isMarkerLine prev).
    + rewrite Hline. mred. rewrite Hbp. mred. rewrite Hids. mred.
      rewrite (IH (i + 1) (bps ++ [bp]) _ (ids ++ [bp_id bp])); [|lia|lia|].
      * rewrite upd_ledger_insert_insert, <- !app_assoc. done.
      * rewrite ledger_upd_insert. apply lookup_insert_eq.
    + by rewrite (IH (i + 1) bps s ids) by (done || lia).
Qed.

Lemma seqZ_to_nat (m n : Z) : seqZ m (Z.of_nat (Z.to_nat n)) = seqZ m n.
Proof.
  destruct (decide (0 ≤ n)); [by rewrite Z2Nat.id|].
  rewrite !seqZ_nil; [done|lia|lia].
Qed.

Lemma promptReached_length (out : list string) (h : Z) :
  promptReached out h = true → 2 ≤ Z.of_nat (length out) ∧ h < Z.of_nat (length out).
Proof. rewrite promptReached_iff. intros [? (n & ? & ?)]. lia. Qed.

(** On completion the set-breakpoints poller returns and overwrites the
    ledger entry of its file with the ids of the confirmations it found. *)
Lemma setBreakPointsRequestFinalize_ledger (response : Response) (args : SetBreakpointsArguments)
    (h : Z) (s : Session) :
  1 ≤ h →
  promptReached (fullDebugOutput s) h = true →
  ∃ s',
    setBreakPointsRequestFinalize response args h s = Some ((), s')
    ∧ currentBreakpointIds s'
      = <[source_path args := confirmedIds (fullDebugOutput s) h]> (currentBreakpointIds s)
    ∧ currentBreakpointIds s' !! source_path args
      = Some (confirmedIds (fullDebugOutput s) h)
    ∧ (∀ F, F ≠ source_path args →
            currentBreakpointIds s' !! F = currentBreakpointIds s !! F)
    ∧ last (output s')
      = Some (SendResponse (with_body response
                (BreakpointsBody (confirmedBreakpoints (fullDebugOutput s) h)))).
Proof.
  intros Hh Hp. pose proof (promptReached_length _ _ Hp) as [Hl2 Hlh].
  unfold setBreakPointsRequestFinalize, sendResponse, emit.
  destruct s as [led out ix busy closing pr ex ls ts iv rs kc ff tr]. simpl in *.
  mred. simpl. rewrite Hp. mred.
  rewrite (breakpointsLoop_spec (source_path args) out (rounds out h) h [] _ []).
  2: lia.
  2: { unfold rounds. lia. }
  2: { simpl. apply lookup_insert_eq. }
  eexists. split; [reflexivity|]. simpl.
  unfold confirmedIds, confirmedBreakpoints, rounds.
  rewrite seqZ_to_nat, insert_insert_eq.
  split; [done|]. split; [apply lookup_insert_eq|].
  split; [intros F HF; by rewrite lookup_insert_ne|].
  by rewrite last_snoc.
Qed.

End Ledger.

(** * What one handler invocation does to the control state *)

Section Loops.

Lemma breakpointsLoop_frame (path : string) (out : list string) (n : nat) :
  ∀ i bps s x s',
    breakpointsLoop path out i n bps s = Some (x, s') →
    ∃ led, s' = upd_currentBreakpointIds (λ _, led) s.
Proof.
  induction n as [|n IH]; intros i bps s x s' H; simpl in H; mred_in H.
  - simplify_eq. exists (currentBreakpointIds s'). by destruct s'.
  - repeat (case_match; simplify_eq); mred_in H; repeat (case_match; simplify_eq).
    + apply IH in H as [led ->]. exists led. by destruct_sessions.
    + by apply IH in H.
Qed.

Lemma framesLoop_frame (out : list string) (n : nat) :
  ∀ i frames s x s', framesLoop out i n frames s = Some (x, s') → s' = s.
Proof.
  induction n as [|n IH]; intros i frames s x s' H; simpl in H; mred_in H.
  - by simplify_eq.
  - repeat (case_match; simplify_eq). by apply IH in H.
Qed.

Lemma variablesLoop_frame (out : list string) (n : nat) :
  ∀ i vars s x s', variablesLoop out i n vars s = Some (x, s') → s' = s.
Proof.
  induction n as [|n IH]; intros i vars s x s' H; simpl in H; mred_in H.
  - by simplify_eq.
  - repeat (case_match; simplify_eq); mred_in H; repeat (case_match; simplify_eq);
      by apply IH in H.
Qed.

Lemma relayLoop_frame (n : nat) :
  ∀ cleared s x s',
    relayLoop n cleared s = Some (x, s') →
    ∃ ix evs, s' = upd_output (λ o, o ++ evs) (upd_fullDebugOutputIndex (λ _, ix) s)
              ∧ Forall (λ o, isWrite o = false) evs.
Proof.
  induction n as [|n IH]; intros cleared s x s' H; simpl in H; mred_in H.
  - simplify_eq. exists (fullDebugOutputIndex s'), []. split; [|done].
    destruct s'. simpl. by rewrite app_nil_r.
  - unfold sendEvent, emit in H. mred_in H.
    repeat (case_match; simplify_eq); apply IH in H as (ix & evs & -> & Hevs).
    + exists ix, (SendEvent (StoppedEvent "break" THREAD_ID) :: evs).
      split; [|by constructor]. destruct_sessions. simpl. by rewrite <- app_assoc.
    + exists ix, (SendEvent TerminatedEvent :: evs).
      split; [|by constructor]. destruct_sessions. simpl. by rewrite <- app_assoc.
    + exists ix, evs. split; [|done]. by destruct_sessions.
Qed.

Lemma forEach_onExit (responses : list Response) (s : Session) :
  forEach onExit responses s
  = Some ((), match responses with
              | [] => s
              | _ => set_debuggerExecutableClosing true
                       (upd_output (λ o, o ++ (SendResponse <$> responses)) s)
              end).
Proof.
  revert s. induction responses as [|r rs IH]; intros s; [done|].
  simpl. unfold onExit, sendResponse, emit. mred. rewrite IH.
  destruct s, rs; simpl; by rewrite <- ?app_assoc, ?app_nil_r.
Qed.

End Loops.

Ltac unfold_handlers H :=
  unfold setBreakPointsRequest, setBreakPointsRequestFinalize, stackTraceRequest,
    stackTraceRequestFinalize, variablesRequest, variablesRequestFinalize,
    stepRequest, stepRequestFinalize, evaluateRequest, evaluateRequestFinalize,
    launchRequest, launchRequestFinalize, processDebugTerminalOutput,
    initializeRequest, threadsRequest, scopesRequest, disconnectRequest,
    onData, onEnd, onInterval, onKilled,
    stdinWrite, scheduleExecution, sendResponse, sendEvent, emit, currentLength in H.

Ltac mexec H :=
  repeat (progress (unfold_handlers H; mred_in H; simpl in H)).

Ltac frame_loops :=
  repeat match goal with
    | H : breakpointsLoop _ _ _ _ _ _ = Some _ |- _ =>
        apply breakpointsLoop_frame in H as [? ->]
    | H : framesLoop _ _ _ _ _ = Some _ |- _ => apply framesLoop_frame in H as ->
    | H : variablesLoop _ _ _ _ _ = Some _ |- _ => apply variablesLoop_frame in H as ->
    | H : relayLoop _ _ _ = Some _ |- _ => apply relayLoop_frame in H as (? & ? & -> & ?)
    end.

Ltac solve_turn :=
  unfold turn, scheduled; simpl; repeat split;
  first [ reflexivity
        | rewrite <- !app_assoc; reflexivity
        | symmetry; apply app_nil_r ].

Ltac solve_forall :=
  repeat first [ apply Forall_nil_2
               | apply Forall_cons_2; [first [reflexivity | split; reflexivity]|] ].

Section Handlers.

(** A gated handler: busy, it only schedules its own retry; not busy, it
    sets the flag, writes its command and schedules its poller at the
    current buffer length. *)
Lemma runCallback_retry (cb : Callback) (s s' : Session) :
  isRetry cb = true →
  runCallback cb s = Some ((), s') →
  if debuggerExecutableBusy s then turn s s' true [cb] []
  else debuggerProcess s = true
       ∧ ∃ p text acks,
           pollerOf cb (Z.of_nat (length (fullDebugOutput s))) = Some p
           ∧ turn s s' true [p] (StdinWrite text :: acks)
           ∧ Forall (λ o, isWrite o = false) acks.
Proof.
  intros Hcb H. destruct s as [led out ix busy closing pr ex ls ts iv rs kc ff tr].
  destruct cb; try discriminate; destruct busy, closing, pr; simpl in *; mexec H;
    simplify_eq; unfold turn, scheduled; simpl; rewrite ?app_nil_r; try done;
    (split; [done|]); eexists _, _, _; (split; [reflexivity|]);
    (split; [repeat split; rewrite <- ?app_assoc; reflexivity|]);
    repeat constructor.
Qed.

(** A completion poller: on completion it clears the busy flag and
    schedules nothing; otherwise it leaves the flag and schedules itself.
    It never writes to the child. *)
Lemma runCallback_poller (cb : Callback) (h : Z) (s s' : Session) :
  pollerMark cb = Some h →
  runCallback cb s = Some ((), s') →
  ∃ emitted,
    Forall (λ o, isWrite o = false) emitted
    ∧ if promptReached (fullDebugOutput s) h then turn s s' false [] emitted
      else turn s s' (debuggerExecutableBusy s) [cb] emitted.
Proof.
  intros Hcb H. destruct s as [led out ix busy closing pr ex ls ts iv rs kc ff tr].
  destruct cb; try discriminate; destruct closing; simpl in *; simplify_eq; mexec H;
    destruct (promptReached out h) eqn:Hp; try mexec H;
    repeat (case_match; simplify_eq); try mexec H; simplify_eq;
    frame_loops; unfold turn, scheduled; simpl; rewrite ?app_nil_r;
    eexists; (split; [|repeat split; rewrite <- ?app_assoc; try reflexivity]);
    rewrite ?app_nil_r; try reflexivity; repeat constructor.
Qed.

(** The other closures: they schedule no poller and no retry, and leave
    the busy flag. *)
Lemma runCallback_other (cb : Callback) (s s' : Session) :
  isRetry cb = false → pollerMark cb = None →
  runCallback cb s = Some ((), s') →
  ∃ added emitted,
    turn s s' (debuggerExecutableBusy s) added emitted
    ∧ Forall (λ cb, isPoller cb = false ∧ isRetry cb = false) added
    ∧ Forall (λ o, isWrite o = false) emitted.
Proof.
  intros Hr Hp H. destruct s as [led out ix busy closing pr ex ls ts iv rs kc ff tr].
  destruct cb; try discriminate; destruct closing, ff; simpl in *; mexec H;
    repeat (case_match; simplify_eq); try mexec H; simplify_eq;
    eexists _, _; (split; [solve_turn|]); split; solve_forall.
Qed.

Lemma step_timer (i : nat) (s s' : Session) :
  step (TimerFire i) s = Some ((), s')
  ↔ ∃ cb, timeouts s !! i = Some cb
          ∧ runCallback cb (upd_timeouts (delete i) s) = Some ((), s').
Proof.
  unfold step. mred. destruct (timeouts s !! i) as [cb|]; simpl.
  - split; [intros H; by exists cb|]. by intros (cb' & [= <-] & H).
  - split; [done|]. by intros (cb' & ? & _).
Qed.

Lemma step_incoming_gated (seq : Z) (rq : Request) (s : Session) :
  isGated rq = true →
  ∃ cb, retryOf seq rq = Some cb ∧ isRetry cb = true
        ∧ step (Incoming seq rq) s = runCallback cb s.
Proof.
  intros H. destruct rq; try discriminate; eexists; (split; [reflexivity|]); done.
Qed.

Lemma step_plain (l : Label) (s s' : Session) :
  isPlain l = true →
  step l s = Some ((), s') →
  ∃ added emitted,
    turn s s' (debuggerExecutableBusy s) added emitted
    ∧ Forall (λ cb, isPoller cb = false ∧ isRetry cb = false) added.
Proof.
  intros Hl H. destruct s as [led out ix busy closing pr ex ls ts iv rs kc ff tr].
  destruct l as [seq rq| | | | | | | | |]; try discriminate;
    [destruct rq; try discriminate|..];
    destruct closing, pr, ff; simpl in *; unfold step, dispatchRequest in H; mexec H;
    repeat (case_match; simplify_eq); try mexec H;
    repeat (case_match; simplify_eq); try mexec H; simplify_eq; frame_loops;
    eexists _, _; (split; [solve_turn|]); solve_forall.
Qed.

Lemma step_exit (s s' : Session) :
  step ProcessExit s = Some ((), s') →
  debuggerExecutableBusy s' = debuggerExecutableBusy s
  ∧ timeouts s' = timeouts s
  ∧ exitListeners s' = exitListeners s
  ∧ output s' = output s ++ (SendResponse <$> exitListeners s)
  ∧ debuggerExecutableClosing s'
    = debuggerExecutableClosing s || bool_decide (exitListeners s ≠ []).
Proof.
  intros H. destruct s as [led out ix busy closing pr ex ls ts iv rs kc ff tr].
  unfold step in H. mexec H. destruct (pr && negb ex); [|done].
  rewrite forEach_onExit in H. simplify_eq.
  destruct ls; simpl; rewrite ?app_nil_r, ?orb_false_r, ?orb_true_r; done.
Qed.

Lemma step_disconnect (seq : Z) (s s' : Session) :
  step (Incoming seq RqDisconnect) s = Some ((), s') →
  debuggerExecutableBusy s' = false
  ∧ timeouts s' = timeouts s
  ∧ debuggerExecutableClosing s' = debuggerExecutableClosing s
  ∧ output s' = output s ++ [TreeKill "SIGTERM"].
Proof.
  intros H. destruct s as [led out ix busy closing pr ex ls ts iv rs kc ff tr].
  unfold step, dispatchRequest in H. mexec H. destruct pr; simplify_eq. done.
Qed.

End Handlers.


(** * The busy gate: at most one command in flight *)

Lemma busy_upd_timeouts (f : list Callback → list Callback) (s : Session) :
  debuggerExecutableBusy (upd_timeouts f s) = debuggerExecutableBusy s.
Proof. by destruct s. Qed.

Lemma closing_upd_timeouts (f : list Callback → list Callback) (s : Session) :
  debuggerExecutableClosing (upd_timeouts f s) = debuggerExecutableClosing s.
Proof. by destruct s. Qed.

Lemma listeners_upd_timeouts (f : list Callback → list Callback) (s : Session) :
  exitListeners (upd_timeouts f s) = exitListeners s.
Proof. by destruct s. Qed.

Lemma output_upd_timeouts (f : list Callback → list Callback) (s : Session) :
  output (upd_timeouts f s) = output s.
Proof. by destruct s. Qed.

Lemma buffer_upd_timeouts (f : list Callback → list Callback) (s : Session) :
  fullDebugOutput (upd_timeouts f s) = fullDebugOutput s.
Proof. by destruct s. Qed.

Lemma process_upd_timeouts (f : list Callback → list Callback) (s : Session) :
  debuggerProcess (upd_timeouts f s) = debuggerProcess s.
Proof. by destruct s. Qed.

Lemma timeouts_upd_timeouts (f : list Callback → list Callback) (s : Session) :
  timeouts (upd_timeouts f s) = f (timeouts s).
Proof. by destruct s. Qed.

Create Rewrite HintDb session.
#[export] Hint Rewrite busy_upd_timeouts closing_upd_timeouts listeners_upd_timeouts
  output_upd_timeouts buffer_upd_timeouts process_upd_timeouts timeouts_upd_timeouts
  : session.

Section Gate.

Lemma isPoller_mark (cb : Callback) (h : Z) : pollerMark cb = Some h → isPoller cb = true.
Proof. intros H. unfold isPoller. by rewrite H. Qed.

Lemma isPoller_no_mark (cb : Callback) : pollerMark cb = None → isPoller cb = false.
Proof. intros H. unfold isPoller. by rewrite H. Qed.

Lemma isPoller_retry (cb : Callback) : isRetry cb = true → isPoller cb = false.
Proof. by destruct cb. Qed.

Lemma pollerOf_mark (cb p : Callback) (h : Z) : pollerOf cb h = Some p → pollerMark p = Some h.
Proof. destruct cb; simpl; intros H; by simplify_eq. Qed.

Lemma callback_cases (cb : Callback) :
  isRetry cb = true ∨ (∃ h, pollerMark cb = Some h)
  ∨ (isRetry cb = false ∧ pollerMark cb = None).
Proof. destruct cb; simpl; eauto. Qed.

Lemma label_cases (l : Label) :
  isDisconnect l = true ∨ isPlain l = true ∨ l = ProcessExit
  ∨ (∃ seq rq, l = Incoming seq rq ∧ isGated rq = true) ∨ (∃ i, l = TimerFire i).
Proof.
  destruct l as [seq rq|i| | | | | | | |]; [destruct rq|..]; simpl;
    first [ by left
          | by (right; left)
          | by (right; right; left)
          | by (right; right; right; left; eexists _, _)
          | by (right; right; right; right; eexists) ].
Qed.

Lemma filter_pollers_added (added : list Callback) :
  Forall (λ cb, isPoller cb = false ∧ isRetry cb = false) added →
  filter (λ cb, isPoller cb = true) added = [].
Proof.
  induction 1 as [|cb added [Hp _] _ IH]; [done|].
  rewrite filter_cons_False; [done|]. by rewrite Hp.
Qed.

Lemma filter_delete_other {A} (P : A → Prop) `{∀ x, Decision (P x)}
    (l : list A) (i : nat) (x : A) :
  l !! i = Some x → ¬ P x → filter P (delete i l) = filter P l.
Proof.
  revert i. induction l as [|y l IH]; intros [|i] Hi Hx; simplify_eq/=.
  - by rewrite filter_cons_False.
  - rewrite !filter_cons, (IH i) by done. done.
Qed.

Lemma filter_delete_only {A} (P : A → Prop) `{∀ x, Decision (P x)}
    (l : list A) (i : nat) (x p : A) :
  l !! i = Some x → P x → filter P l = [p] → x = p ∧ filter P (delete i l) = [].
Proof.
  revert i. induction l as [|y l IH]; intros [|i] Hi Hx Hf; simplify_eq/=.
  - rewrite filter_cons_True in Hf by done. by simplify_eq.
  - rewrite filter_cons in Hf. rewrite filter_cons. case_decide.
    + simplify_eq. exfalso.
      eapply (filter_nil_not_elem_of P l x); [done|done|].
      by eapply list_elem_of_lookup_2.
    + by apply (IH i).
Qed.

Lemma pendingCommands_upd_timeouts (f : list Callback → list Callback) (s : Session) :
  pendingCommands (upd_timeouts f s) = filter (λ cb, isPoller cb = true) (f (timeouts s)).
Proof. by destruct s. Qed.

Lemma pendingCommands_turn (s s' : Session) (b : bool) (added : list Callback)
    (emitted : list Output) :
  debuggerExecutableClosing s = false →
  turn s s' b added emitted →
  pendingCommands s' = pendingCommands s ++ filter (λ cb, isPoller cb = true) added.
Proof.
  intros Hc (_ & Ht & _). unfold pendingCommands, scheduled in *.
  rewrite Ht, Hc. apply filter_app.
Qed.

Lemma gate_inv_initial : gate_inv initial.
Proof. by repeat split. Qed.

(** An offered command runs a gated handler on a state with the same
    flags, buffer, output and pending commands. *)
Lemma offers_cases (l : Label) (s s' : Session) :
  offersCommand l s = true →
  step l s = Some ((), s') →
  ∃ cb s0,
    isRetry cb = true ∧ runCallback cb s0 = Some ((), s')
    ∧ debuggerExecutableBusy s0 = debuggerExecutableBusy s
    ∧ debuggerExecutableClosing s0 = debuggerExecutableClosing s
    ∧ exitListeners s0 = exitListeners s
    ∧ output s0 = output s
    ∧ fullDebugOutput s0 = fullDebugOutput s
    ∧ pendingCommands s0 = pendingCommands s.
Proof.
  intros Ho H. destruct l as [seq rq|i| | | | | | | |]; try discriminate; simpl in Ho.
  - destruct (step_incoming_gated seq rq s Ho) as (cb & _ & Hcb & E).
    rewrite E in H. by exists cb, s.
  - apply step_timer in H as (cb & Hi & H). rewrite Hi in Ho. simpl in Ho.
    exists cb, (upd_timeouts (delete i) s). autorewrite with session.
    repeat split; try done.
    rewrite pendingCommands_upd_timeouts. unfold pendingCommands.
    apply (filter_delete_other _ _ _ cb); [done|]. by rewrite isPoller_retry.
Qed.

(** An offered command, gate busy: nothing is written, the retry is queued. *)
Lemma offer_busy (l : Label) (s s' : Session) :
  offersCommand l s = true → debuggerExecutableBusy s = true →
  step l s = Some ((), s') →
  output s' = output s ∧ debuggerExecutableBusy s' = true
  ∧ (debuggerExecutableClosing s = false → pendingCommands s' = pendingCommands s)
  ∧ debuggerExecutableClosing s' = debuggerExecutableClosing s
  ∧ exitListeners s' = exitListeners s.
Proof.
  intros Ho Hb H.
  destruct (offers_cases l s s' Ho H) as (cb & s0 & Hcb & Hrun & Eb & Ec & El & Eo & _ & Ep).
  pose proof (runCallback_retry cb s0 s' Hcb Hrun) as Ht.
  rewrite Eb, Hb in Ht. pose proof Ht as (? & _ & Hout & Hcl & Hls).
  rewrite app_nil_r in Hout. repeat split; try congruence.
  intros Hc. rewrite (pendingCommands_turn s0 s' true [cb] []); [|congruence|done].
  rewrite filter_cons_False, filter_nil, app_nil_r; [done|].
  by rewrite isPoller_retry.
Qed.

(** An offered command, gate free: the command is written, the flag is
    set, and its poller, marked with the buffer length, is pending. *)
Lemma offer_free (l : Label) (s s' : Session) :
  offersCommand l s = true → debuggerExecutableBusy s = false →
  debuggerExecutableClosing s = false →
  step l s = Some ((), s') →
  wrote s s' ∧ debuggerExecutableBusy s' = true
  ∧ (∃ p, pollerMark p = Some (Z.of_nat (length (fullDebugOutput s)))
          ∧ pendingCommands s' = pendingCommands s ++ [p])
  ∧ debuggerExecutableClosing s' = false
  ∧ exitListeners s' = exitListeners s.
Proof.
  intros Ho Hb Hc H.
  destruct (offers_cases l s s' Ho H) as (cb & s0 & Hcb & Hrun & Eb & Ec & El & Eo & Ef & Ep).
  pose proof (runCallback_retry cb s0 s' Hcb Hrun) as Ht.
  rewrite Eb, Hb in Ht. destruct Ht as (_ & p & text & acks & Hp & Ht & _).
  pose proof Ht as (? & _ & Hout & Hcl & Hls).
  split; [|repeat split; try congruence].
  - exists text. unfold newOutput. rewrite Hout, Eo, drop_app_length. left.
  - exists p. split; [rewrite <- Ef; by eapply pollerOf_mark|].
    rewrite (pendingCommands_turn s0 s' true [p] (StdinWrite text :: acks)); [|congruence|done].
    rewrite Ep, filter_cons_True, filter_nil; [done|].
    eapply isPoller_mark, pollerOf_mark, Hp.
Qed.

(** Every turn but a disconnect keeps the gate invariant. *)
Lemma gate_inv_step (l : Label) (s s' : Session) :
  gate_inv s → isDisconnect l = false →
  step l s = Some ((), s') → gate_inv s'.
Proof.
  intros (Hc & Hl & Hp) Hd H.
  destruct (label_cases l) as [?|[Hpl|[->|[(seq & rq & -> & Hg)|[i ->]]]]]; [congruence|..].
  - destruct (step_plain l s s' Hpl H) as (added & emitted & Ht & Hadd).
    pose proof Ht as (Hb & _ & _ & Hcl & Hls).
    unfold gate_inv. rewrite (pendingCommands_turn s s' _ added emitted Hc Ht).
    rewrite (filter_pollers_added added Hadd), app_nil_r, Hb. split; [congruence|].
    split; [congruence|done].
  - apply step_exit in H as (Hb & Ht & Hls & _ & Hcl).
    unfold gate_inv, pendingCommands in *. rewrite Hcl, Hls, Ht, Hb, Hc, Hl. done.
  - destruct (debuggerExecutableBusy s) eqn:Hb.
    + destruct (offer_busy (Incoming seq rq) s s' Hg Hb H) as (_ & Hb' & Hp' & Hcl & Hls).
      unfold gate_inv. rewrite Hp' by done. rewrite Hb'.
      split; [congruence|]. split; [congruence|].
      by destruct (pendingCommands s) as [|? [|??]].
    + destruct (offer_free (Incoming seq rq) s s' Hg Hb Hc H) as (_ & Hb' & (p & _ & Hp') & Hcl & Hls).
      unfold gate_inv. rewrite Hp', Hb'. split; [done|]. split; [congruence|].
      by destruct (pendingCommands s) as [|? [|??]].
  - pose proof H as H'. apply step_timer in H' as (cb & Hi & Hrun).
    destruct (callback_cases cb) as [Hr|[[h Hm]|[Hr Hm]]].
    + assert (Ho : offersCommand (TimerFire i) s = true) by (simpl; by rewrite Hi).
      destruct (debuggerExecutableBusy s) eqn:Hb.
      * destruct (offer_busy _ s s' Ho Hb H) as (_ & Hb' & Hp' & Hcl & Hls).
        unfold gate_inv. rewrite Hp' by done. rewrite Hb'.
        split; [congruence|]. split; [congruence|].
        by destruct (pendingCommands s) as [|? [|??]].
      * destruct (offer_free _ s s' Ho Hb Hc H) as (_ & Hb' & (p & _ & Hp') & Hcl & Hls).
        unfold gate_inv. rewrite Hp', Hb'. split; [done|]. split; [congruence|].
        by destruct (pendingCommands s) as [|? [|??]].
    + destruct (runCallback_poller cb h _ s' Hm Hrun) as (emitted & _ & Ht).
      autorewrite with session in Ht.
      assert (Hin : isPoller cb = true) by by eapply isPoller_mark.
      destruct (pendingCommands s) as [|p [|??]] eqn:Hpend; [| |done].
      { exfalso. eapply (filter_nil_not_elem_of _ (timeouts s) cb); [exact Hpend|done|].
        by eapply list_elem_of_lookup_2. }
      destruct (filter_delete_only _ (timeouts s) i cb p Hi Hin Hpend) as [-> Hdel].
      assert (Hc0 : debuggerExecutableClosing (upd_timeouts (delete i) s) = false)
        by by autorewrite with session.
      destruct (promptReached (fullDebugOutput s) h);
        pose proof Ht as (Hb' & _ & _ & Hcl & Hls);
        autorewrite with session in Hcl, Hls; unfold gate_inv;
        rewrite (pendingCommands_turn _ s' _ _ emitted Hc0 Ht),
          pendingCommands_upd_timeouts, Hdel, Hb'.
      * split; [congruence|]. split; [congruence|done].
      * rewrite filter_cons_True by done. simpl.
        split; [congruence|]. split; [congruence|exact Hp].
    + destruct (runCallback_other cb _ s' Hr Hm Hrun) as (added & emitted & Ht & Hadd & _).
      assert (Hc0 : debuggerExecutableClosing (upd_timeouts (delete i) s) = false)
        by by autorewrite with session.
      pose proof Ht as (Hb' & _ & _ & Hcl & Hls).
      autorewrite with session in Hb', Hcl, Hls. unfold gate_inv.
      rewrite (pendingCommands_turn _ s' _ added emitted Hc0 Ht),
        pendingCommands_upd_timeouts, (filter_pollers_added added Hadd), app_nil_r, Hb'.
      rewrite (filter_delete_other _ (timeouts s) i cb Hi)
        by (by rewrite (isPoller_no_mark cb Hm)).
      split; [congruence|]. split; [congruence|done].
Qed.


Lemma run_nil (s s' : Session) : run [] s = Some ((), s') ↔ s' = s.
Proof. simpl. mred. split; intros; by simplify_eq. Qed.

Lemma run_cons (l : Label) (ls : list Label) (s s' : Session) :
  run (l :: ls) s = Some ((), s')
  ↔ ∃ s1, step l s = Some ((), s1) ∧ run ls s1 = Some ((), s').
Proof.
  simpl. unfold mbind, M_bind. destruct (step l s) as [[[] s1]|].
  - split; [intros H; by exists s1|]. by intros (? & [= <-] & H).
  - split; [done|]. by intros (? & ? & _).
Qed.

Lemma run_app (ls1 ls2 : list Label) (s s' : Session) :
  run (ls1 ++ ls2) s = Some ((), s')
  ↔ ∃ s1, run ls1 s = Some ((), s1) ∧ run ls2 s1 = Some ((), s').
Proof.
  revert s. induction ls1 as [|l ls1 IH]; intros s.
  - rewrite app_nil_l. split.
    + intros H. exists s. by rewrite run_nil.
    + intros (s1 & ->%run_nil & H). done.
  - rewrite <- app_comm_cons, run_cons. split.
    + intros (s1 & Hs & (s2 & H1 & H2)%IH). exists s2. rewrite run_cons. eauto.
    + intros (s2 & (s1 & Hs & H1)%run_cons & H2). exists s1. rewrite IH. eauto.
Qed.



Lemma wrote_busy_false (l : Label) (s s' : Session) :
  offersCommand l s = true → step l s = Some ((), s') → wrote s s' →
  debuggerExecutableBusy s = false.
Proof.
  intros Ho H [text Hw]. destruct (debuggerExecutableBusy s) eqn:Hb; [|done].
  destruct (offer_busy l s s' Ho Hb H) as (Hout & _).
  unfold newOutput in Hw. rewrite Hout, drop_all in Hw. by apply elem_of_nil in Hw.
Qed.




Lemma wrote_check (s s' : Session) :
  existsb isWrite (newOutput s s') = true → wrote s s'.
Proof.
  unfold wrote. induction (newOutput s s') as [|o l IH]; simpl; [done|].
  destruct o; simpl; try (intros H; destruct (IH H) as [t Ht]; exists t; by right).
  intros _. eexists. left.
Qed.




(** The state of the counterexample to C1 is one the session reaches: the
    poller of [continue], marked 1 on the buffer [[END_MARKER]], finds the
    command complete on the launch's sentinel, before its own has arrived. *)
Lemma stale_sentinel_completes :
  run sampleStale initial = Some ((), exec sampleStale initial)
  ∧ fullDebugOutput (exec (firstn 6 sampleStale) initial) = [END_MARKER]
  ∧ fullDebugOutput (exec sampleStale initial) = [END_MARKER; "continue"]
  ∧ debuggerExecutableBusy (exec sampleStale initial) = true
  ∧ detectsCompletion (TimerFire 0) (exec sampleStale initial) 1
  ∧ debuggerExecutableBusy (exec (sampleStale ++ [TimerFire 0]) initial) = false.
Proof.
  repeat split; try (vm_compute; reflexivity).
  exists 0%nat, (CbStepRequestFinalize Continue {| request_seq := 2; body := None |} 1).
  repeat split; vm_compute; reflexivity.
Qed.

End Gate.


(** * The output only grows *)

Section Trace.

Lemma step_output_extends (l : Label) (s s' : Session) :
  step l s = Some ((), s') → ∃ emitted, output s' = output s ++ emitted.
Proof.
  intros H.
  destruct (label_cases l) as [Hd|[Hpl|[->|[(seq & rq & -> & Hg)|[i ->]]]]].
  - destruct l as [seq rq| | | | | | | | |]; try discriminate.
    destruct rq; try discriminate.
    apply step_disconnect in H as (_ & _ & _ & Hout). eauto.
  - destruct (step_plain l s s' Hpl H) as (added & emitted & (_ & _ & Hout & _) & _). eauto.
  - apply step_exit in H as (_ & _ & _ & Hout & _). eauto.
  - destruct (step_incoming_gated seq rq s Hg) as (cb & _ & Hcb & E). rewrite E in H.
    pose proof (runCallback_retry cb s s' Hcb H) as Ht.
    destruct (debuggerExecutableBusy s).
    + destruct Ht as (_ & _ & Hout & _). eauto.
    + destruct Ht as (_ & p & text & acks & _ & (_ & _ & Hout & _) & _). eauto.
  - apply step_timer in H as (cb & Hi & Hrun).
    destruct (callback_cases cb) as [Hr|[[h Hm]|[Hr Hm]]].
    + pose proof (runCallback_retry cb _ s' Hr Hrun) as Ht.
      autorewrite with session in Ht. destruct (debuggerExecutableBusy s).
      * destruct Ht as (_ & _ & Hout & _). autorewrite with session in Hout. eauto.
      * destruct Ht as (_ & p & text & acks & _ & (_ & _ & Hout & _) & _).
        autorewrite with session in Hout. eauto.
    + destruct (runCallback_poller cb h _ s' Hm Hrun) as (emitted & _ & Ht).
      destruct (promptReached _ h); destruct Ht as (_ & _ & Hout & _);
        autorewrite with session in Hout; eauto.
    + destruct (runCallback_other cb _ s' Hr Hm Hrun)
        as (added & emitted & (_ & _ & Hout & _) & _).
      autorewrite with session in Hout. eauto.
Qed.

Lemma run_output_extends (ls : list Label) (s s' : Session) :
  run ls s = Some ((), s') → ∃ emitted, output s' = output s ++ emitted.
Proof.
  revert s. induction ls as [|l ls IH]; intros s H.
  - apply run_nil in H as ->. exists []. by rewrite app_nil_r.
  - apply run_cons in H as (s1 & Hstep & Hrun).
    destruct (step_output_extends l s s1 Hstep) as [e1 E1].
    destruct (IH s1 Hrun) as [e2 E2]. exists (e1 ++ e2). by rewrite E2, E1, app_assoc.
Qed.

(** C6. Step acknowledgment: a continue, next, step-in or step-out request
    that the gate admits writes its command and sends the response in the
    very same handler invocation; the completion poller is only scheduled
    there, so completion is detected in a later timer turn at the earliest,
    and whatever the session emits later, at completion or otherwise, comes
    after the acknowledgment. *)
Theorem step_acknowledged_at_once (kind : StepKind) (response : Response) (s : Session) :
  debuggerExecutableBusy s = false →
  debuggerProcess s = true →
  let mark := Z.of_nat (length (fullDebugOutput s)) in
  let command := "print " +:+ stepCommand kind +:+ JS.nl
                   +:+ stepCommand kind +:+ JS.nl +:+ printMarker in
  ∃ s',
    stepRequest kind response s = Some ((), s')
    ∧ output s' = output s ++ [StdinWrite command; SendResponse response]
    ∧ debuggerExecutableBusy s' = true
    ∧ timeouts s' = scheduled s [CbStepRequestFinalize kind response mark]
    ∧ (∀ ls s'',
         run ls s' = Some ((), s'') →
         ∃ later,
           output s'' = output s ++ [StdinWrite command; SendResponse response] ++ later)
    ∧ (∀ ls s'' l,
         run ls s' = Some ((), s'') → detectsCompletion l s'' mark →
         SendResponse response ∈ output s'').
Proof.
  intros Hb Hp mark command.
  destruct s as [led out ix busy closing pr ex lsn ts iv rs kc ff tr].
  simpl in Hb, Hp. subst busy pr.
  destruct closing;
    (eexists; split;
     [unfold stepRequest, stdinWrite, scheduleExecution, sendResponse, emit, currentLength;
      mred; simpl; reflexivity|]);
    simpl; (split; [by rewrite <- app_assoc|]); (split; [done|]);
    (split; [done|]); split.
  all: intros ls s'' **.
  all: match goal with H : run _ _ = Some _ |- _ =>
         destruct (run_output_extends _ _ _ H) as [later Hlater] end.
  all: simpl in Hlater; rewrite <- !app_assoc in Hlater; simpl in Hlater.
  1,3: exists later; by rewrite Hlater.
  all: rewrite Hlater; set_solver.
Qed.

Lemma step_acknowledged_at_once_witness :
  ∃ s',
    stepRequest Next {| request_seq := 3; body := None |}
      (exec [Incoming 1 (RqLaunch sampleLaunch)] initial) = Some ((), s')
    ∧ debuggerExecutableBusy s' = true.
Proof.
  destruct (step_acknowledged_at_once Next {| request_seq := 3; body := None |}
              (exec [Incoming 1 (RqLaunch sampleLaunch)] initial))
    as (s' & Hrun & _ & Hb & _); [reflexivity|reflexivity|].
  exists s'. split; [exact Hrun|exact Hb].
Defined.

Lemma responsesTo_app (seq : Z) (l1 l2 : list Output) :
  responsesTo seq (l1 ++ l2) = (responsesTo seq l1 + responsesTo seq l2)%nat.
Proof. unfold responsesTo. by rewrite filter_app, length_app. Qed.

Lemma responsesTo_response (seq : Z) (r : Response) :
  request_seq r = seq → responsesTo seq [SendResponse r] = 1%nat.
Proof.
  intros H. unfold responsesTo. rewrite filter_cons_True; [done|].
  simpl. by rewrite bool_decide_eq_true_2.
Qed.

(** One invocation of the set-breakpoints poller, by what it emits. *)
Lemma setBreakPointsRequestFinalize_output (r : Response) (a : SetBreakpointsArguments)
    (h : Z) (s s' : Session) :
  setBreakPointsRequestFinalize r a h s = Some ((), s') →
  if promptReached (fullDebugOutput s) h
  then ∃ bps, output s'
              = output s ++ [SendResponse r; SendResponse (with_body r (BreakpointsBody bps))]
  else output s' = output s ++ [SendResponse r]
       ∧ timeouts s' = scheduled s [CbSetBreakPointsRequestFinalize r a h].
Proof.
  intros H. destruct s as [led out ix busy closing pr ex lsn ts iv rs kc ff tr].
  simpl. destruct closing; mexec H; destruct (promptReached out h) eqn:Hp; try mexec H;
    repeat (case_match; simplify_eq); try mexec H; simplify_eq; frame_loops; simpl;
    rewrite <- ?app_assoc; eauto.
Qed.

(** C10. Repeated response of set-breakpoints: every invocation of the
    poller first sends the response as it is, before it looks for
    completion; not complete, it sends nothing else and schedules itself;
    complete, it sends the response once more, now with the breakpoints.
    So a request whose first poll comes before the sentinel has its
    response sent at least three times by the time it completes. *)
Theorem setBreakPoints_response_repeated :
  (∀ r a h s s',
     setBreakPointsRequestFinalize r a h s = Some ((), s') →
     (∃ rest, output s' = output s ++ SendResponse r :: rest)
     ∧ if promptReached (fullDebugOutput s) h
       then ∃ bps, output s' = output s ++ [SendResponse r;
                                 SendResponse (with_body r (BreakpointsBody bps))]
       else output s' = output s ++ [SendResponse r]
            ∧ timeouts s' = scheduled s [CbSetBreakPointsRequestFinalize r a h])
  ∧ (∀ r a h i j s0 s1 ls s2 s3,
       timeouts s0 !! i = Some (CbSetBreakPointsRequestFinalize r a h) →
       promptReached (fullDebugOutput s0) h = false →
       step (TimerFire i) s0 = Some ((), s1) →
       run ls s1 = Some ((), s2) →
       timeouts s2 !! j = Some (CbSetBreakPointsRequestFinalize r a h) →
       promptReached (fullDebugOutput s2) h = true →
       step (TimerFire j) s2 = Some ((), s3) →
       (responsesTo (request_seq r) (output s0) + 3
        ≤ responsesTo (request_seq r) (output s3))%nat).
Proof.
  split.
  - intros r a h s s' H. pose proof (setBreakPointsRequestFinalize_output r a h s s' H) as Ho.
    split; [|done]. destruct (promptReached (fullDebugOutput s) h).
    + destruct Ho as [bps ->]. eauto.
    + destruct Ho as [-> _]. eauto.
  - intros r a h i j s0 s1 ls s2 s3 Hi Hp0 Hstep0 Hrun Hj Hp2 Hstep2.
    apply step_timer in Hstep0 as (cb0 & Hi' & Hrun0).
    apply step_timer in Hstep2 as (cb2 & Hj' & Hrun2). simplify_eq. simpl in *.
    apply setBreakPointsRequestFinalize_output in Hrun0, Hrun2.
    autorewrite with session in Hrun0, Hrun2. rewrite Hp0 in Hrun0. rewrite Hp2 in Hrun2.
    destruct Hrun0 as [E1 _]. destruct Hrun2 as [bps E3].
    destruct (run_output_extends ls s1 s2 Hrun) as [mid E2].
    rewrite E3, E2, E1.
    change [SendResponse r; SendResponse (with_body r (BreakpointsBody bps))]
      with ([SendResponse r] ++ [SendResponse (with_body r (BreakpointsBody bps))]).
    rewrite !responsesTo_app, !responsesTo_response by done. lia.
Qed.

Lemma setBreakPoints_response_repeated_witness :
  (responsesTo 2 (output (exec sampleBreakpointsSubmitted initial)) + 3
   ≤ responsesTo 2 (output (exec (sampleBreakpointsSubmitted
                                    ++ [TimerFire 0; StreamData 0 sampleConfirmations;
                                        TimerFire 0]) initial)))%nat.
Proof.
  apply (proj2 setBreakPoints_response_repeated
           {| request_seq := 2; body := None |} sampleBreakpoints 2 0%nat 0%nat
           (exec sampleBreakpointsSubmitted initial)
           (exec (sampleBreakpointsSubmitted ++ [TimerFire 0]) initial)
           [StreamData 0 sampleConfirmations]
           (exec (sampleBreakpointsSubmitted
                    ++ [TimerFire 0; StreamData 0 sampleConfirmations]) initial)
           (exec (sampleBreakpointsSubmitted
                    ++ [TimerFire 0; StreamData 0 sampleConfirmations; TimerFire 0])
                 initial));
    vm_compute; reflexivity.
Defined.

(** Only pipe data changes the buffer. *)
Lemma step_buffer (l : Label) (s s' : Session) :
  step l s = Some ((), s') →
  fullDebugOutput s'
  = match l with
    | StreamData _ data => pushData (fullDebugOutput s) data
    | _ => fullDebugOutput s
    end.
Proof.
  intros H. destruct s as [led out ix busy closing pr ex lsn ts iv rs kc ff tr].
  destruct l as [seq rq|i| |i data|i| | | | |]; unfold step in H;
    [destruct rq; unfold dispatchRequest in H
    |mexec H; destruct (ts !! i) as [[]|] eqn:E; [..|done]; unfold runCallback in H
    |..];
    simpl in *; try mexec H;
    repeat (case_match; simplify_eq; try mexec H);
    try rewrite forEach_onExit in H; simplify_eq; frame_loops;
    try (by destruct lsn); done.
Qed.

Lemma length_pushData_ge (out : list string) (data : string) :
  (length out ≤ length (pushData out data))%nat.
Proof.
  destruct out as [|x out]; [simpl; lia|].
  rewrite length_pushData by done. pose proof (length_split_pos "010" data). lia.
Qed.

Lemma step_buffer_grows (l : Label) (s s' : Session) :
  step l s = Some ((), s') →
  (length (fullDebugOutput s) ≤ length (fullDebugOutput s'))%nat
  ∧ (fullDebugOutput s ≠ [] → fullDebugOutput s' ≠ []).
Proof.
  intros H. rewrite (step_buffer l s s' H). destruct l; try done.
  split; [apply length_pushData_ge|]. intros _. apply pushData_nonempty.
Qed.

(** The timers after a turn: those before, less the fired one, and the
    added ones, none of which is a poller unless it was pending before or
    is marked with the buffer length of the turn. *)
Lemma step_timers (l : Label) (s s' : Session) :
  step l s = Some ((), s') →
  ∀ cb, cb ∈ timeouts s' →
        cb ∈ timeouts s ∨ pollerMark cb = None
        ∨ pollerMark cb = Some (Z.of_nat (length (fullDebugOutput s))).
Proof.
  intros H cb Hin.
  assert (Hsch : ∀ s0 added, timeouts s0 = timeouts s ∨ (∃ i, timeouts s0 = delete i (timeouts s)) →
            cb ∈ scheduled s0 added → cb ∈ timeouts s ∨ cb ∈ added).
  { intros s0 added Hs0. unfold scheduled.
    assert (cb ∈ timeouts s0 → cb ∈ timeouts s) as Hsub.
    { destruct Hs0 as [->|[i ->]]; [done|]. apply list_elem_of_delete_inv. }
    destruct (debuggerExecutableClosing s0); [eauto|].
    rewrite elem_of_app. intros [?|?]; eauto. }
  assert (Hnp : ∀ added, Forall (λ cb, isPoller cb = false ∧ isRetry cb = false) added →
            cb ∈ added → pollerMark cb = None).
  { intros added Hall Hc. rewrite Forall_forall in Hall. destruct (Hall _ Hc) as [Hp _].
    unfold isPoller in Hp. destruct (pollerMark cb); [done|done]. }
  destruct (label_cases l) as [Hd|[Hpl|[->|[(seq & rq & -> & Hg)|[i ->]]]]].
  - destruct l as [seq rq| | | | | | | | |]; try discriminate.
    destruct rq; try discriminate.
    apply step_disconnect in H as (_ & Ht & _). left. congruence.
  - destruct (step_plain l s s' Hpl H) as (added & emitted & (_ & Ht & _) & Hadd).
    rewrite Ht in Hin. destruct (Hsch s added (or_introl eq_refl) Hin); eauto.
  - apply step_exit in H as (_ & Ht & _). left. congruence.
  - destruct (step_incoming_gated seq rq s Hg) as (cb0 & _ & Hcb & E). rewrite E in H.
    pose proof (runCallback_retry cb0 s s' Hcb H) as Ht.
    destruct (debuggerExecutableBusy s).
    + destruct Ht as (_ & Ht & _). rewrite Ht in Hin.
      destruct (Hsch s [cb0] (or_introl eq_refl) Hin) as [?|Hc]; [eauto|].
      apply list_elem_of_singleton in Hc as ->. right. left.
      apply isPoller_retry in Hcb. unfold isPoller in Hcb. by destruct (pollerMark cb0).
    + destruct Ht as (_ & p & text & acks & Hp & (_ & Ht & _) & _). rewrite Ht in Hin.
      destruct (Hsch s [p] (or_introl eq_refl) Hin) as [?|Hc]; [eauto|].
      apply list_elem_of_singleton in Hc as ->. right. right. by eapply pollerOf_mark.
  - apply step_timer in H as (cb0 & Hi & Hrun).
    assert (Hdel : timeouts (upd_timeouts (delete i) s) = timeouts s
                   ∨ ∃ j, timeouts (upd_timeouts (delete i) s) = delete j (timeouts s)).
    { right. exists i. by autorewrite with session. }
    assert (Hcb0 : cb0 ∈ timeouts s) by by eapply list_elem_of_lookup_2.
    destruct (callback_cases cb0) as [Hr|[[h Hm]|[Hr Hm]]].
    + pose proof (runCallback_retry cb0 _ s' Hr Hrun) as Ht.
      destruct (debuggerExecutableBusy (upd_timeouts (delete i) s)).
      * destruct Ht as (_ & Ht & _). rewrite Ht in Hin.
        destruct (Hsch _ [cb0] Hdel Hin) as [?|Hc]; [eauto|].
        apply list_elem_of_singleton in Hc as ->. eauto.
      * destruct Ht as (_ & p & text & acks & Hp & (_ & Ht & _) & _). rewrite Ht in Hin.
        destruct (Hsch _ [p] Hdel Hin) as [?|Hc]; [eauto|].
        apply list_elem_of_singleton in Hc as ->. right. right.
        autorewrite with session in Hp. by eapply pollerOf_mark.
    + destruct (runCallback_poller cb0 h _ s' Hm Hrun) as (emitted & _ & Ht).
      destruct (promptReached _ h); destruct Ht as (_ & Ht & _); rewrite Ht in Hin.
      * destruct (Hsch _ [] Hdel Hin) as [?|Hc]; [eauto|]. by apply elem_of_nil in Hc.
      * destruct (Hsch _ [cb0] Hdel Hin) as [?|Hc]; [eauto|].
        apply list_elem_of_singleton in Hc as ->. eauto.
    + destruct (runCallback_other cb0 _ s' Hr Hm Hrun) as (added & emitted & (_ & Ht & _) & Hadd & _).
      rewrite Ht in Hin. destruct (Hsch _ added Hdel Hin); eauto.
Qed.

Lemma marks_inv_step (l : Label) (s s' : Session) :
  marks_inv s → step l s = Some ((), s') → marks_inv s'.
Proof.
  intros [Hne Hmarks] H. destruct (step_buffer_grows l s s' H) as [Hlen Hne'].
  split; [by apply Hne'|]. rewrite Forall_forall in Hmarks. apply Forall_forall.
  intros cb Hin h Hm.
  destruct (step_timers l s s' H cb Hin) as [Hold|[?|Hnew]]; [|congruence|].
  - specialize (Hmarks cb Hold h Hm). lia.
  - rewrite Hm in Hnew. injection Hnew as ->.
    destruct (fullDebugOutput s); [done|]. simpl in *. lia.
Qed.

Lemma marks_inv_run (ls : list Label) (s s' : Session) :
  marks_inv s → run ls s = Some ((), s') → marks_inv s'.
Proof.
  revert s. induction ls as [|l ls IH]; intros s Hinv H.
  - by apply run_nil in H as ->.
  - apply run_cons in H as (s1 & Hstep & Hrun). eauto using marks_inv_step.
Qed.

Lemma marks_inv_initial : marks_inv initial.
Proof. split; [done|]. apply Forall_nil_2. Qed.

End Trace.


(** * After the child's exit *)

Section Quiescence.

Lemma not_wrote (s s' : Session) (emitted : list Output) :
  output s' = output s ++ emitted → Forall (λ o, isWrite o = false) emitted →
  ¬ wrote s s'.
Proof.
  intros Hout Hall [text Hin]. unfold newOutput in Hin.
  rewrite Hout, drop_app_length in Hin.
  rewrite Forall_forall in Hall. by specialize (Hall _ Hin).
Qed.

Lemma scheduled_closing (s : Session) (added : list Callback) :
  debuggerExecutableClosing s = true → scheduled s added = timeouts s.
Proof. intros H. unfold scheduled. by rewrite H. Qed.

(** Once closing, every turn leaves the flag set and schedules nothing: the
    pending timers stay as they are, less the one that fired. *)
Lemma closing_step (l : Label) (s s' : Session) :
  debuggerExecutableClosing s = true →
  step l s = Some ((), s') →
  debuggerExecutableClosing s' = true
  ∧ timeouts s' = match l with
                  | TimerFire i => delete i (timeouts s)
                  | _ => timeouts s
                  end.
Proof.
  intros Hc H.
  destruct (label_cases l) as [Hd|[Hpl|[->|[(seq & rq & -> & Hg)|[i ->]]]]].
  - destruct l as [seq rq| | | | | | | | |]; try discriminate.
    destruct rq; try discriminate.
    apply step_disconnect in H as (_ & Ht & Hcl & _). split; congruence.
  - destruct (step_plain l s s' Hpl H) as (added & emitted & (_ & Ht & _ & Hcl & _) & _).
    rewrite scheduled_closing in Ht by done.
    destruct l; try discriminate; split; congruence.
  - apply step_exit in H as (_ & Ht & _ & _ & Hcl). rewrite Hc in Hcl. done.
  - destruct (step_incoming_gated seq rq s Hg) as (cb & _ & Hcb & E). rewrite E in H.
    pose proof (runCallback_retry cb s s' Hcb H) as Ht.
    destruct (debuggerExecutableBusy s).
    + destruct Ht as (_ & Ht & _ & Hcl & _). rewrite scheduled_closing in Ht by done.
      split; congruence.
    + destruct Ht as (_ & p & text & acks & _ & (_ & Ht & _ & Hcl & _) & _).
      rewrite scheduled_closing in Ht by done. split; congruence.
  - apply step_timer in H as (cb & Hi & Hrun).
    assert (Hc0 : debuggerExecutableClosing (upd_timeouts (delete i) s) = true)
      by by autorewrite with session.
    destruct (callback_cases cb) as [Hr|[[h Hm]|[Hr Hm]]].
    + pose proof (runCallback_retry cb _ s' Hr Hrun) as Ht.
      destruct (debuggerExecutableBusy (upd_timeouts (delete i) s)).
      * destruct Ht as (_ & Ht & _ & Hcl & _). rewrite scheduled_closing in Ht by done.
        autorewrite with session in Ht, Hcl. split; congruence.
      * destruct Ht as (_ & p & text & acks & _ & (_ & Ht & _ & Hcl & _) & _).
        rewrite scheduled_closing in Ht by done.
        autorewrite with session in Ht, Hcl. split; congruence.
    + destruct (runCallback_poller cb h _ s' Hm Hrun) as (emitted & _ & Ht).
      destruct (promptReached _ h); destruct Ht as (_ & Ht & _ & Hcl & _);
        rewrite scheduled_closing in Ht by done;
        autorewrite with session in Ht, Hcl; split; congruence.
    + destruct (runCallback_other cb _ s' Hr Hm Hrun)
        as (added & emitted & (_ & Ht & _ & Hcl & _) & _).
      rewrite scheduled_closing in Ht by done.
      autorewrite with session in Ht, Hcl. split; congruence.
Qed.

(** A fired callback writes to the child only if it is the retry of a
    request and finds the busy flag clear. *)
Lemma quiet_callback (i : nat) (cb : Callback) (s s' : Session) :
  timeouts s !! i = Some cb →
  step (TimerFire i) s = Some ((), s') →
  isRetry cb = false ∨ debuggerExecutableBusy s = true →
  ¬ wrote s s'.
Proof.
  intros Hi H Hq. apply step_timer in H as (cb' & Hi' & Hrun). simplify_eq.
  destruct (callback_cases cb) as [Hr|[[h Hm]|[Hr Hm]]].
  - destruct Hq as [?|Hb]; [congruence|].
    pose proof (runCallback_retry cb _ s' Hr Hrun) as Ht.
    autorewrite with session in Ht. rewrite Hb in Ht.
    destruct Ht as (_ & _ & Hout & _). autorewrite with session in Hout.
    by eapply not_wrote.
  - destruct (runCallback_poller cb h _ s' Hm Hrun) as (emitted & Hall & Ht).
    destruct (promptReached _ h); destruct Ht as (_ & _ & Hout & _);
      autorewrite with session in Hout; by eapply not_wrote.
  - destruct (runCallback_other cb _ s' Hr Hm Hrun)
      as (added & emitted & (_ & _ & Hout & _) & _ & Hall).
    autorewrite with session in Hout. by eapply not_wrote.
Qed.

Lemma closing_run (ls : list Label) (s s' : Session) :
  debuggerExecutableClosing s = true →
  run ls s = Some ((), s') →
  debuggerExecutableClosing s' = true
  ∧ (length (filter (λ l, isTimerFire l = true) ls) + length (timeouts s')
     = length (timeouts s))%nat.
Proof.
  revert s. induction ls as [|l ls IH]; intros s Hc H.
  - apply run_nil in H as ->. done.
  - apply run_cons in H as (s1 & Hstep & Hrun).
    destruct (closing_step l s s1 Hc Hstep) as [Hc1 Ht1].
    destruct (IH s1 Hc1 Hrun) as [Hc' Hlen]. split; [done|].
    destruct l as [| i | | | | | | | |];
      try (rewrite filter_cons_False by done; congruence).
    rewrite filter_cons_True by done. simpl.
    apply step_timer in Hstep as (cb & Hi & _).
    apply lookup_lt_Some in Hi. rewrite Ht1, length_delete in Hlen by (by apply lookup_lt_is_Some_2).
    lia.
Qed.

(** The turns that are neither a timer, a gated request, a launch nor the
    kill callback write nothing to the child. *)
Lemma quiet_label (l : Label) (s s' : Session) :
  isTimerFire l = false → offersCommand l s = false → isLaunch l = false → l ≠ KillDone →
  step l s = Some ((), s') →
  ∃ emitted, output s' = output s ++ emitted ∧ Forall (λ o, isWrite o = false) emitted.
Proof.
  intros Ht Ho Hl Hk H.
  assert (l = ProcessExit ∨ l ≠ ProcessExit) as [->|Hx]
    by (destruct l; first [by left | by right]).
  { apply step_exit in H as (_ & _ & _ & Hout & _). eexists. split; [exact Hout|].
    apply Forall_fmap. by apply Forall_forall. }
  destruct s as [led out ix busy closing pr ex lsn ts iv rs kc ff tr].
  destruct l as [seq rq|i| |i data|i| | | | |]; try done;
    [destruct rq; try discriminate|..];
    unfold step, dispatchRequest in H; mexec H;
    repeat (case_match; simplify_eq; try mexec H);
    try rewrite forEach_onExit in H; simplify_eq; frame_loops; simpl;
    try (eexists; split; [first [reflexivity | rewrite <- !app_assoc; reflexivity
                                | symmetry; apply app_nil_r]|]; solve_forall; done).
Qed.

(** Which turns write to the child: a gated request, arriving or retried,
    that finds the busy flag clear; a launch; the kill callback of a
    disconnect. The closing flag plays no part in it. *)
Lemma writes_classified (l : Label) (s s' : Session) :
  step l s = Some ((), s') → wrote s s' →
  l = KillDone ∨ isLaunch l = true
  ∨ (offersCommand l s = true ∧ debuggerExecutableBusy s = false).
Proof.
  intros H Hw.
  destruct (offersCommand l s) eqn:Ho.
  { right. right. split; [done|]. by eapply wrote_busy_false. }
  destruct (isLaunch l) eqn:Hl; [by right; left|].
  assert (l = KillDone ∨ l ≠ KillDone) as [->|Hk]
    by (destruct l; first [by left | by right]); [by left|].
  exfalso. destruct (isTimerFire l) eqn:Ht.
  - destruct l as [|i| | | | | | | |]; try discriminate.
    pose proof H as H'. apply step_timer in H' as (cb & Hi & _).
    simpl in Ho. rewrite Hi in Ho. simpl in Ho.
    by apply (quiet_callback i cb s s' Hi H (or_introl Ho)).
  - destruct (quiet_label l s s' Ht Ho Hl Hk H) as (emitted & Hout & Hall).
    by apply (not_wrote s s' emitted).
Qed.

(** The relay intervals: a turn leaves their number as it is, except a
    tick that read a termination line, which clears its interval, and a
    launch finalizer that finds the sentinel in the buffer, which starts
    one. The closing flag plays no part in it. *)
Lemma intervals_step (l : Label) (s s' : Session) :
  step l s = Some ((), s') →
  intervals s' = intervals s
  ∨ (l = IntervalTick ∧ S (intervals s') = intervals s)
  ∨ (∃ i response args,
       l = TimerFire i
       ∧ timeouts s !! i = Some (CbLaunchRequestFinalize response args)
       ∧ END_MARKER ∈ fullDebugOutput s
       ∧ intervals s' = S (intervals s)).
Proof.
  intros H. destruct s as [led out ix busy closing pr ex lsn ts iv rs kc ff tr].
  destruct l as [seq rq|i| |i data|i| | | | |]; try done; unfold step in H;
    [destruct rq; unfold dispatchRequest in H
    |mexec H; destruct (ts !! i) as [[]|] eqn:E; [..|done]; unfold runCallback in H
    |..];
    simpl in *; try mexec H;
    repeat (case_match; simplify_eq; try mexec H);
    try rewrite forEach_onExit in H; simplify_eq; frame_loops; simpl;
    try (by left); try (by destruct lsn; left).
  - right. right. exists i, response, args. by apply bool_decide_eq_true in H0.
  - right. left. split; [done|]. destruct iv; [done|simpl; lia].
Qed.

(** A gated request, arriving or retried, that finds the busy flag clear
    writes its command, closing or not. *)
Lemma offer_free_writes (l : Label) (s s' : Session) :
  offersCommand l s = true → debuggerExecutableBusy s = false →
  step l s = Some ((), s') → wrote s s'.
Proof.
  intros Ho Hb H.
  destruct (offers_cases l s s' Ho H) as (cb & s0 & Hcb & Hrun & Eb & _ & _ & Eo & _).
  pose proof (runCallback_retry cb s0 s' Hcb Hrun) as Ht.
  rewrite Eb, Hb in Ht. destruct Ht as (_ & p & text & acks & _ & (_ & _ & Hout & _) & _).
  exists text. unfold newOutput. rewrite Hout, Eo, drop_app_length. by left.
Qed.

(** C5 (as the code has it). The child's exit event, once a disconnect
    registered its listener, sets the closing flag. From then on every
    [scheduleExecution] is a no-op: the flag stays set, no turn adds a
    [setTimeout] callback, a fired one is gone for good, so those pending at
    exit run at most once each. A fired completion poller, or any
    [setTimeout] callback that is not the retry of a request, or a retry
    that finds the gate busy, writes nothing to the child. The flag stops
    nothing else. A turn writes to the child only if it is a gated request,
    arriving or retried by its timer, that finds the busy flag clear, or a
    launch, or the kill callback of a disconnect; and such a gated request
    does write, closing or not. The number of relay intervals changes only
    when a tick reads a termination line, by one less, or when a launch
    finalizer finds the sentinel, by one more. *)
Theorem quiescence_after_exit :
  (∀ s s', exitListeners s ≠ [] → step ProcessExit s = Some ((), s') →
           debuggerExecutableClosing s' = true)
  ∧ (∀ cb s, debuggerExecutableClosing s = true → scheduleExecution cb s = Some ((), s))
  ∧ (∀ l s s', debuggerExecutableClosing s = true → step l s = Some ((), s') →
               debuggerExecutableClosing s' = true
               ∧ timeouts s' = match l with
                               | TimerFire i => delete i (timeouts s)
                               | _ => timeouts s
                               end)
  ∧ (∀ ls s s', debuggerExecutableClosing s = true → run ls s = Some ((), s') →
                debuggerExecutableClosing s' = true
                ∧ (length (filter (λ l, isTimerFire l = true) ls) + length (timeouts s')
                   = length (timeouts s))%nat)
  ∧ (∀ i cb s s', timeouts s !! i = Some cb → step (TimerFire i) s = Some ((), s') →
                  isRetry cb = false ∨ debuggerExecutableBusy s = true →
                  ¬ wrote s s')
  ∧ (∀ l s s', step l s = Some ((), s') → wrote s s' →
               l = KillDone ∨ isLaunch l = true
               ∨ (offersCommand l s = true ∧ debuggerExecutableBusy s = false))
  ∧ (∀ l s s', offersCommand l s = true → debuggerExecutableBusy s = false →
               step l s = Some ((), s') → wrote s s')
  ∧ (∀ l s s', step l s = Some ((), s') →
               intervals s' = intervals s
               ∨ (l = IntervalTick ∧ S (intervals s') = intervals s)
               ∨ (∃ i response args,
                    l = TimerFire i
                    ∧ timeouts s !! i = Some (CbLaunchRequestFinalize response args)
                    ∧ END_MARKER ∈ fullDebugOutput s
                    ∧ intervals s' = S (intervals s))).
Proof.
  split; [|split; [|split; [|split; [|split; [|split; [|split]]]]]].
  - intros s s' Hl H. apply step_exit in H as (_ & _ & _ & _ & ->).
    rewrite bool_decide_eq_true_2 by done. apply orb_true_r.
  - intros cb s Hc. unfold scheduleExecution. mred. by rewrite Hc.
  - apply closing_step.
  - apply closing_run.
  - apply quiet_callback.
  - apply writes_classified.
  - apply offer_free_writes.
  - apply intervals_step.
Qed.

Lemma quiescence_after_exit_witness :
  debuggerExecutableClosing
    (exec (sampleExited ++ [TimerFire 0; TimerFire 0; TimerFire 0]) initial) = true
  ∧ (3 + length (timeouts (exec (sampleExited ++ [TimerFire 0; TimerFire 0; TimerFire 0])
                             initial))
     = length (timeouts (exec sampleExited initial)))%nat.
Proof.
  apply (proj1 (proj2 (proj2 (proj2 quiescence_after_exit)))
           [TimerFire 0; TimerFire 0; TimerFire 0] (exec sampleExited initial));
    vm_compute; reflexivity.
Defined.


(** C5, the claim as stated fails: the retry of a request that was pending
    when the child exited still writes its command, because the disconnect
    cleared the busy flag. *)
Lemma retry_writes_after_exit :
  run sampleExited initial = Some ((), exec sampleExited initial)
  ∧ exited (exec sampleExited initial) = true
  ∧ debuggerExecutableClosing (exec sampleExited initial) = true
  ∧ timeouts (exec sampleExited initial) !! 3%nat
    = Some (CbStepRequest Next {| request_seq := 3; body := None |})
  ∧ ∃ s', step (TimerFire 3) (exec sampleExited initial) = Some ((), s')
          ∧ wrote (exec sampleExited initial) s'.
Proof.
  repeat split; try (vm_compute; reflexivity).
  eexists. split; [vm_compute; reflexivity|].
  apply wrote_check. vm_compute. reflexivity.
Qed.

End Quiescence.

(** * The variables request *)

Section Variables.

(** C8 (as the code has it). A variables request that the gate admits
    writes one fixed text, whatever its arguments: [info program], then a
    marker/value pair for each of the working directory [PWD], the exit
    status [?] and the positional parameters [0] to [9], then the sentinel. *)
Theorem variables_query_fixed (response : Response) (args : VariablesArguments)
    (s : Session) :
  debuggerExecutableBusy s = false →
  debuggerProcess s = true →
  ∃ s',
    variablesRequest response args s = Some ((), s')
    ∧ output s' = output s ++ [StdinWrite (getVariablesCommand +:+ printMarker)]
    ∧ variableNames = ["PWD"; "?"; "0"; "1"; "2"; "3"; "4"; "5"; "6"; "7"; "8"; "9"]
    ∧ getVariablesCommand
      = "info program" +:+ JS.nl +:+ concatChunks (variableQuery <$> variableNames)
    ∧ ∀ args', ∃ s'', variablesRequest response args' s = Some ((), s'')
                      ∧ output s'' = output s'.
Proof.
  intros Hb Hp. destruct s as [led out ix busy closing pr ex lsn ts iv rs kc ff tr].
  simpl in Hb, Hp. subst busy pr.
  destruct closing;
    (eexists; split;
     [unfold variablesRequest, stdinWrite, scheduleExecution, emit, currentLength;
      mred; simpl; reflexivity|]);
    simpl; (split; [done|]); (split; [done|]); (split; [by vm_compute|]);
    intros args'; (eexists; split;
     [unfold variablesRequest, stdinWrite, scheduleExecution, emit, currentLength;
      mred; simpl; reflexivity|]); done.
Qed.

Lemma variables_query_fixed_witness :
  ∃ s',
    variablesRequest {| request_seq := 5; body := None |} {| variablesReference := 1 |}
      (exec [Incoming 1 (RqLaunch sampleLaunch)] initial) = Some ((), s')
    ∧ last (output s') = Some (StdinWrite (getVariablesCommand +:+ printMarker)).
Proof.
  destruct (variables_query_fixed {| request_seq := 5; body := None |}
              {| variablesReference := 1 |}
              (exec [Incoming 1 (RqLaunch sampleLaunch)] initial))
    as (s' & Hrun & Hout & _); [reflexivity|reflexivity|].
  exists s'. split; [exact Hrun|]. rewrite Hout. apply last_snoc.
Defined.

(** C8, the claim as stated fails: the text a variables request writes
    queries no process id, under none of the names bash keeps one. *)
Lemma variables_request_skips_pid :
  ∃ s' text,
    variablesRequest {| request_seq := 5; body := None |} {| variablesReference := 1 |}
      (exec [Incoming 1 (RqLaunch sampleLaunch)] initial) = Some ((), s')
    ∧ last (output s') = Some (StdinWrite text)
    ∧ Forall (λ v, JS.indexOf text ("examine $" +:+ v +:+ JS.nl) = -1) pidNames
    ∧ Forall (λ v, v ∉ variableNames) pidNames.
Proof.
  eexists _, _. split; [vm_compute; reflexivity|]. split; [vm_compute; reflexivity|].
  split.
  - repeat (apply Forall_cons_2; [vm_compute; reflexivity|]). apply Forall_nil_2.
  - unfold pidNames, variableNames.
    repeat (apply Forall_cons_2;
            [intros Hin; apply list_elem_of_In in Hin; simpl in Hin;
             intuition discriminate|]).
    apply Forall_nil_2.
Qed.

End Variables.


(** * Printing and parsing integers *)

Section Numbers.

Lemma digits_uint (d : Decimal.uint) (a : Z) :
  JS.digits 10 (NilEmpty.string_of_uint d) (Some a)
  = Some (a * 10 ^ Z.of_N (Unsigned.usize d) + Z.of_N (Unsigned.of_lu (Decimal.rev d))).
Proof.
  revert a. induction d; intros a; simpl NilEmpty.string_of_uint;
    [simpl; f_equal; lia|..];
    (match goal with
     | |- context [Decimal.rev (?f d)] =>
         change (Decimal.rev (f d)) with (Decimal.revapp d (f Decimal.Nil))
     end;
     rewrite Unsigned.of_lu_revapp;
     change (JS.digits 10 (String ?c ?s) (Some a))
       with (JS.digits 10 s (Some (10 * a + (Z.of_nat (nat_of_ascii c) - 48))));
     rewrite IHd; f_equal;
     simpl Unsigned.of_lu; simpl Unsigned.usize;
     match goal with
     | |- context [Z.of_nat (nat_of_ascii ?c)] =>
         let v := eval vm_compute in (Z.of_nat (nat_of_ascii c)) in
         change (Z.of_nat (nat_of_ascii c)) with v
     end;
     rewrite N2Z.inj_succ, Z.pow_succ_r by lia;
     rewrite N2Z.inj_add, N2Z.inj_mul, N2Z.inj_pow; simpl Z.of_N; ring).
Qed.

Lemma digits_uint_start (d : Decimal.uint) :
  d ≠ Decimal.Nil →
  JS.digits 10 (NilEmpty.string_of_uint d) None
  = Some (Z.of_N (Unsigned.of_lu (Decimal.rev d))).
Proof.
  intros Hd. pose proof (digits_uint d 0) as H.
  destruct d; [done|..]; simpl NilEmpty.string_of_uint in *;
    (change (JS.digits 10 (String ?c ?s) None)
       with (JS.digits 10 s (Some (10 * 0 + (Z.of_nat (nat_of_ascii c) - 48))));
     change (JS.digits 10 (String ?c ?s) (Some 0))
       with (JS.digits 10 s (Some (10 * 0 + (Z.of_nat (nat_of_ascii c) - 48)))) in H;
     rewrite H; f_equal; ring).
Qed.

Lemma parseInt_uint (p : positive) :
  JS.parseInt (NilEmpty.string_of_uint (Pos.to_uint p)) = JS.Num (Z.pos p).
Proof.
  pose proof (digits_uint_start (Pos.to_uint p) (Unsigned.to_uint_nonnil p)) as H.
  rewrite <- Unsigned.of_uint_alt, Unsigned.of_to in H. simpl Z.of_N in H.
  unfold JS.parseInt.
  destruct (Pos.to_uint p) as [|d|d|d|d|d|d|d|d|d|d] eqn:E;
    [by destruct (Unsigned.to_uint_nonnil p)|destruct d|..];
    simpl NilEmpty.string_of_uint in *; cbn -[JS.digits Z.mul];
    rewrite H; f_equal; lia.
Qed.

Lemma string_of_uint_nonnil (d : Decimal.uint) :
  d ≠ Decimal.Nil → NilZero.string_of_uint d = NilEmpty.string_of_uint d.
Proof. by destruct d. Qed.

Lemma parseInt_toString (z : Z) : JS.parseInt (JS.toString (JS.Num z)) = JS.Num z.
Proof.
  unfold JS.toString. destruct z as [|p|p]; [reflexivity|..]; unfold Z.to_int;
    unfold NilZero.string_of_int;
    rewrite string_of_uint_nonnil by apply Unsigned.to_uint_nonnil.
  - apply parseInt_uint.
  - pose proof (parseInt_uint p) as Hp. unfold JS.parseInt in *.
    pose proof (Unsigned.to_uint_nonnil p) as Hn.
    destruct (Pos.to_uint p) as [|d|d|d|d|d|d|d|d|d|d] eqn:E;
      [done|destruct d|..];
      simpl NilEmpty.string_of_uint in *; cbn -[JS.digits Z.mul] in *;
      destruct (JS.digits 10 _ None); simplify_eq; f_equal; lia.
Qed.


End Numbers.


(** * The content of the line buffer *)

Section Reassembly.

(** Splitting a concatenation: the last piece of the first part is joined
    with the first piece of the second. *)
Lemma split_app (sep : ascii) (a b : string) :
  JS.split sep (a +:+ b)
  = removelast (JS.split sep a)
    ++ (default "" (last (JS.split sep a)) +:+ default "" (head (JS.split sep b)))
       :: tail (JS.split sep b).
Proof.
  induction a as [|c a IH].
  - rewrite str_app_nil_l. simpl. pose proof (split_nonempty sep b).
    by destruct (JS.split sep b).
  - rewrite str_app_cons. simpl. pose proof (split_nonempty sep a) as Ha.
    destruct (decide (c = sep)) as [->|Hne].
    + rewrite IH. destruct (JS.split sep a) as [|x l]; [done|]. done.
    + rewrite IH. destruct (JS.split sep a) as [|x [|y l]]; [done| |]; simpl.
      * by rewrite str_app_cons.
      * done.
Qed.

Lemma beginsWith_app (p x y : string) : beginsWith p x → beginsWith p (x +:+ y).
Proof. intros [t ->]. exists (t +:+ y). by rewrite str_app_assoc. Qed.

Lemma split_last_snoc (sep : ascii) (a : string) :
  JS.split sep a = removelast (JS.split sep a) ++ [default "" (last (JS.split sep a))].
Proof.
  pose proof (split_nonempty sep a) as Hne.
  destruct (JS.split sep a) as [|x l] using rev_ind; [done|].
  by rewrite removelast_last, last_snoc.
Qed.

Lemma noPrompt_prefix (sep : ascii) (a b : string) :
  Forall (λ l, ¬ beginsWith "bashdb<" l) (JS.split sep (a +:+ b)) →
  Forall (λ l, ¬ beginsWith "bashdb<" l) (JS.split sep a).
Proof.
  intros H. rewrite split_app in H. apply Forall_app in H as [H1 [H2 _]%Forall_cons].
  rewrite (split_last_snoc sep a). apply Forall_app. split; [done|].
  apply Forall_singleton. intros Hb. apply H2. by apply beginsWith_app.
Qed.

Lemma pushData_split (a b : string) :
  Forall (λ l, ¬ beginsWith "bashdb<" l) (JS.split "010" (a +:+ b)) →
  pushData (JS.split "010" a) b = JS.split "010" (a +:+ b).
Proof.
  intros H. rewrite split_app in H |- *. unfold pushData.
  pose proof (split_nonempty "010" a) as Ha. pose proof (split_nonempty "010" b) as Hb.
  apply Forall_app in H as [_ [H1 H2]%Forall_cons].
  f_equal. destruct (last (JS.split "010" a)) as [x|] eqn:E; [|by apply last_None in E].
  destruct (JS.split "010" b) as [|y l]; [done|]. simpl in *.
  rewrite removePrompt_other by done. f_equal.
  clear -H2. induction H2 as [|z l Hz _ IH]; [done|].
  rewrite fmap_cons, removePrompt_other by done. by f_equal.
Qed.

Lemma foldl_pushData_split (chunks : list string) (a : string) :
  Forall (λ l, ¬ beginsWith "bashdb<" l) (JS.split "010" (a +:+ concatChunks chunks)) →
  foldl pushData (JS.split "010" a) chunks = JS.split "010" (a +:+ concatChunks chunks).
Proof.
  revert a. induction chunks as [|c cs IH]; intros a H; simpl in *.
  - by rewrite str_app_nil_r.
  - change (String.append c (concatChunks cs)) with (c +:+ concatChunks cs) in *.
    rewrite <- str_app_assoc in H |- *.
    rewrite pushData_split by (by eapply noPrompt_prefix). by apply IH.
Qed.

(** X1. Content of the line buffer: when no line of the stream begins with
    the prompt prefix, the buffer that started as the one empty line holds,
    after all chunks and whatever the chunking, exactly the lines of the
    concatenated stream split on newline. *)
Theorem reassembly_content (chunks : list string) :
  Forall (λ l, ¬ beginsWith "bashdb<" l) (JS.split "010" (concatChunks chunks)) →
  foldl pushData [""] chunks = JS.split "010" (concatChunks chunks).
Proof. intros H. by apply (foldl_pushData_split chunks ""). Qed.

Lemma reassembly_content_witness :
  foldl pushData [""] ["exa"; "mine" +:+ JS.nl +:+ "7"] = ["examine"; "7"].
Proof.
  apply (reassembly_content ["exa"; "mine" +:+ JS.nl +:+ "7"]).
  repeat constructor; by intros [t Ht].
Defined.



Lemma lookup_removelast {A} (l : list A) (i : nat) :
  (i + 1 < length l)%nat → removelast l !! i = l !! i.
Proof.
  revert i. induction l as [|x l IH]; intros i Hi; [done|].
  destruct l as [|y l]; [simpl in Hi; lia|].
  change (removelast (x :: y :: l)) with (x :: removelast (y :: l)).
  destruct i as [|i]; [done|]. simpl. apply IH. simpl in *. lia.
Qed.

Lemma pushData_frozen (out : list string) (data : string) (i : nat) :
  (i + 1 < length out)%nat → pushData out data !! i = out !! i.
Proof.
  intros Hi. unfold pushData. rewrite lookup_app_l.
  - by apply lookup_removelast.
  - rewrite length_removelast. lia.
Qed.

(** X3. Only the last line of the buffer is open: along any run every
    line but the last keeps its index and its text, and the buffer never
    gets shorter. *)
Theorem lines_frozen (ls : list Label) (s s' : Session) (i : nat) :
  run ls s = Some ((), s') →
  (i + 1 < length (fullDebugOutput s))%nat →
  fullDebugOutput s' !! i = fullDebugOutput s !! i
  ∧ (length (fullDebugOutput s) ≤ length (fullDebugOutput s'))%nat.
Proof.
  revert s. induction ls as [|l ls IH]; intros s H Hi.
  - apply run_nil in H as ->. done.
  - apply run_cons in H as (s1 & Hstep & Hrun).
    destruct (step_buffer_grows l s s1 Hstep) as [Hlen _].
    destruct (IH s1 Hrun) as [E Hlen']; [lia|]. split; [|lia].
    rewrite E, (step_buffer l s s1 Hstep). destruct l; try done.
    by apply pushData_frozen.
Qed.


Lemma lines_frozen_witness :
  fullDebugOutput (exec (sampleBreakpointsSubmitted ++ [StreamData 0 sampleConfirmations])
                     initial) !! 0%nat
  = Some END_MARKER.
Proof.
  destruct (lines_frozen [StreamData 0 sampleConfirmations]
              (exec sampleBreakpointsSubmitted initial)
              (exec (sampleBreakpointsSubmitted ++ [StreamData 0 sampleConfirmations]) initial)
              0) as [H _]; [vm_compute; reflexivity|vm_compute; lia|].
  rewrite H. vm_compute. reflexivity.
Defined.

End Reassembly.


(** * The relay of stop and termination events *)

Section Relay.

Lemma index_lookup {A} (l : list A) (i : Z) : 0 ≤ i → JS.index l i = l !! Z.to_nat i.
Proof. intros H. unfold JS.index. destruct (i <? 0) eqn:E; [lia|done]. Qed.

Lemma relayLoop_spec (n : nat) :
  ∀ (cleared : bool) (s : Session),
    0 ≤ fullDebugOutputIndex s →
    fullDebugOutputIndex s + Z.of_nat n ≤ Z.of_nat (length (fullDebugOutput s)) →
    let events := omap relayEvent
                    (take n (drop (Z.to_nat (fullDebugOutputIndex s)) (fullDebugOutput s))) in
    relayLoop n cleared s
    = Some (cleared || existsb isTerminated events,
            upd_output (λ o, o ++ (SendEvent <$> events))
              (upd_fullDebugOutputIndex (λ i, i + Z.of_nat n) s)).
Proof.
  induction n as [|n IH]; intros cleared s Hix Hn.
  - simpl. rewrite orb_false_r. destruct s. simpl. rewrite app_nil_r.
    unfold mret, M_ret. repeat f_equal. lia.
  - destruct s as [led out ix busy closing pr ex lsn ts iv rs kc ff tr]. simpl in *.
    destruct (lookup_lt_is_Some_2 out (Z.to_nat ix)) as [line Hline]; [lia|].
    rewrite (drop_S _ _ _ Hline). simpl take. simpl omap.
    simpl relayLoop. unfold sendEvent, emit. mred. simpl.
    rewrite index_lookup, Hline by done. mred.
    replace (drop (S (Z.to_nat ix)) out) with (drop (Z.to_nat (ix + 1)) out)
      by (f_equal; lia).
    assert (Hev : ∃ e, relayEvent line = e) by eauto. destruct Hev as [e Hev].
    rewrite Hev. unfold relayEvent in Hev.
    destruct (bool_decide (JS.indexOf line "(/" = 0)
              && bool_decide (JS.indexOf line "):" = Z.of_nat (String.length line) - 2));
      [|destruct (bool_decide (JS.indexOf line "terminated" > 0))];
      subst e; mred; simpl; rewrite IH by (simpl; lia); simpl;
      rewrite <- ?app_assoc, ?orb_true_r, ?orb_false_r, ?orb_true_l; simpl;
      replace (ix + Z.of_nat (S n)) with (ix + 1 + Z.of_nat n) by lia; reflexivity.
Qed.

Lemma onInterval_summary (s : Session) :
  0 ≤ fullDebugOutputIndex s ≤ Z.of_nat (length (fullDebugOutput s)) →
  let events := omap relayEvent (unread s) in
  ∃ s',
    onInterval s = Some ((), s')
    ∧ output s' = output s ++ (SendEvent <$> events)
    ∧ fullDebugOutputIndex s'
      = Z.max (fullDebugOutputIndex s) (Z.of_nat (length (fullDebugOutput s)) - 1)
    ∧ fullDebugOutput s' = fullDebugOutput s
    ∧ intervals s' = (if existsb isTerminated events then pred (intervals s)
                      else intervals s)
    ∧ timeouts s' = timeouts s
    ∧ readStreams s' = readStreams s.
Proof.
  intros [Hix Hlen] events. unfold onInterval. mred.
  rewrite (relayLoop_spec _ false s Hix) by lia. fold (unread s). fold events.
  simpl orb. destruct s as [led out ix busy closing pr ex lsn ts iv rs kc ff tr].
  simpl in *. destruct (existsb isTerminated events); mred; simpl;
    (eexists; split; [reflexivity|]); simpl; (split; [done|]); (split; [lia|]); done.
Qed.

(** X4. One tick of the relay: it returns, reads every complete line it has
    not read yet, in order, sends for each the event of that line and
    nothing else, leaves the buffer as it is, stops the interval exactly
    when one of these lines announced the termination, and leaves no
    complete line unread. *)
Theorem relay_reads_each_line_once (s : Session) :
  0 ≤ fullDebugOutputIndex s ≤ Z.of_nat (length (fullDebugOutput s)) →
  let events := omap relayEvent (unread s) in
  ∃ s',
    onInterval s = Some ((), s')
    ∧ output s' = output s ++ (SendEvent <$> events)
    ∧ fullDebugOutput s' = fullDebugOutput s
    ∧ intervals s' = (if existsb isTerminated events then pred (intervals s)
                      else intervals s)
    ∧ unread s' = [].
Proof.
  intros Hix events.
  destruct (onInterval_summary s Hix) as (s' & Hrun & Hout & Hix' & Hbuf & Hiv & _).
  exists s'. repeat split; try done.
  unfold unread. rewrite Hix', Hbuf.
  replace (Z.to_nat _) with 0%nat at 1 by lia. done.
Qed.

Lemma relay_reads_each_line_once_witness :
  ∃ s', onInterval (exec sampleSecondRound initial) = Some ((), s') ∧ unread s' = [].
Proof.
  destruct (relay_reads_each_line_once (exec sampleSecondRound initial))
    as (s' & Hrun & _ & _ & _ & Hunread); [vm_compute; by split|].
  exists s'. split; [exact Hrun|exact Hunread].
Defined.

Lemma step_cursor (l : Label) (s s' : Session) :
  step l s = Some ((), s') → l ≠ IntervalTick →
  fullDebugOutputIndex s' = fullDebugOutputIndex s.
Proof.
  intros H Hl. destruct s as [led out ix busy closing pr ex lsn ts iv rs kc ff tr].
  destruct l as [seq rq|i| |i data|i| | | | |]; try done; unfold step in H;
    [destruct rq; unfold dispatchRequest in H
    |mexec H; destruct (ts !! i) as [[]|] eqn:E; [..|done]; unfold runCallback in H
    |..];
    simpl in *; try mexec H;
    repeat (case_match; simplify_eq; try mexec H);
    try rewrite forEach_onExit in H; simplify_eq; frame_loops;
    try (by destruct lsn); done.
Qed.

Lemma cursor_inv_step (l : Label) (s s' : Session) :
  cursor_inv s → step l s = Some ((), s') → cursor_inv s'.
Proof.
  intros [H0 H1] H. unfold cursor_inv.
  assert (l = IntervalTick ∨ l ≠ IntervalTick) as [->|Hl]
    by (destruct l; first [by left | by right]).
  - unfold step in H. mred_in H. destruct (bool_decide (intervals s = 0%nat)); [done|].
    destruct (onInterval_summary s) as (s1 & Hrun & _ & Hix & Hout & _); [lia|].
    rewrite Hrun in H. simplify_eq. rewrite Hix, Hout. lia.
  - rewrite (step_cursor l s s' H Hl).
    destruct (step_buffer_grows l s s' H) as [Hlen _]. lia.
Qed.

(** X5. The relay cursor: in every state the session reaches the cursor is
    an index of the buffer, so a tick of the relay never reads past the
    end; it goes through and leaves the cursor on the last, open line. *)
Theorem relay_cursor_in_range (ls : list Label) (s : Session) :
  run ls initial = Some ((), s) →
  0 ≤ fullDebugOutputIndex s ≤ Z.of_nat (length (fullDebugOutput s)) - 1
  ∧ (intervals s ≠ 0%nat → ∃ s', step IntervalTick s = Some ((), s')
                                  ∧ fullDebugOutputIndex s'
                                    = Z.of_nat (length (fullDebugOutput s')) - 1).
Proof.
  intros Hrun.
  assert (Hinv : cursor_inv s).
  { revert Hrun. generalize initial, (conj (Z.le_refl 0) (Z.le_refl 0) : cursor_inv initial).
    induction ls as [|l ls IH]; intros s0 Hs0 Hrun.
    - by apply run_nil in Hrun as ->.
    - apply run_cons in Hrun as (s1 & Hstep & Hrun). eauto using cursor_inv_step. }
  split; [done|]. intros Hiv. destruct Hinv as [H0 H1].
  destruct (onInterval_summary s) as (s1 & Hrun1 & _ & Hix & Hout & _); [lia|].
  exists s1. split.
  - unfold step. mred. rewrite bool_decide_eq_false_2 by done. exact Hrun1.
  - rewrite Hix, Hout. lia.
Qed.


Lemma relay_cursor_in_range_witness :
  0 ≤ fullDebugOutputIndex (exec sampleSecondRound initial)
  ≤ Z.of_nat (length (fullDebugOutput (exec sampleSecondRound initial))) - 1.
Proof.
  destruct (relay_cursor_in_range sampleSecondRound (exec sampleSecondRound initial))
    as [H _]; [vm_compute; reflexivity|exact H].
Defined.

End Relay.


(** * Launches, readers and the first sentinel *)

Section Launch.

Lemma countb_app {A} (f : A → bool) (l1 l2 : list A) :
  countb f (l1 ++ l2) = (countb f l1 + countb f l2)%nat.
Proof. unfold countb. by rewrite List.filter_app, length_app. Qed.

Lemma countb_delete {A} (f : A → bool) (l : list A) (i : nat) (x : A) :
  l !! i = Some x →
  (countb f (delete i l) + (if f x then 1 else 0))%nat = countb f l.
Proof.
  unfold countb. revert i. induction l as [|y l IH]; intros [|i] Hi; simplify_eq/=.
  - destruct (f x); simpl; lia.
  - specialize (IH i Hi). destruct (f y); simpl; lia.
Qed.

Lemma relayLoop_events (n : nat) :
  ∀ cleared s x s',
    relayLoop n cleared s = Some (x, s') →
    ∃ ix evs, s' = upd_output (λ o, o ++ evs) (upd_fullDebugOutputIndex (λ _, ix) s)
              ∧ Forall isRelayed evs.
Proof.
  induction n as [|n IH]; intros cleared s x s' H; simpl in H; mred_in H.
  - simplify_eq. exists (fullDebugOutputIndex s'), []. split; [|done].
    destruct s'. simpl. by rewrite app_nil_r.
  - unfold sendEvent, emit in H. mred_in H.
    repeat (case_match; simplify_eq); apply IH in H as (ix & evs & -> & Hevs).
    + exists ix, (SendEvent (StoppedEvent "break" THREAD_ID) :: evs).
      split; [|constructor; [by left|done]]. destruct_sessions. simpl. by rewrite <- app_assoc.
    + exists ix, (SendEvent TerminatedEvent :: evs).
      split; [|constructor; [by right|done]]. destruct_sessions. simpl. by rewrite <- app_assoc.
    + exists ix, evs. split; [|done]. by destruct_sessions.
Qed.

Lemma countb_relayed (f : Output → bool) (evs : list Output) :
  f (SendEvent (StoppedEvent "break" THREAD_ID)) = false →
  f (SendEvent TerminatedEvent) = false →
  Forall isRelayed evs → countb f evs = 0%nat.
Proof.
  intros H1 H2 H. unfold countb. induction H as [|o evs [->| ->] _ IH]; simpl; [done|..].
  - by rewrite H1.
  - by rewrite H2.
Qed.

Lemma filter_responses (l : list Response) :
  List.filter isInitialized (SendResponse <$> l) = [].
Proof. induction l; simpl; done. Qed.

Lemma step_accounts (l : Label) (s s' : Session) :
  debuggerExecutableClosing s = false →
  step l s = Some ((), s') →
  readers s' = (readers s + (if isLaunch l then 1 else 0))%nat
  ∧ launchesAccounted s' = (launchesAccounted s + (if isLaunch l then 1 else 0))%nat.
Proof.
  intros Hc H.
  destruct s as [led out ix busy closing pr ex lsn ts iv rs kc ff tr]. simpl in Hc. subst closing.
  unfold readers, launchesAccounted.
  destruct l as [seq rq|i| |i data|i| | | | |]; try done; unfold step in H;
    [destruct rq; unfold dispatchRequest in H
    |mexec H; destruct (ts !! i) as [[]|] eqn:E; [..|done]; unfold runCallback in H;
     pose proof (countb_delete isReaderCallback ts i _ E) as Hr;
     pose proof (countb_delete isLaunchFinalizer ts i _ E) as Hf
    |..];
    simpl in *; try mexec H;
    repeat (case_match; simplify_eq; try mexec H);
    try rewrite forEach_onExit in H; simplify_eq;
    try match goal with
      | H : relayLoop _ _ _ = Some _ |- _ =>
          apply relayLoop_events in H as (? & ? & -> & Hev);
          apply (countb_relayed isInitialized) in Hev; [|done..]
      end;
    frame_loops; simpl;
    rewrite ?countb_app, ?length_app, ?Hev; unfold countb in *; simpl in *; try lia.
  - pose proof (lookup_lt_Some _ _ _ H). rewrite length_delete by eauto. lia.
  - destruct lsn as [|r lsn]; [simpl; lia|]. cbn [readStreams timeouts output].
    rewrite List.filter_app, length_app, filter_responses. simpl. lia.
Qed.

(** X6. While no disconnect is requested, every launch keeps exactly one
    reader of the debugger's answers alive, as an open stream or as a
    pending attempt to open it, and is either still waiting for the first
    sentinel or was answered by exactly one [InitializedEvent]. *)
Theorem launch_accounted (ls : list Label) (s : Session) :
  Forall (λ l, isDisconnect l = false) ls →
  run ls initial = Some ((), s) →
  readers s = countb isLaunch ls ∧ launchesAccounted s = countb isLaunch ls.
Proof.
  intros Hnd Hrun.
  assert (Hgen : ∀ s0, gate_inv s0 → run ls s0 = Some ((), s) →
            readers s = (readers s0 + countb isLaunch ls)%nat
            ∧ launchesAccounted s = (launchesAccounted s0 + countb isLaunch ls)%nat).
  { clear Hrun. induction ls as [|l ls IH]; intros s0 Hinv Hrun.
    - apply run_nil in Hrun as ->. unfold countb. simpl. lia.
    - apply Forall_cons in Hnd as [Hl Hls].
      apply run_cons in Hrun as (s1 & Hstep & Hrun).
      destruct (step_accounts l s0 s1 (proj1 Hinv) Hstep) as [Hr Ha].
      destruct (IH Hls s1 (gate_inv_step l s0 s1 Hinv Hl Hstep) Hrun) as [Hr' Ha'].
      rewrite Hr', Ha', Hr, Ha. unfold countb. simpl. destruct (isLaunch l); simpl; lia. }
  destruct (Hgen initial gate_inv_initial Hrun) as [Hr Ha]. by rewrite Hr, Ha.
Qed.


Lemma launch_accounted_witness :
  readers (exec sampleBreakpointsSubmitted initial) = 1%nat
  ∧ launchesAccounted (exec sampleBreakpointsSubmitted initial) = 1%nat.
Proof.
  apply (launch_accounted sampleBreakpointsSubmitted);
    [repeat constructor|vm_compute; reflexivity].
Defined.

End Launch.


(** * Every body is sent once *)

Section Answers.

Lemma step_bodies (seq : Z) (l : Label) (s s' : Session) :
  debuggerExecutableClosing s = false → exitListeners s = [] →
  countb holdsBody (timeouts s) = 0%nat →
  step l s = Some ((), s') →
  countb holdsBody (timeouts s') = 0%nat
  ∧ (countb (owesBody seq) (timeouts s') + countb (isBodyFor seq) (output s')
     = countb (owesBody seq) (timeouts s) + countb (isBodyFor seq) (output s)
       + (if asksBody seq l then 1 else 0))%nat.
Proof.
  intros Hc Hl Hb H.
  destruct s as [led out ix busy closing pr ex lsn ts iv rs kc ff tr].
  simpl in Hc, Hl, Hb. subst closing lsn.
  destruct l as [q rq|i| |i data|i| | | | |]; try done; unfold step in H;
    [destruct rq; unfold dispatchRequest in H
    |mexec H; destruct (ts !! i) as [[]|] eqn:E; [..|done]; unfold runCallback in H;
     pose proof (countb_delete holdsBody ts i _ E) as Hr;
     pose proof (countb_delete (owesBody seq) ts i _ E) as Hf
    |..];
    repeat match goal with r : Response |- _ => destruct r as [? [?|]] end;
    simpl in *; try mexec H;
    repeat (case_match; simplify_eq; try mexec H);
    try rewrite forEach_onExit in H; simplify_eq;
    try match goal with
      | H : relayLoop _ _ _ = Some _ |- _ =>
          apply relayLoop_events in H as (? & ? & -> & Hev);
          apply (countb_relayed (isBodyFor seq)) in Hev; [|done..]
      end;
    frame_loops; simpl;
    rewrite ?countb_app, ?length_app, ?Hev; unfold countb, holdsBody, hasBody in *; simpl in *;
    repeat case_match; unfold hasBody in *; simpl in *;
    repeat match goal with
      | H : context [bool_decide ?P] |- _ => destruct (bool_decide P)
      | |- context [bool_decide ?P] => destruct (bool_decide P)
      end; simpl in *; try done; try lia.
Qed.

(** X7. While no disconnect is requested, the body of a response is never
    dropped and never sent twice: per sequence number, the requests asked
    that expect a body are as many as the retries and pollers pending plus
    the responses sent that carry a body. Responses without a body, which
    the set-breakpoints poller also sends, are not counted. *)
Theorem body_sent_once (seq : Z) (ls : list Label) (s : Session) :
  Forall (λ l, isDisconnect l = false) ls →
  run ls initial = Some ((), s) →
  (countb (owesBody seq) (timeouts s) + countb (isBodyFor seq) (output s))%nat
  = countb (asksBody seq) ls.
Proof.
  intros Hnd Hrun.
  assert (Hgen : ∀ s0, gate_inv s0 → countb holdsBody (timeouts s0) = 0%nat →
            run ls s0 = Some ((), s) →
            (countb (owesBody seq) (timeouts s) + countb (isBodyFor seq) (output s)
             = countb (owesBody seq) (timeouts s0) + countb (isBodyFor seq) (output s0)
               + countb (asksBody seq) ls)%nat).
  { clear Hrun. induction ls as [|l ls IH]; intros s0 Hinv Hb Hrun.
    - apply run_nil in Hrun as ->. unfold countb. simpl. lia.
    - apply Forall_cons in Hnd as [Hl Hls].
      apply run_cons in Hrun as (s1 & Hstep & Hrun).
      destruct Hinv as (Hc & Hx & Hp).
      destruct (step_bodies seq l s0 s1 Hc Hx Hb Hstep) as [Hb1 Ha].
      rewrite (IH Hls s1 (gate_inv_step l s0 s1 (conj Hc (conj Hx Hp)) Hl Hstep) Hb1 Hrun), Ha.
      unfold countb. simpl. destruct (asksBody seq l); simpl; lia. }
  by rewrite (Hgen initial gate_inv_initial eq_refl Hrun).
Qed.


Lemma body_sent_once_witness :
  (countb (owesBody 2) (timeouts (exec sampleSecondRound initial))
   + countb (isBodyFor 2) (output (exec sampleSecondRound initial)))%nat = 1%nat.
Proof.
  apply (body_sent_once 2 sampleSecondRound);
    [repeat constructor|vm_compute; reflexivity].
Defined.

End Answers.


(** * Disconnect and the exit of the child *)

Section Disconnect.

Lemma step_listeners (l : Label) (s s' : Session) :
  step l s = Some ((), s') →
  exitListeners s' = exitListeners s ++ requestedDisconnects [l]
  ∧ exited s' = exited s || isExit l
  ∧ debuggerExecutableClosing s'
    = debuggerExecutableClosing s || (isExit l && bool_decide (exitListeners s ≠ []))
  ∧ (isExit l = true → exited s = false).
Proof.
  intros H.
  destruct s as [led out ix busy closing pr ex lsn ts iv rs kc ff tr].
  destruct l as [q rq|i| |i data|i| | | | |]; try done; unfold step in H;
    [destruct rq; unfold dispatchRequest in H
    |mexec H; destruct (ts !! i) as [[]|] eqn:E; [..|done]; unfold runCallback in H
    |..];
    simpl in *; try mexec H;
    repeat (case_match; simplify_eq; try mexec H);
    try rewrite forEach_onExit in H; simplify_eq;
    frame_loops; simpl; rewrite ?app_nil_r, ?orb_false_r, ?orb_true_r; try done.
  destruct lsn, pr, ex, closing; simpl in *; done.
Qed.

Lemma countb_responses (seq : Z) (l : list Response) :
  countb (isResponseTo seq) (SendResponse <$> l)
  = countb (λ r, bool_decide (request_seq r = seq)) l.
Proof.
  unfold countb. induction l as [|r l IH]; [done|].
  rewrite fmap_cons. simpl. destruct (bool_decide (request_seq r = seq)); simpl; lia.
Qed.

Lemma step_silent (seq : Z) (l : Label) (s s' : Session) :
  usesResponse seq l = false →
  countb (carries seq) (timeouts s) = 0%nat →
  step l s = Some ((), s') →
  countb (carries seq) (timeouts s') = 0%nat
  ∧ countb (isResponseTo seq) (output s')
    = (countb (isResponseTo seq) (output s)
       + (if isExit l
          then countb (λ r, bool_decide (request_seq r = seq)) (exitListeners s)
          else 0))%nat.
Proof.
  intros Hl Hb H.
  assert (l = ProcessExit ∨ l ≠ ProcessExit) as [->|Hne]
    by (destruct l; first [by left | by right]).
  { apply step_exit in H as (_ & Ht & _ & Ho & _).
    by rewrite Ht, Ho, countb_app, countb_responses. }
  destruct s as [led out ix busy closing pr ex lsn ts iv rs kc ff tr].
  simpl in Hb.
  destruct l as [q rq|i| |i data|i| | | | |]; try done; unfold step in H;
    [destruct rq; unfold dispatchRequest in H
    |mexec H; destruct (ts !! i) as [[]|] eqn:E; [..|done]; unfold runCallback in H;
     pose proof (countb_delete (carries seq) ts i _ E) as Hr
    |..];
    repeat match goal with r : Response |- _ => destruct r as [? [?|]] end;
    simpl in *; try mexec H;
    repeat (case_match; simplify_eq; try mexec H);
    try rewrite forEach_onExit in H; simplify_eq;
    try match goal with
      | H : relayLoop _ _ _ = Some _ |- _ =>
          apply relayLoop_events in H as (? & ? & -> & Hev);
          apply (countb_relayed (isResponseTo seq)) in Hev; [|done..]
      end;
    frame_loops; simpl;
    rewrite ?countb_app, ?length_app, ?Hev; unfold countb, carries in *; simpl in *;
    repeat case_match; simpl in *;
    repeat match goal with
      | H : context [bool_decide ?P] |- _ => destruct (bool_decide P)
      | |- context [bool_decide ?P] => destruct (bool_decide P)
      end; simpl in *; try done; try lia.
Qed.

Lemma responsesTo_countb (seq : Z) (tr : list Output) :
  responsesTo seq tr = countb (isResponseTo seq) tr.
Proof.
  unfold responsesTo, countb. induction tr as [|o tr IH]; [done|].
  rewrite filter_cons. cbn [List.filter].
  destruct (decide (isResponseTo seq o = true)) as [E|E].
  - rewrite E. simpl. by rewrite IH.
  - apply not_true_is_false in E. rewrite E. done.
Qed.

Lemma run_exited (ls : list Label) :
  ∀ s0 s, run ls s0 = Some ((), s) → exited s = exited s0 || existsb isExit ls.
Proof.
  induction ls as [|l ls IH]; intros s0 s Hrun.
  - apply run_nil in Hrun as ->. by rewrite orb_false_r.
  - apply run_cons in Hrun as (s1 & Hstep & Hrun).
    apply step_listeners in Hstep as (_ & Hx & _).
    rewrite (IH _ _ Hrun), Hx. simpl. by rewrite orb_assoc.
Qed.

Lemma run_without_exit (seq : Z) (ls : list Label) :
  ∀ s0 s,
    Forall (λ l, usesResponse seq l = false) ls →
    existsb isExit ls = false →
    countb (carries seq) (timeouts s0) = 0%nat →
    run ls s0 = Some ((), s) →
    countb (carries seq) (timeouts s) = 0%nat
    ∧ exitListeners s = exitListeners s0 ++ requestedDisconnects ls
    ∧ debuggerExecutableClosing s = debuggerExecutableClosing s0
    ∧ countb (isResponseTo seq) (output s) = countb (isResponseTo seq) (output s0).
Proof.
  induction ls as [|l ls IH]; intros s0 s Hu Hx Hc Hrun.
  - apply run_nil in Hrun as ->. by rewrite app_nil_r.
  - apply Forall_cons in Hu as [Hl Hls]. simpl in Hx. apply orb_false_iff in Hx as [Hxl Hxls].
    apply run_cons in Hrun as (s1 & Hstep & Hrun).
    destruct (step_silent seq l s0 s1 Hl Hc Hstep) as [Hc1 Ho1].
    destruct (step_listeners l s0 s1 Hstep) as (Hl1 & _ & Hcl & _).
    destruct (IH s1 s Hls Hxls Hc1 Hrun) as (Hc2 & Hl2 & Hcl2 & Ho2).
    rewrite Hxl in *. simpl in Hcl. rewrite orb_false_r in Hcl.
    split; [done|]. split; [|split; [congruence|lia]].
    rewrite Hl2, Hl1, <- app_assoc. f_equal. unfold requestedDisconnects. simpl.
    by destruct (match l with Incoming _ RqDisconnect => _ | _ => _ end).
Qed.

Lemma requestedDisconnects_app (ls1 ls2 : list Label) :
  requestedDisconnects (ls1 ++ ls2) = requestedDisconnects ls1 ++ requestedDisconnects ls2.
Proof. apply omap_app. Qed.

(** X8. Disconnects are acknowledged by the child's exit and by nothing
    else: those requested before the exit get their response at the exit,
    once each; those requested after it never get one, since their
    listeners cannot run any more; and the session is closing from the exit
    on exactly when a disconnect came first. *)
Theorem disconnect_acknowledged_at_exit_only (seq : Z) (ls1 ls2 : list Label) (s : Session) :
  Forall (λ l, usesResponse seq l = false) (ls1 ++ ls2) →
  run (ls1 ++ ProcessExit :: ls2) initial = Some ((), s) →
  responsesTo seq (output s)
  = countb (λ r, bool_decide (request_seq r = seq)) (requestedDisconnects ls1)
  ∧ debuggerExecutableClosing s = bool_decide (requestedDisconnects ls1 ≠ [])
  ∧ exitListeners s = requestedDisconnects (ls1 ++ ls2)
  ∧ step ProcessExit s = None.
Proof.
  intros Hu Hrun. apply Forall_app in Hu as [Hu1 Hu2].
  apply run_app in Hrun as (s1 & Hrun1 & Hrun2).
  apply run_cons in Hrun2 as (s2 & Hexit & Hrun2).
  destruct (step_listeners _ _ _ Hexit) as (Hl2 & Hx2 & Hc2 & Hx1). specialize (Hx1 eq_refl).
  pose proof (run_exited _ _ _ Hrun1) as Hno1. rewrite Hx1 in Hno1. simpl in Hno1.
  symmetry in Hno1.
  destruct (run_without_exit seq ls1 initial s1 Hu1 Hno1 eq_refl Hrun1)
    as (Hc1 & Hl1 & Hcl1 & Ho1).
  simpl in Hl1, Hcl1, Ho1.
  destruct (step_silent seq ProcessExit s1 s2 eq_refl Hc1 Hexit) as [Hc2' Ho2].
  rewrite Hl1 in Ho2, Hc2, Hl2. simpl in Ho2, Hc2, Hl2. rewrite app_nil_r in Hl2.
  rewrite Hcl1 in Hc2. simpl in Hc2. rewrite orb_true_r in Hx2.
  pose proof (run_exited _ _ _ Hrun2) as Hno2. rewrite Hx2 in Hno2. simpl in Hno2.
  assert (Hno2' : existsb isExit ls2 = false).
  { destruct (existsb isExit ls2) eqn:E; [|done]. exfalso.
    apply existsb_exists in E as (l & Hin & Hl). destruct l; try done.
    apply list_elem_of_In, list_elem_of_split in Hin as (a & b & ->).
    apply run_app in Hrun2 as (sa & Hruna & Hrunb).
    apply run_cons in Hrunb as (sb & Hstepb & _).
    apply step_listeners in Hstepb as (_ & _ & _ & Hxa). specialize (Hxa eq_refl).
    pose proof (run_exited _ _ _ Hruna) as Hxa'. rewrite Hx2, Hxa in Hxa'. done. }
  destruct (run_without_exit seq ls2 s2 s Hu2 Hno2' Hc2' Hrun2) as (_ & Hl & Hcl & Ho).
  repeat split.
  - rewrite responsesTo_countb, Ho, Ho2, Ho1. done.
  - congruence.
  - by rewrite Hl, Hl2, requestedDisconnects_app.
  - unfold step. mred. destruct (debuggerProcess s); [|done]. by rewrite Hno2.
Qed.

Lemma disconnect_acknowledged_at_exit_only_witness :
  responsesTo 4 (output (exec sampleExited initial)) = 1%nat
  ∧ debuggerExecutableClosing (exec sampleExited initial) = true.
Proof.
  destruct (disconnect_acknowledged_at_exit_only 4 sampleDisconnected []
              (exec sampleExited initial))
    as (H1 & H2 & _); [repeat constructor|vm_compute; reflexivity|].
  split; [exact H1|exact H2].
Defined.

(** X9. Before the child exits no disconnect is acknowledged and the session
    is not closing, whatever was requested. *)
Theorem no_acknowledgement_before_exit (seq : Z) (ls : list Label) (s : Session) :
  Forall (λ l, usesResponse seq l = false) ls →
  existsb isExit ls = false →
  run ls initial = Some ((), s) →
  responsesTo seq (output s) = 0%nat ∧ debuggerExecutableClosing s = false.
Proof.
  intros Hu Hx Hrun.
  destruct (run_without_exit seq ls initial s Hu Hx eq_refl Hrun) as (_ & _ & Hc & Ho).
  by rewrite responsesTo_countb, Ho, Hc.
Qed.


Lemma no_acknowledgement_before_exit_witness :
  responsesTo 4 (output (exec sampleDisconnected initial)) = 0%nat
  ∧ debuggerExecutableClosing (exec sampleDisconnected initial) = false.
Proof.
  apply (no_acknowledgement_before_exit 4 sampleDisconnected);
    [repeat constructor|reflexivity|vm_compute; reflexivity].
Defined.

End Disconnect.


(** * What the pollers answer on completion *)

Section Completion.

Lemma framesLoop_spec (out : list string) (n : nat) :
  ∀ (i : Z) (frames : list StackFrame) (s : Session),
    0 ≤ i → i + Z.of_nat n ≤ Z.of_nat (length out) →
    framesLoop out i n frames s
    = Some (frames ++ (parseFrame <$> take n (drop (Z.to_nat i) out)), s).
Proof.
  induction n as [|n IH]; intros i frames s Hi Hn.
  - simpl. by rewrite app_nil_r.
  - destruct (lookup_lt_is_Some_2 out (Z.to_nat i)) as [line Hline]; [lia|].
    rewrite (drop_S _ _ _ Hline). simpl. mred. rewrite index_lookup, Hline by done.
    simpl. rewrite IH by lia. rewrite <- app_assoc. simpl.
    replace (Z.to_nat (i + 1)) with (S (Z.to_nat i)) by lia. done.
Qed.

Lemma variablesLoop_spec (out : list string) (n : nat) :
  ∀ (i : Z) (prev : string) (vars : list DebugVariable) (s : Session),
    1 ≤ i → i + Z.of_nat n ≤ Z.of_nat (length out) →
    out !! Z.to_nat (i - 1) = Some prev →
    variablesLoop out i n vars s
    = Some (vars ++ scanVariables prev (take n (drop (Z.to_nat i) out)), s).
Proof.
  induction n as [|n IH]; intros i prev vars s Hi Hn Hprev.
  - simpl. by rewrite app_nil_r.
  - destruct (lookup_lt_is_Some_2 out (Z.to_nat i)) as [line Hline]; [lia|].
    rewrite (drop_S _ _ _ Hline). simpl. mred.
    rewrite index_lookup, Hprev by lia. simpl.
    assert (Hnext : out !! Z.to_nat (i + 1 - 1) = Some line)
      by (by replace (i + 1 - 1) with i by lia).
    replace (drop (S (Z.to_nat i)) out) with (drop (Z.to_nat (i + 1)) out)
      by (f_equal; lia).
    destruct (isMarkerLine prev).
    + mred. rewrite index_lookup, Hline by lia. simpl.
      rewrite (IH (i + 1) line) by (done || lia). by rewrite <- app_assoc.
    + rewrite (IH (i + 1) line) by (done || lia). done.
Qed.

Lemma poller_mark_reached (ls : list Label) (s : Session) (i : nat) (cb : Callback) (h : Z) :
  run ls initial = Some ((), s) →
  timeouts s !! i = Some cb → pollerMark cb = Some h →
  promptReached (fullDebugOutput s) h = true →
  1 ≤ h < Z.of_nat (length (fullDebugOutput s)) ∧ 2 ≤ Z.of_nat (length (fullDebugOutput s)).
Proof.
  intros Hrun Hi Hcb Hp.
  destruct (marks_inv_run ls initial s marks_inv_initial Hrun) as [_ Hmarks].
  eapply Forall_lookup_1 in Hmarks; [|exact Hi]. specialize (Hmarks h Hcb).
  apply promptReached_length in Hp. lia.
Qed.

(** X10. Stack trace: in every state the session reaches, when the poller of
    a stack-trace request fires and finds its command complete, the turn
    goes through, clears the busy flag and sends one frame per line of the
    answer, whatever [startFrame] and [levels] the request asked for; the
    total it reports is one more than the frames it lists whenever the mark
    is below the sentinel line. *)
Theorem stack_trace_answer (ls : list Label) (s : Session) (i : nat)
    (response : Response) (args : StackTraceArguments) (h : Z) :
  run ls initial = Some ((), s) →
  timeouts s !! i = Some (CbStackTraceRequestFinalize response args h) →
  promptReached (fullDebugOutput s) h = true →
  let frames := parseFrame <$> answerLines (fullDebugOutput s) h in
  ∃ s' total,
    step (TimerFire i) s = Some ((), s')
    ∧ output s' = output s ++ [SendResponse (with_body response (StackTraceBody frames total))]
    ∧ debuggerExecutableBusy s' = false
    ∧ total = Z.of_nat (length (fullDebugOutput s)) - h - 1
    ∧ (h + 2 ≤ Z.of_nat (length (fullDebugOutput s)) → total = Z.of_nat (length frames) + 1).
Proof.
  intros Hrun Hi Hp frames.
  destruct (poller_mark_reached ls s i _ h Hrun Hi eq_refl Hp) as [Hh Hlen].
  eexists _, _. split; [|split; [|split; [|split; [reflexivity|]]]].
  - apply step_timer. eexists. split; [exact Hi|]. simpl.
    unfold stackTraceRequestFinalize. mred. rewrite buffer_upd_timeouts, Hp.
    rewrite framesLoop_spec by (unfold rounds; lia). unfold sendResponse, emit. mred.
    reflexivity.
  - by destruct s.
  - by destruct s.
  - intros Hh2. subst frames. unfold answerLines, rounds.
    rewrite length_fmap, length_take, length_drop. lia.
Qed.

Lemma stack_trace_answer_witness :
  ∃ s' total,
    step (TimerFire 0) (exec sampleStackRun initial) = Some ((), s')
    ∧ debuggerExecutableBusy s' = false
    ∧ total = 3.
Proof.
  destruct (stack_trace_answer sampleStackRun (exec sampleStackRun initial) 0
              {| request_seq := 2; body := None |}
              {| startFrame := None; levels := None |} 2)
    as (s' & total & Hstep & _ & Hbusy & Htotal & _); [vm_compute; reflexivity..|].
  exists s', total. split; [exact Hstep|]. split; [exact Hbusy|exact Htotal].
Defined.

Lemma variablesRequestFinalize_done (response : Response) (args : VariablesArguments)
    (h : Z) (prev : string) (s : Session) :
  1 ≤ h →
  promptReached (fullDebugOutput s) h = true →
  fullDebugOutput s !! Z.to_nat (h - 1) = Some prev →
  variablesRequestFinalize response args h s
  = Some ((), upd_output
                (λ o, o ++ [SendResponse (with_body response
                              (VariablesBody (scanVariables prev
                                                (answerLines (fullDebugOutput s) h))))])
                (set_debuggerExecutableBusy false s)).
Proof.
  intros Hh Hp Hprev. pose proof (promptReached_length _ _ Hp) as [Hlen Hlt].
  unfold variablesRequestFinalize. mred. rewrite Hp.
  rewrite (variablesLoop_spec _ _ _ prev) by (done || unfold rounds; lia).
  unfold sendResponse, emit. mred. reflexivity.
Qed.

(** X11. Variables: in every state the session reaches, when the poller of a
    variables request fires and finds its command complete, the turn goes
    through, clears the busy flag and sends one variable for each line of
    the answer that follows a marker line, the line being its value. *)
Theorem variables_answer (ls : list Label) (s : Session) (i : nat)
    (response : Response) (args : VariablesArguments) (h : Z) :
  run ls initial = Some ((), s) →
  timeouts s !! i = Some (CbVariablesRequestFinalize response args h) →
  promptReached (fullDebugOutput s) h = true →
  ∃ prev s',
    fullDebugOutput s !! Z.to_nat (h - 1) = Some prev
    ∧ step (TimerFire i) s = Some ((), s')
    ∧ output s'
      = output s ++ [SendResponse (with_body response
                       (VariablesBody (scanVariables prev (answerLines (fullDebugOutput s) h))))]
    ∧ debuggerExecutableBusy s' = false.
Proof.
  intros Hrun Hi Hp.
  destruct (poller_mark_reached ls s i _ h Hrun Hi eq_refl Hp) as [Hh Hlen].
  destruct (lookup_lt_is_Some_2 (fullDebugOutput s) (Z.to_nat (h - 1))) as [prev Hprev]; [lia|].
  eexists prev, _. split; [done|]. split; [|split].
  - apply step_timer. eexists. split; [exact Hi|]. simpl.
    apply variablesRequestFinalize_done; by autorewrite with session || lia.
  - by destruct s.
  - by destruct s.
Qed.

Lemma variables_answer_witness :
  ∃ prev s',
    fullDebugOutput (exec sampleVariablesRun initial) !! 1%nat = Some prev
    ∧ step (TimerFire 0) (exec sampleVariablesRun initial) = Some ((), s').
Proof.
  destruct (variables_answer sampleVariablesRun (exec sampleVariablesRun initial) 0
              {| request_seq := 2; body := None |} {| variablesReference := 1 |} 2)
    as (prev & s' & Hprev & Hstep & _); [vm_compute; reflexivity..|].
  exists prev, s'. split; [exact Hprev|exact Hstep].
Defined.

(** X12. Evaluate: in every state the session reaches, when the poller of an
    evaluate request fires and finds its command complete, the line at the
    mark exists and is the value reported, between quotes after the
    expression; the lines between it and the sentinel are not reported. *)
Theorem evaluate_answer (ls : list Label) (s : Session) (i : nat)
    (response : Response) (args : EvaluateArguments) (h : Z) :
  run ls initial = Some ((), s) →
  timeouts s !! i = Some (CbEvaluateRequestFinalize response args h) →
  promptReached (fullDebugOutput s) h = true →
  ∃ value s',
    fullDebugOutput s !! Z.to_nat h = Some value
    ∧ step (TimerFire i) s = Some ((), s')
    ∧ output s'
      = output s ++ [SendResponse (with_body response
                       (EvaluateBody (expression args +:+ " = '" +:+ value +:+ "'") 0))]
    ∧ debuggerExecutableBusy s' = false.
Proof.
  intros Hrun Hi Hp.
  destruct (poller_mark_reached ls s i _ h Hrun Hi eq_refl Hp) as [Hh Hlen].
  destruct (lookup_lt_is_Some_2 (fullDebugOutput s) (Z.to_nat h)) as [value Hv]; [lia|].
  eexists value, _. split; [done|]. split; [|split].
  - apply step_timer. eexists. split; [exact Hi|]. simpl.
    unfold evaluateRequestFinalize. mred. rewrite buffer_upd_timeouts, Hp.
    rewrite index_lookup, Hv by lia. unfold sendResponse, emit. mred. reflexivity.
  - by destruct s.
  - by destruct s.
Qed.


Lemma evaluate_answer_witness :
  ∃ value s',
    fullDebugOutput (exec sampleEvaluateRun initial) !! 2%nat = Some value
    ∧ step (TimerFire 0) (exec sampleEvaluateRun initial) = Some ((), s').
Proof.
  destruct (evaluate_answer sampleEvaluateRun (exec sampleEvaluateRun initial) 0
              {| request_seq := 2; body := None |} {| expression := "$x" |} 2)
    as (value & s' & Hvalue & Hstep & _); [vm_compute; reflexivity..|].
  exists value, s'. split; [exact Hvalue|exact Hstep].
Defined.

End Completion.


(** * Markers and values of the variables answer *)

Section Markers.

Lemma str_take_app (a b : string) : JS.take (String.length a) (a +:+ b) = a.
Proof.
  induction a as [|c a IH]; [rewrite str_app_nil_l; by destruct b|].
  rewrite str_app_cons. simpl. by rewrite IH.
Qed.

Lemma str_drop_add (n m : nat) (s : string) : JS.drop (n + m) s = JS.drop m (JS.drop n s).
Proof.
  revert s. induction n as [|n IH]; intros s; [done|].
  destruct s; simpl; [by destruct m|]. apply IH.
Qed.

(** [replace] rewrites the first occurrence. *)
Lemma replace_first (a pat b repl : string) :
  (∀ j, (j < String.length a)%nat → ¬ occursAt pat (a +:+ pat +:+ b) j) →
  JS.replace (a +:+ pat +:+ b) pat repl = a +:+ repl +:+ b.
Proof.
  intros Hfirst. unfold JS.replace.
  rewrite (indexOf_first pat _ (String.length a)); [|by exists a, b|done].
  destruct (Z.of_nat (String.length a) <? 0) eqn:E; [apply Z.ltb_lt in E; lia|].
  rewrite Nat2Z.id, str_take_app, str_drop_add, str_drop_app, str_drop_app. done.
Qed.

Lemma occursAt_before (v : string) :
  ∀ j, (j < String.length v)%nat → occursAt "> " (v +:+ "> ") j → occursAt "> " v j.
Proof.
  induction v as [|c v IH]; intros j Hj H; simpl in Hj; [lia|].
  rewrite str_app_cons in H. destruct j as [|j].
  - apply occursAt_0 in H. apply occursAt_0. simpl in *.
    destruct (decide (">"%char = c)); [|done].
    destruct v as [|d v]; [done|]. rewrite str_app_cons in H. simpl in *.
    by destruct (decide (" "%char = d)).
  - apply occursAt_S in H. apply occursAt_S. apply IH; [lia|done].
Qed.

Lemma variableMarker_recognised (v : string) : isMarkerLine (variableMarker v) = true.
Proof.
  unfold isMarkerLine, variableMarker. apply andb_true_iff. split; apply bool_decide_eq_true.
  - apply indexOf_0. by eexists.
  - pose proof (indexOf_from_lower "> " (" <$" +:+ v +:+ "> ")) as Hlow.
    fold (JS.indexOf (" <$" +:+ v +:+ "> ") "> ") in Hlow.
    assert (JS.indexOf (" <$" +:+ v +:+ "> ") "> " ≠ -1) as Hocc.
    { rewrite indexOf_absent_iff. intros Habs.
      apply (Habs (String.length (" <$" +:+ v))). exists (" <$" +:+ v), "".
      by rewrite !str_app_assoc. }
    assert (JS.indexOf (" <$" +:+ v +:+ "> ") "> " ≠ 0) as Hne.
    { rewrite indexOf_0. intros [t Ht]. done. }
    lia.
Qed.

Lemma variableMarker_name (v line : string) :
  absent "> " v →
  var_name (variableOf (variableMarker v) line) = "$" +:+ v.
Proof.
  intros Habs. unfold variableOf, variableMarker. simpl.
  change (" <$" +:+ v +:+ "> ") with ("" +:+ " <" +:+ "$" +:+ v +:+ "> ").
  rewrite (replace_first "" " <" ("$" +:+ v +:+ "> ") "") by (simpl; lia).
  rewrite !str_app_nil_l.
  replace ("$" +:+ v +:+ "> ") with (("$" +:+ v) +:+ "> " +:+ "") by (by rewrite !str_app_assoc).
  rewrite replace_first; [by rewrite !str_app_nil_l, str_app_nil_r|].
  intros [|j] Hj H.
  - by apply occursAt_0 in H.
  - rewrite !str_app_assoc, str_app_nil_r in H. rewrite str_app_cons, str_app_nil_l in H, Hj.
    apply occursAt_S in H. simpl in Hj. apply (Habs j). apply occursAt_before; [lia|done].
Qed.

(** Markers and values in turn: one variable per marker, in order, its
    value the next line. *)
Lemma scanVariables_pairs (prev : string) (info : list string) (pairs : list (string * string)) :
  Forall (λ l, isMarkerLine l = false) (prev :: info) →
  Forall (λ p, isMarkerLine p.1 = true ∧ isMarkerLine p.2 = false) pairs →
  scanVariables prev (info ++ flat_map (λ p, [p.1; p.2]) pairs)
  = (λ p, variableOf p.1 p.2) <$> pairs.
Proof.
  revert prev. induction info as [|l info IH]; intros prev Hinfo Hpairs.
  - apply Forall_cons in Hinfo as [Hprev _]. simpl.
    revert prev Hprev. induction Hpairs as [|[m v] pairs [Hm Hv] _ IH]; intros prev Hprev.
    + done.
    + simpl in *. rewrite Hprev, Hm. simpl. f_equal. by apply IH.
  - apply Forall_cons in Hinfo as [Hprev Hinfo]. simpl. rewrite Hprev. simpl. by apply IH.
Qed.

Lemma scanVariables_queried (prev : string) (info : list string)
    (pairs : list (string * string)) :
  Forall (λ l, isMarkerLine l = false) (prev :: info) →
  Forall (λ p, absent "> " p.1 ∧ isMarkerLine p.2 = false) pairs →
  scanVariables prev (info ++ flat_map (λ p, [variableMarker p.1; p.2]) pairs)
  = queried <$> pairs.
Proof.
  intros Hinfo Hpairs.
  replace (flat_map (λ p, [variableMarker p.1; p.2]) pairs)
    with (flat_map (λ p : string * string, [p.1; p.2])
            ((λ p, (variableMarker p.1, p.2)) <$> pairs)).
  2: { clear. induction pairs as [|p pairs IH]; [done|]. rewrite fmap_cons. simpl. by rewrite IH. }
  rewrite scanVariables_pairs; [|done|].
  - rewrite <- list_fmap_compose. apply Forall_fmap_ext_1.
    eapply Forall_impl; [exact Hpairs|]. intros [v val] [Habs _]. simpl.
    unfold queried, variableOf. simpl. f_equal.
    apply (variableMarker_name v val Habs).
  - apply Forall_fmap. eapply Forall_impl; [exact Hpairs|]. intros [v val] [_ Hval]. simpl.
    split; [apply variableMarker_recognised|done].
Qed.

(** X13. Variables, end to end: when the answer has the shape the command
    asks for, each marker echoed on a line of its own and followed by the
    line of the value, the response lists exactly the variables queried, by
    name and in order, each with its value. *)
Theorem variables_recovered (ls : list Label) (s : Session) (i : nat)
    (response : Response) (args : VariablesArguments)
    (pre info : list string) (first rest : string) (pairs : list (string * string)) :
  run ls initial = Some ((), s) →
  timeouts s !! i
  = Some (CbVariablesRequestFinalize response args (Z.of_nat (length pre) + 1)) →
  fullDebugOutput s
  = pre ++ first :: (info ++ flat_map (λ p, [variableMarker p.1; p.2]) pairs)
        ++ [END_MARKER; rest] →
  Forall (λ l, isMarkerLine l = false) (first :: info) →
  Forall (λ p, absent "> " p.1 ∧ isMarkerLine p.2 = false) pairs →
  ∃ s',
    step (TimerFire i) s = Some ((), s')
    ∧ output s'
      = output s
          ++ [SendResponse (with_body response
                (VariablesBody (queried <$> pairs)))]
    ∧ debuggerExecutableBusy s' = false.
Proof.
  intros Hrun Hi Hout Hinfo Hpairs.
  set (body := info ++ flat_map (λ p, [variableMarker p.1; p.2]) pairs) in *.
  set (h := Z.of_nat (length pre) + 1) in *.
  assert (Hlen : length (fullDebugOutput s) = S (S (length pre + 1 + length body))%nat).
  { rewrite Hout, length_app. simpl. rewrite length_app. simpl. lia. }
  assert (Hp : promptReached (fullDebugOutput s) h = true).
  { apply promptReached_iff. split; [lia|]. eexists. split; [exact Hlen|].
    rewrite Hout, lookup_app_r by lia.
    replace (length pre + 1 + length body - length pre)%nat with (S (length body)) by lia.
    simpl. rewrite lookup_app_r by lia. by rewrite Nat.sub_diag. }
  assert (Hprev : fullDebugOutput s !! Z.to_nat (h - 1) = Some first).
  { rewrite Hout, lookup_app_r by lia.
    replace (Z.to_nat (h - 1) - length pre)%nat with 0%nat by lia. done. }
  assert (Hlines : answerLines (fullDebugOutput s) h = body).
  { unfold answerLines, rounds. rewrite Hlen, Hout.
    rewrite (cons_middle first pre), (app_assoc pre [first]).
    replace (Z.to_nat h) with (length (pre ++ [first])) by (rewrite length_app; simpl; lia).
    rewrite drop_app_length.
    replace (Z.to_nat _) with (length body) by lia. by rewrite take_app_length. }
  eexists. split; [|split].
  - apply step_timer. eexists. split; [exact Hi|]. simpl.
    apply (variablesRequestFinalize_done _ _ _ first); autorewrite with session; [lia|done..].
  - rewrite buffer_upd_timeouts, Hlines. unfold body.
    rewrite <- (scanVariables_queried first info pairs) by done.
    by destruct s.
  - by destruct s.
Qed.


Lemma variables_recovered_witness :
  ∃ s',
    step (TimerFire 0) (exec sampleVariablesRun initial) = Some ((), s')
    ∧ last (output s')
      = Some (SendResponse (with_body {| request_seq := 2; body := None |}
                (VariablesBody [queried ("PWD", "/home"); queried ("?", "0")]))).
Proof.
  destruct (variables_recovered sampleVariablesRun (exec sampleVariablesRun initial) 0
              {| request_seq := 2; body := None |} {| variablesReference := 1 |}
              [END_MARKER] [] "Program stopped." "" [("PWD", "/home"); ("?", "0")])
    as (s' & Hstep & Hout & _);
    [vm_compute; reflexivity|vm_compute; reflexivity|vm_compute; reflexivity| | |].
  - repeat constructor.
  - repeat constructor; apply indexOf_absent_iff; reflexivity.
  - exists s'. split; [exact Hstep|]. rewrite Hout. apply last_snoc.
Defined.

End Markers.


(** * Reading a breakpoint confirmation *)

Section Confirmations.

Lemma absent_cons (c d : ascii) (s : string) :
  absent (String c "") (String d s) ↔ c ≠ d ∧ absent (String c "") s.
Proof.
  split.
  - intros H. split.
    + intros ->. apply (H 0%nat). apply occursAt_0. simpl. by rewrite decide_True.
    + intros i Hi. apply (H (S i)). by apply occursAt_S.
  - intros [Hne H] [|i] Hi.
    + apply occursAt_0 in Hi. simpl in Hi. by rewrite decide_False in Hi.
    + apply occursAt_S in Hi. by apply (H i).
Qed.

Lemma absent_nil (c : ascii) : absent (String c "") "".
Proof.
  intros [|i] Hi; [by apply occursAt_0 in Hi|by apply occursAt_nil_S in Hi].
Qed.

Lemma split_absent (sep : ascii) (s : string) :
  absent (String sep "") s → JS.split sep s = [s].
Proof.
  induction s as [|c s IH]; intros H; [done|].
  apply absent_cons in H as [Hne H]. simpl.
  rewrite decide_False by done. by rewrite IH.
Qed.

Lemma split_absent_app (sep : ascii) (a b : string) :
  absent (String sep "") a →
  JS.split sep (a +:+ String sep b) = a :: JS.split sep b.
Proof.
  induction a as [|c a IH]; intros H.
  - rewrite str_app_nil_l. simpl. by rewrite decide_True.
  - apply absent_cons in H as [Hne H]. rewrite str_app_cons. simpl.
    rewrite decide_False by done. by rewrite IH.
Qed.

Lemma last_split_app (sep : ascii) (a b : string) :
  last (JS.split sep (a +:+ String sep b)) = last (JS.split sep b).
Proof.
  rewrite split_app. simpl JS.split at 3 4. rewrite decide_True by done. simpl.
  rewrite last_app, last_cons.
  pose proof (split_nonempty sep b) as Hne.
  destruct (JS.split sep b) as [|x l] using rev_ind; [done|].
  by rewrite last_snoc.
Qed.

(** A character of the pattern before the end of [a] is a character of [a]. *)
Lemma occursAt_char_before (c : ascii) (a t : string) :
  ∀ j, (j < String.length a)%nat →
       occursAt (String c "") (a +:+ t) j → occursAt (String c "") a j.
Proof.
  induction a as [|d a IH]; intros j Hj H; simpl in Hj; [lia|].
  rewrite str_app_cons in H. destruct j as [|j].
  - apply occursAt_0 in H. apply occursAt_0. simpl in *. by destruct (decide (c = d)).
  - apply occursAt_S in H. apply occursAt_S. apply IH; [lia|done].
Qed.

Lemma replace_char_last (c : ascii) (a : string) :
  absent (String c "") a → JS.replace (a +:+ String c "") (String c "") "" = a.
Proof.
  intros H.
  replace (a +:+ String c "") with (a +:+ String c "" +:+ "") by (by rewrite str_app_nil_r).
  rewrite replace_first; [by rewrite str_app_nil_l, str_app_nil_r|].
  intros j Hj Hocc. apply (H j). by apply occursAt_char_before in Hocc.
Qed.

(** The characters of a printed integer are digits and the sign. *)
Lemma uint_absent (c : ascii) (d : Decimal.uint) :
  JS.digit 10 c = None →
  absent (String c "") (NilEmpty.string_of_uint d).
Proof.
  intros Hc. induction d; simpl; [apply absent_nil|..];
    (apply absent_cons; split; [intros ->; vm_compute in Hc; discriminate|done]).
Qed.

Lemma toString_absent (c : ascii) (z : Z) :
  JS.digit 10 c = None → c ≠ "-"%char →
  absent (String c "") (JS.toString (JS.Num z)).
Proof.
  intros Hc Hm. unfold JS.toString, NilZero.string_of_int.
  assert (Hu : ∀ d, absent (String c "") (NilZero.string_of_uint d)).
  { intros d. destruct d;
      [apply absent_cons; split; [intros ->; vm_compute in Hc; discriminate|apply absent_nil]
      |rewrite string_of_uint_nonnil by done; apply (uint_absent c _ Hc)..]. }
  destruct (Z.to_int z) as [d|d]; [apply Hu|].
  apply absent_cons. split; [done|apply Hu].
Qed.

(** X14. A confirmation line read back: from a line of words separated by
    single spaces the id is read off the second word and the line number
    off the last word less its full stop, whatever stands in between. *)
Theorem parseBreakpoint_confirmation (pre mid : string) (id n : Z) :
  absent " " pre →
  parseBreakpoint (pre +:+ " " +:+ JS.toString (JS.Num id) +:+ " " +:+ mid +:+ " "
                       +:+ JS.toString (JS.Num n) +:+ ".")
  = Some {| bp_verified := true; bp_line := JS.Num n; bp_id := JS.Num id |}.
Proof.
  intros Hpre. unfold parseBreakpoint.
  assert (Hid : absent " " (JS.toString (JS.Num id))) by (by apply toString_absent).
  assert (Hn : absent " " (JS.toString (JS.Num n) +:+ ".")).
  { intros j Hj. destruct (decide (j < String.length (JS.toString (JS.Num n)))%nat).
    - apply occursAt_char_before in Hj; [|done]. by apply (toString_absent " " n) in Hj.
    - apply occursAt_drop in Hj as [Hj Hlen]. rewrite str_length_app in Hlen. simpl in Hlen.
      replace j with (String.length (JS.toString (JS.Num n))
                      + (j - String.length (JS.toString (JS.Num n))))%nat in Hj by lia.
      rewrite str_drop_add, str_drop_app in Hj.
      by destruct (j - String.length (JS.toString (JS.Num n)))%nat as [|[|k]]. }
  change (pre +:+ " " +:+ ?x) with (pre +:+ String " " x).
  rewrite (split_absent_app " " pre) by done.
  change (JS.toString (JS.Num id) +:+ " " +:+ ?x) with (JS.toString (JS.Num id) +:+ String " " x).
  rewrite (split_absent_app " " (JS.toString (JS.Num id))) by done.
  change (mid +:+ " " +:+ ?x) with (mid +:+ String " " x).
  rewrite !last_cons, last_split_app, (split_absent " " _ Hn). simpl.
  rewrite replace_char_last by (by apply toString_absent).
  pose proof (parseInt_toString n) as Hpn. pose proof (parseInt_toString id) as Hpid.
  unfold JS.toString in Hpn, Hpid. unfold convertDebuggerLineToClient.
  by rewrite Hpn, Hpid.
Qed.


Lemma parseBreakpoint_confirmation_witness :
  parseBreakpoint "Breakpoint 1 set in file /s.sh, line 5."
  = Some {| bp_verified := true; bp_line := JS.Num 5; bp_id := JS.Num 1 |}.
Proof.
  apply (parseBreakpoint_confirmation "Breakpoint" "set in file /s.sh, line" 1 5).
  apply indexOf_absent_iff. reflexivity.
Defined.

End Confirmations.


(** * Reading a backtrace line *)

Section Backtrace.

Lemma absent_app (c : ascii) (a b : string) :
  absent (String c "") a → absent (String c "") b → absent (String c "") (a +:+ b).
Proof.
  intros Ha Hb. induction a as [|d a IH]; [by rewrite str_app_nil_l|].
  apply absent_cons in Ha as [Hne Ha]. rewrite str_app_cons. apply absent_cons. auto.
Qed.

Lemma lastIndexOf_from_absent (c : ascii) (b : string) :
  absent (String c "") b →
  ∀ j acc, JS.lastIndexOf_from (String c "") b j acc = acc.
Proof.
  induction b as [|d b IH]; intros H j acc; [done|].
  apply absent_cons in H as [Hne H]. simpl. rewrite decide_False by done. by apply IH.
Qed.

Lemma lastIndexOf_char (c : ascii) (a b : string) :
  absent (String c "") b →
  JS.lastIndexOf (a +:+ String c b) (String c "") = Z.of_nat (String.length a).
Proof.
  intros H. unfold JS.lastIndexOf.
  assert (Hgen : ∀ j acc, JS.lastIndexOf_from (String c "") (a +:+ String c b) j acc
                          = j + Z.of_nat (String.length a)).
  { induction a as [|d a IH]; intros j acc.
    - rewrite str_app_nil_l. simpl. rewrite decide_True by done.
      rewrite lastIndexOf_from_absent by done. lia.
    - rewrite str_app_cons. simpl JS.lastIndexOf_from. rewrite IH. simpl String.length. lia. }
  by rewrite Hgen.
Qed.

Lemma str_drop_all (n : nat) (s : string) : (String.length s ≤ n)%nat → JS.drop n s = "".
Proof.
  revert s. induction n as [|n IH]; intros s H; destruct s; simpl in *; try done; try lia.
  apply IH. lia.
Qed.

Lemma str_take_take (n m : nat) (s : string) :
  (String.length s ≤ m)%nat → JS.take (n `min` m) s = JS.take n s.
Proof.
  revert m s. induction n as [|n IH]; intros m s H; [done|].
  destruct s as [|c s]; [by destruct (S n `min` m)%nat|]. simpl in H.
  destruct m as [|m]; [lia|]. simpl. f_equal. apply IH. lia.
Qed.

(** [substr] with both arguments non-negative cuts as [take] and [drop] do. *)
Lemma substr_take_drop (s : string) (start len : Z) :
  0 ≤ start → 0 ≤ len →
  JS.substr s start (Some len) = JS.take (Z.to_nat len) (JS.drop (Z.to_nat start) s).
Proof.
  intros Hs Hl. unfold JS.substr.
  destruct (start <? 0) eqn:E; [apply Z.ltb_lt in E; lia|].
  destruct (decide (start ≤ Z.of_nat (String.length s))) as [Hle|Hgt].
  - rewrite (Z.min_l start), (Z.max_l len) by lia.
    replace (Z.to_nat (Z.min len (Z.of_nat (String.length s) - start)))
      with (Z.to_nat len `min` (String.length s - Z.to_nat start))%nat by lia.
    apply str_take_take. rewrite str_length_drop. lia.
  - rewrite (Z.min_r start) by lia. rewrite Nat2Z.id.
    rewrite !str_drop_all by lia. by destruct (Z.to_nat _), (Z.to_nat len).
Qed.

Lemma parseInt_space (s : string) : JS.parseInt (String " " s) = JS.parseInt s.
Proof. reflexivity. Qed.

Lemma parseInt_two_chars (k : Z) (rest : string) :
  0 ≤ k < 100 →
  JS.parseInt (JS.take 2 (JS.toString (JS.Num k) +:+ String " " rest)) = JS.Num k.
Proof.
  intros Hk. assert (Hn : (Z.to_nat k < 100)%nat) by lia.
  replace k with (Z.of_nat (Z.to_nat k)) by lia.
  generalize dependent (Z.to_nat k). clear Hk. intros m Hm.
  do 100 (destruct m as [|m]; [reflexivity|]). lia.
Qed.

(** X15. A backtrace line read back: the frame number is read off columns 2
    and 3, so numbers up to 99; the path is what stands between the last
    back quote and the last quote; the line number is what follows the last
    space; the name is the whole line. *)
Theorem parseFrame_backtrace (a b : ascii) (k n : Z) (text path : string) :
  0 ≤ k < 100 →
  absent "`" path →
  let line := String a (String b (JS.toString (JS.Num k) +:+ " " +:+ text +:+ "`" +:+ path
                                    +:+ "' at line " +:+ JS.toString (JS.Num n))) in
  parseFrame line
  = {| sf_id := JS.Num k; sf_name := line; sf_path := path; sf_line := JS.Num n |}.
Proof.
  intros Hk Hpath line.
  set (K := JS.toString (JS.Num k)) in *. set (N := JS.toString (JS.Num n)) in *.
  set (head := String a (String b (K +:+ " " +:+ text))).
  assert (Htick : line = head +:+ String "`" (path +:+ "' at line " +:+ N)).
  { unfold line, head. rewrite !str_app_cons, !str_app_assoc. done. }
  assert (Hquote : line = (head +:+ "`" +:+ path) +:+ String "'" (" at line " +:+ N)).
  { rewrite Htick. rewrite !str_app_assoc. done. }
  assert (Hspace : line = (head +:+ "`" +:+ path +:+ "' at line") +:+ String " " N).
  { rewrite Htick. rewrite !str_app_assoc. done. }
  assert (HN : ∀ c, JS.digit 10 c = None → c ≠ "-"%char → absent (String c "") N)
    by (intros c; apply toString_absent).
  assert (Hi1 : JS.lastIndexOf line "`" = Z.of_nat (String.length head)).
  { rewrite Htick. apply lastIndexOf_char.
    apply absent_app; [done|]. apply (absent_app _ "' at line "); [|by apply HN].
    repeat (apply absent_cons; split; [done|]). apply absent_nil. }
  assert (Hi2 : JS.lastIndexOf line "'"
                = Z.of_nat (String.length head) + 1 + Z.of_nat (String.length path)).
  { rewrite Hquote, lastIndexOf_char.
    - rewrite !str_length_app. simpl String.length. lia.
    - apply (absent_app _ " at line "); [|by apply HN].
      repeat (apply absent_cons; split; [done|]). apply absent_nil. }
  assert (Hi3 : JS.lastIndexOf line " "
                = Z.of_nat (String.length (head +:+ "`" +:+ path +:+ "' at line"))).
  { rewrite Hspace. apply lastIndexOf_char. by apply HN. }
  unfold parseFrame. fold line. rewrite Hi1, Hi2, Hi3. f_equal.
  - rewrite substr_take_drop by lia. unfold line. simpl JS.drop.
    fold K. change (K +:+ " " +:+ ?x) with (K +:+ String " " x).
    by apply parseInt_two_chars.
  - rewrite substr_take_drop by lia.
    replace (Z.to_nat (Z.of_nat (String.length head) + 1))
      with (String.length (head +:+ "`")) by (rewrite str_length_app; simpl; lia).
    replace line with ((head +:+ "`") +:+ path +:+ "' at line " +:+ N)
      by (rewrite Htick, !str_app_assoc; done).
    rewrite str_drop_app.
    replace (Z.to_nat _) with (String.length path) by lia.
    apply str_take_app.
  - unfold convertDebuggerLineToClient. rewrite substr_from by lia.
    rewrite Nat2Z.id. rewrite Hspace at 1. rewrite str_drop_app, parseInt_space.
    apply parseInt_toString.
Qed.


Lemma parseFrame_backtrace_witness :
  parseFrame "->0 in file `/s.sh' at line 5"
  = {| sf_id := JS.Num 0; sf_name := "->0 in file `/s.sh' at line 5";
       sf_path := "/s.sh"; sf_line := JS.Num 5 |}.
Proof.
  apply (parseFrame_backtrace "-" ">" 0 5 "in file " "/s.sh"); [lia|].
  apply indexOf_absent_iff. reflexivity.
Defined.

End Backtrace.


(** * Disconnect and the busy gate *)

Section Reopen.

(** X16. A disconnect clears the busy flag whatever is in flight: the next
    gated request is written to the debugger at once, and its poller joins
    those already pending. *)
Theorem disconnect_reopens_gate (seq seq' : Z) (rq : Request) (s s1 : Session) :
  isGated rq = true →
  step (Incoming seq RqDisconnect) s = Some ((), s1) →
  ∃ s2,
    step (Incoming seq' rq) s1 = Some ((), s2)
    ∧ wrote s1 s2
    ∧ (debuggerExecutableClosing s = false →
       ∃ p, pollerMark p = Some (Z.of_nat (length (fullDebugOutput s)))
            ∧ pendingCommands s2 = pendingCommands s ++ [p]).
Proof.
  intros Hrq H.
  destruct s as [led out ix busy closing pr ex lsn ts iv rs kc ff tr].
  unfold step, dispatchRequest in H. mexec H. destruct pr; simplify_eq.
  destruct rq; try discriminate; destruct closing;
    match goal with
    | |- ∃ s2, step ?l ?s1 = _ ∧ _ =>
        destruct (step l s1) as [[[] s2]|] eqn:E;
        unfold step, dispatchRequest in E; mexec E; simplify_eq
    end;
    (eexists; split; [reflexivity|]);
    (split; [apply wrote_check; unfold newOutput; simpl;
             rewrite <- ?app_assoc, (app_assoc tr [TreeKill _]), drop_app_length;
             reflexivity|]);
    intros Hc; try discriminate; simpl;
    (eexists; split; [|unfold pendingCommands; simpl; rewrite filter_app; reflexivity]);
    reflexivity.
Qed.


Lemma disconnect_reopens_gate_witness :
  ∃ s2,
    step (Incoming 5 (RqStep Next))
      (exec (sampleSubmitted ++ [Incoming 4 RqDisconnect]) initial) = Some ((), s2)
    ∧ wrote (exec (sampleSubmitted ++ [Incoming 4 RqDisconnect]) initial) s2.
Proof.
  destruct (disconnect_reopens_gate 4 5 (RqStep Next) (exec sampleSubmitted initial)
              (exec (sampleSubmitted ++ [Incoming 4 RqDisconnect]) initial))
    as (s2 & Hstep & Hwrote & _); [reflexivity|vm_compute; reflexivity|].
  exists s2. split; [exact Hstep|exact Hwrote].
Defined.

End Reopen.


(** * The commands written to the debugger *)

Section Commands.

(** X17. The evaluate command: the expression is echoed as it is, and handed
    to [examine] with its first double quote removed; what follows that
    quote, further quotes included, is passed on unchanged. *)
Theorem evaluate_command (seq : Z) (args : EvaluateArguments) (a b : string) (s : Session) :
  expression args = a +:+ String "034" b →
  absent (String "034" "") a →
  debuggerExecutableBusy s = false →
  debuggerProcess s = true →
  ∃ s',
    step (Incoming seq (RqEvaluate args)) s = Some ((), s')
    ∧ output s'
      = output s ++ [StdinWrite ("print 'examine <" +:+ expression args +:+ ">'" +:+ JS.nl
                                   +:+ "examine " +:+ (a +:+ b) +:+ JS.nl +:+ printMarker)].
Proof.
  intros Hexpr Ha Hbusy Hpr.
  assert (Hrep : JS.replace (expression args) (String "034" "") "" = a +:+ b).
  { rewrite Hexpr. change (a +:+ String "034" b) with (a +:+ String "034" "" +:+ b).
    rewrite replace_first; [by rewrite str_app_nil_l|].
    intros j Hj Hocc. apply (Ha j). by apply occursAt_char_before in Hocc. }
  destruct s as [led out ix busy closing pr ex lsn ts iv rs kc ff tr].
  simpl in Hbusy, Hpr. subst.
  match goal with
  | |- ∃ s', step ?l ?s1 = _ ∧ _ => destruct (step l s1) as [[[] s']|] eqn:E
  end;
    unfold step, dispatchRequest in E; mexec E; destruct closing; simplify_eq;
    (eexists; split; [reflexivity|]); simpl; rewrite Hrep; reflexivity.
Qed.

Lemma evaluate_command_witness :
  ∃ s',
    step (Incoming 2 (RqEvaluate {| expression := "$" +:+ String "034" "x" |}))
      (exec [Incoming 1 (RqLaunch sampleLaunch)] initial) = Some ((), s').
Proof.
  destruct (evaluate_command 2 {| expression := "$" +:+ String "034" "x" |} "$" "x"
              (exec [Incoming 1 (RqLaunch sampleLaunch)] initial))
    as (s' & Hstep & _); [reflexivity| |reflexivity..|].
  - apply indexOf_absent_iff. reflexivity.
  - exists s'. exact Hstep.
Defined.

Lemma setBreakPointsRequestFinalize_flags (response : Response)
    (args : SetBreakpointsArguments) (h : Z) (s s' : Session) :
  setBreakPointsRequestFinalize response args h s = Some ((), s') →
  promptReached (fullDebugOutput s) h = true →
  debuggerExecutableBusy s' = false ∧ debuggerProcess s' = debuggerProcess s.
Proof.
  intros H Hp. destruct s as [led out ix busy closing pr ex lsn ts iv rs kc ff tr].
  simpl in Hp. unfold setBreakPointsRequestFinalize in H. mexec H. rewrite Hp in H.
  mexec H. repeat (case_match; simplify_eq; try mexec H). frame_loops. done.
Qed.

(** X18. The ledger at work: the ids a completed set-breakpoints round
    confirmed for a file are the ones the next request for that file tells
    the debugger to delete. *)
Theorem next_request_deletes_confirmed (ls : list Label) (s : Session) (i : nat)
    (response : Response) (args next : SetBreakpointsArguments) (h seq : Z) :
  run ls initial = Some ((), s) →
  timeouts s !! i = Some (CbSetBreakPointsRequestFinalize response args h) →
  promptReached (fullDebugOutput s) h = true →
  debuggerProcess s = true →
  source_path next = source_path args →
  ∃ s' s'',
    step (TimerFire i) s = Some ((), s')
    ∧ step (Incoming seq (RqSetBreakPoints next)) s' = Some ((), s'')
    ∧ output s''
      = output s'
          ++ [StdinWrite (setBreakpointsCommand (confirmedIds (fullDebugOutput s) h) next
                            +:+ printMarker)].
Proof.
  intros Hrun Hi Hp Hpr Hpath.
  destruct (poller_mark_reached ls s i _ h Hrun Hi eq_refl Hp) as [Hh Hlen].
  destruct (setBreakPointsRequestFinalize_ledger response args h
              (upd_timeouts (delete i) s)) as (s' & Hfin & _ & Hentry & _);
    [lia|by autorewrite with session|].
  rewrite buffer_upd_timeouts in Hentry.
  assert (Hbusy : debuggerExecutableBusy s' = false ∧ debuggerProcess s' = true).
  { destruct (setBreakPointsRequestFinalize_flags _ _ _ _ _ Hfin) as [Hb Hq];
      [by autorewrite with session|].
    split; [done|]. by rewrite Hq, process_upd_timeouts. }
  destruct Hbusy as [Hbusy Hpr'].
  exists s'. destruct s' as [led out ix busy closing pr ex lsn ts iv rs kc ff tr].
  simpl in Hbusy, Hpr', Hentry. subst.
  match goal with
  | |- ∃ s'', _ ∧ step ?l ?s1 = _ ∧ _ => destruct (step l s1) as [[[] s'']|] eqn:E
  end;
    unfold step, dispatchRequest in E; mexec E; rewrite Hpath in E; rewrite Hentry in E;
    mexec E; destruct closing; simplify_eq;
    (eexists; split; [apply step_timer; eauto|]); (split; [reflexivity|]); simpl;
    by rewrite Hentry.
Qed.


Lemma next_request_deletes_confirmed_witness :
  ∃ s' s'',
    step (TimerFire 0)
      (exec (sampleBreakpointsSubmitted ++ [StreamData 0 sampleConfirmations]) initial)
    = Some ((), s')
    ∧ step (Incoming 3 (RqSetBreakPoints
                          {| source_path := "/s.sh"; breakpoint_lines := [10; 12] |})) s'
      = Some ((), s'').
Proof.
  destruct (next_request_deletes_confirmed
              (sampleBreakpointsSubmitted ++ [StreamData 0 sampleConfirmations])
              (exec (sampleBreakpointsSubmitted ++ [StreamData 0 sampleConfirmations]) initial)
              0 {| request_seq := 2; body := None |} sampleBreakpoints
              {| source_path := "/s.sh"; breakpoint_lines := [10; 12] |} 2 3)
    as (s' & s'' & H1 & H2 & _); [vm_compute; reflexivity..|].
  exists s', s''. split; [exact H1|exact H2].
Defined.

End Commands.


(** * The set-breakpoints command and its answer *)

Section Breakpoints.

Lemma foldl_append (f : Z → string) (lines : list Z) (init : string) :
  foldl (λ cmd line, cmd +:+ f line) init lines
  = init +:+ concatChunks (f <$> lines).
Proof.
  revert init. induction lines as [|l lines IH]; intros init; simpl.
  - by rewrite str_app_nil_r.
  - rewrite IH. by rewrite str_app_assoc.
Qed.

Lemma setBreakpointsCommand_text (ids : list JS.number) (args : SetBreakpointsArguments) :
  setBreakpointsCommand ids args
  = "print 'delete <" +:+ JS.join " " (JS.toString <$> ids) +:+ ">'" +:+ JS.nl
      +:+ "delete " +:+ JS.join " " (JS.toString <$> ids) +:+ JS.nl
      +:+ "load " +:+ source_path args +:+ JS.nl
      +:+ concatChunks (breakCommand (source_path args) <$> breakpoint_lines args).
Proof.
  unfold setBreakpointsCommand.
  etransitivity; [apply (foldl_append (breakCommand (source_path args)))|].
  by rewrite !str_app_assoc.
Qed.

(** X19. The first set-breakpoints request for a file, or one after a round
    that confirmed nothing: the command written tells the debugger to
    [delete] with no ids at all, then to load the file and to break at each
    requested line, in the order requested; the file gets an empty ledger
    entry. *)
Theorem first_request_deletes_unqualified (seq : Z) (args : SetBreakpointsArguments)
    (s : Session) :
  default [] (currentBreakpointIds s !! source_path args) = [] →
  debuggerExecutableBusy s = false →
  debuggerProcess s = true →
  ∃ s',
    step (Incoming seq (RqSetBreakPoints args)) s = Some ((), s')
    ∧ output s'
      = output s
          ++ [StdinWrite ("print 'delete <>'" +:+ JS.nl
                            +:+ "delete " +:+ JS.nl
                            +:+ "load " +:+ source_path args +:+ JS.nl
                            +:+ concatChunks (breakCommand (source_path args)
                                                <$> breakpoint_lines args)
                            +:+ printMarker)]
    ∧ currentBreakpointIds s' !! source_path args = Some [].
Proof.
  intros Hids Hbusy Hpr.
  destruct s as [led out ix busy closing pr ex lsn ts iv rs kc ff tr].
  simpl in Hids, Hbusy, Hpr. subst.
  match goal with
  | |- ∃ s', step ?l ?s1 = _ ∧ _ => destruct (step l s1) as [[[] s']|] eqn:E
  end;
    unfold step, dispatchRequest in E; mexec E; destruct closing; simplify_eq;
    (eexists; split; [reflexivity|]); simpl;
    destruct (led !! source_path args) as [ids|] eqn:El; simpl in Hids; subst;
    rewrite ?El, ?lookup_insert_eq; simpl;
    rewrite setBreakpointsCommand_text; simpl; rewrite ?str_app_assoc; done.
Qed.

Lemma first_request_deletes_unqualified_witness :
  ∃ s',
    step (Incoming 2 (RqSetBreakPoints sampleBreakpoints))
      (exec [Incoming 1 (RqLaunch sampleLaunch)] initial) = Some ((), s')
    ∧ currentBreakpointIds s' !! "/s.sh" = Some [].
Proof.
  destruct (first_request_deletes_unqualified 2 sampleBreakpoints
              (exec [Incoming 1 (RqLaunch sampleLaunch)] initial))
    as (s' & Hstep & _ & Hentry); [reflexivity..|].
  exists s'. split; [exact Hstep|exact Hentry].
Defined.








End Breakpoints.


(** * Line reassembly: what the buffer holds *)

Section Stitching.

Lemma str_drop_0 (s : string) : JS.drop 0 s = s.
Proof. by destruct s. Qed.

Lemma removePrompt_drop (line : string) : ∃ k, removePrompt line = JS.drop k line.
Proof.
  destruct (JS.startsWith "bashdb<" line) eqn:E.
  - apply startsWith_beginsWith in E. rewrite removePrompt_prompt by done.
    pose proof (indexOf_from_lower "> " line) as Hlow.
    fold (JS.indexOf line "> ") in Hlow.
    rewrite substr_from by lia. by eexists.
  - exists 0%nat. rewrite str_drop_0. apply removePrompt_other.
    intros Hb. apply startsWith_beginsWith in Hb. congruence.
Qed.

Lemma drop_append (k : nat) (x y : string) : ∃ k', JS.drop k x +:+ y = JS.drop k' (x +:+ y).
Proof.
  revert k. induction x as [|c x IH]; intros k.
  - exists 0%nat. rewrite str_app_nil_l, str_drop_0. by destruct k.
  - destruct k as [|k]; [by exists 0%nat|].
    destruct (IH k) as [k' Hk']. exists (S k'). by rewrite str_app_cons.
Qed.

Lemma storedFor_refl_removePrompt (line : string) : storedFor (removePrompt line) line.
Proof. split; [apply removePrompt_drop|]. intros H. by apply removePrompt_other. Qed.

Lemma storedFor_stitched (stored partial fragment : string) :
  storedFor stored partial →
  storedFor (removePrompt (stored +:+ fragment)) (partial +:+ fragment).
Proof.
  intros [[k ->] Hexact]. split.
  - destruct (removePrompt_drop (JS.drop k partial +:+ fragment)) as [j ->].
    destruct (drop_append k partial fragment) as [k' ->].
    exists (k' + j)%nat. by rewrite str_drop_add.
  - intros Hb. rewrite Hexact by (intros H; apply Hb; by apply beginsWith_app).
    by apply removePrompt_other.
Qed.

Lemma pushData_storedFor (out : list string) (a b : string) :
  Forall2 storedFor out (JS.split "010" a) →
  Forall2 storedFor (pushData out b) (JS.split "010" (a +:+ b)).
Proof.
  intros H. rewrite split_app. unfold pushData.
  rewrite (split_last_snoc "010" a) in H.
  apply Forall2_app_inv_r in H as (out' & lo & Hout' & Hlo & ->).
  apply Forall2_cons_inv_r in Hlo as (stored & nil & Hstored & Hnil & ->).
  apply Forall2_nil_inv_r in Hnil as ->.
  rewrite removelast_last, last_snoc. simpl default at 1.
  apply Forall2_app; [done|].
  - pose proof (split_nonempty "010" b) as Hb.
    destruct (JS.split "010" b) as [|first rest]; [done|]. simpl.
    constructor; [by apply storedFor_stitched|].
    clear. induction rest as [|l rest IH]; [constructor|].
    rewrite fmap_cons. constructor; [apply storedFor_refl_removePrompt|done].
Qed.

Lemma foldl_pushData_storedFor (chunks : list string) (out : list string) (a : string) :
  Forall2 storedFor out (JS.split "010" a) →
  Forall2 storedFor (foldl pushData out chunks) (JS.split "010" (a +:+ concatChunks chunks)).
Proof.
  revert out a. induction chunks as [|c cs IH]; intros out a H; simpl.
  - by rewrite str_app_nil_r.
  - change (String.append c (concatChunks cs)) with (c +:+ concatChunks cs).
    rewrite <- str_app_assoc. apply IH. by apply pushData_storedFor.
Qed.

Lemma pushData_stitches (out : list string) (partial data first : string)
    (rest : list string) :
  JS.split "010" data = first :: rest →
  pushData (out ++ [partial]) data
  = out ++ removePrompt (partial +:+ first) :: (removePrompt <$> rest).
Proof.
  intros Hsplit. unfold pushData. by rewrite Hsplit, removelast_last, last_snoc.
Qed.

(** C3. Line reassembly: whatever the chunking, the buffer that started as
    the one empty line holds, after all chunks, one entry for each line of
    the concatenated stream split on newline, in order: the line itself
    when it does not begin with the prompt prefix, else the line less some
    characters at its head; so it has as many entries as the stream has
    lines. At each chunk the trailing partial line of the buffer is taken
    off and put back stitched with the first fragment of the chunk, the
    earlier lines staying as they are and the other fragments being
    appended. The same holds of the session's buffer when the chunks arrive
    as ['data'] events. *)
Theorem line_reassembly (chunks : list string) :
  Forall2 storedFor (foldl pushData [""] chunks) (JS.split "010" (concatChunks chunks))
  ∧ length (foldl pushData [""] chunks)
    = length (JS.split "010" (concatChunks chunks))
  ∧ (∀ out partial data first rest,
       JS.split "010" data = first :: rest →
       pushData (out ++ [partial]) data
       = out ++ removePrompt (partial +:+ first) :: (removePrompt <$> rest))
  ∧ ∀ i sendOutput s,
      fullDebugOutput s = [""] →
      readStreams s !! i = Some sendOutput →
      ∃ s', run (StreamData i <$> chunks) s = Some ((), s')
            ∧ fullDebugOutput s' = foldl pushData [""] chunks
            ∧ length (fullDebugOutput s')
              = length (JS.split "010" (concatChunks chunks)).
Proof.
  assert (H : Forall2 storedFor (foldl pushData [""] chunks)
                (JS.split "010" (concatChunks chunks))).
  { apply (foldl_pushData_storedFor chunks [""] "").
    constructor; [|constructor]. split; [by exists 0%nat|done]. }
  split; [done|]. split; [by apply Forall2_length in H|].
  split; [apply pushData_stitches|].
  intros i sendOutput s Hout Hi.
  destruct (run_stream_data i sendOutput chunks s Hi) as (s' & Hrun & Hout').
  exists s'. rewrite Hout', Hout. split; [done|]. split; [done|].
  by apply Forall2_length in H.
Qed.

Lemma line_reassembly_witness :
  pushData ["continue"; "ba"] ("shdb<1> #" +:+ JS.nl +:+ "bashdb<2> ")
  = ["continue"; "#"; ""]
  ∧ ∃ s', run (StreamData 0 <$> ["bashdb<0> ##"; "#" +:+ JS.nl +:+ "bash"; "db<1> "])
              (upd_readStreams (λ _, [false]) initial) = Some ((), s')
          ∧ length (fullDebugOutput s') = 2%nat.
Proof.
  split.
  - apply (proj1 (proj2 (proj2 (line_reassembly []))) ["continue"] "ba"
             ("shdb<1> #" +:+ JS.nl +:+ "bashdb<2> ") "shdb<1> #" ["bashdb<2> "]).
    reflexivity.
  - destruct (proj2 (proj2 (proj2
                (line_reassembly ["bashdb<0> ##"; "#" +:+ JS.nl +:+ "bash"; "db<1> "])))
                0%nat false (upd_readStreams (λ _, [false]) initial))
      as (s' & Hrun & _ & Hlen); [reflexivity..|].
    exists s'. split; [exact Hrun|exact Hlen].
Defined.


End Stitching.


(** * The ledger and the markers of a request *)

Section Attribution.









End Attribution.
